(** * fast_glcm: per-pixel grey-level co-occurrence matrices

    A shallow embedding of [fast_glcm/calc.py] and of the NumPy and OpenCV
    operations it calls, followed by the properties of the quantisation, of
    the co-occurrence tensor and of the texture statistics.

    Conventions of the embedding.
    - A 2-D array is a list of rows; [h] is the number of rows and [w] the
      length of a row.  The tensor of shape (levels, levels, h, w) is a list
      of lists of 2-D arrays.
    - Integer arrays hold [Z].  The [uint8] accumulator of the source is a
      [Z] with the saturation of OpenCV written out ([saturate_u8]).
    - Floating point values that are only compared or scaled (the bin edges
      of [np.linspace], the entries of the affine matrix) are rationals:
      rounding error of these operations is not part of the model.
    - Floating point values that may be non-finite (the statistics) live in
      [fval], rationals extended with the IEEE special values.
    - Lines 40-41 of the source compute the offset [(dx, dy)] with [np.cos]
      and [np.sin]; the embedding takes [dx] and [dy] themselves as inputs.
      For [distance = 1.0, angle = 0.0] they are [1] and [0]; for
      [distance = 0.0] both are [0].
    - Python exceptions are the [Raise] results of a small error monad. *)

From Stdlib Require Import ZArith QArith Qround List Bool Lia Lqa FinFun.
Import ListNotations.
Local Open Scope Z_scope.

(** ** Exceptions and the error monad *)

Inductive exn : Type :=
| ValueError   (* raised by Python and NumPy *)
| IndexError   (* raised by NumPy indexing *)
| ZeroDivisionError
| CvError.     (* cv2.error *)

Inductive result (A : Type) : Type :=
| Ok (a : A)
| Raise (e : exn).
Arguments Ok {A} a.
Arguments Raise {A} e.

Definition bind {A B : Type} (m : result A) (k : A -> result B) : result B :=
  match m with
  | Ok a => k a
  | Raise e => Raise e
  end.

Notation "x <- m ;; k" := (bind m (fun x => k))
  (at level 61, m at next level, right associativity).

Fixpoint foldM {S A : Type} (body : A -> S -> result S) (l : list A) (s : S)
  : result S :=
  match l with
  | [] => Ok s
  | a :: l' => s' <- body a s ;; foldM body l' s'
  end.

(** ** Arrays *)

Definition array2 := list (list Z).
Definition array4 := list (list array2).
Definition mask2 := list (list bool).

(** Python's [range(n)]. *)
Definition range (n : Z) : list Z := map Z.of_nat (seq 0 (Z.to_nat n)).

(** [for k in range(n): s = body k s]. *)
Definition for_range {S : Type} (n : Z) (body : Z -> S -> result S) (s : S)
  : result S :=
  foldM body (range n) s.

Definition len {A : Type} (l : list A) : Z := Z.of_nat (length l).

(** Rows and columns of a 2-D array. *)
Definition nrows (a : array2) : Z := len a.
Definition ncols (a : array2) : Z := len (hd [] a).

(** A list of rows is an h-by-w array. *)
Definition is_shape2 {A : Type} (h w : Z) (a : list (list A)) : Prop :=
  len a = h /\ Forall (fun r => len r = w) a.

Definition is_shape4 (n m h w : Z) (t : array4) : Prop :=
  len t = n /\ Forall (fun row => len row = m /\ Forall (is_shape2 h w) row) t.

(** Reading an element; the indices are in range wherever this is used. *)
Definition get2 (a : array2) (y x : Z) : Z :=
  nth (Z.to_nat x) (nth (Z.to_nat y) a []) 0.

Definition get4 (t : array4) (i j y x : Z) : Z :=
  get2 (nth (Z.to_nat j) (nth (Z.to_nat i) t []) []) y x.

Fixpoint zipWith {A B C : Type} (f : A -> B -> C) (l1 : list A) (l2 : list B)
  : list C :=
  match l1, l2 with
  | a :: l1', b :: l2' => f a b :: zipWith f l1' l2'
  | _, _ => []
  end.

(** Rewrite element [n] of a list; out of range the index is an error. *)
Fixpoint replace_nth {A : Type} (n : nat) (f : A -> result A) (l : list A)
  : result (list A) :=
  match l, n with
  | [], _ => Raise IndexError
  | a :: l', O => a' <- f a ;; Ok (a' :: l')
  | a :: l', S n' => r <- replace_nth n' f l' ;; Ok (a :: r)
  end.

(** ** NumPy *)

Module np.

Inductive ndarray : Type :=
| Arr0 (v : Z)
| Arr1 (a : list Z)
| Arr2 (a : array2)
| Arr3 (a : list array2)
| Arr4 (a : array4).

(** [a.shape] *)
Definition shape (a : ndarray) : list Z :=
  match a with
  | Arr0 _ => []
  | Arr1 a => [len a]
  | Arr2 a => [nrows a; ncols a]
  | Arr3 a => [len a; nrows (hd [] a); ncols (hd [] a)]
  | Arr4 a =>
      [len a; len (hd [] a); nrows (hd [] (hd [] a));
       ncols (hd [] (hd [] a))]
  end.

(** [y[-1] = v] on a non-empty list. *)
Definition set_last (y : list Q) (v : Q) : list Q := removelast y ++ [v].

(** [np.linspace(start, stop, num)] with [endpoint=True].  The edges are
    computed exactly.  NumPy computes them in [float64]: the first edge, the
    last edge (it is assigned, not computed), the order of the edges and
    every edge of an integer step are the same there; an interior edge of a
    step that is not an integer may differ by a rounding error.  The
    properties below rely on the former only. *)
Definition linspace (start stop : Q) (num : Z) : result (list Q) :=
  if num <? 0 then Raise ValueError
  else
    let div := num - 1 in
    let delta := (stop - start)%Q in
    let y := map inject_Z (range num) in
    let y :=
      if 0 <? div then
        let step := (delta / inject_Z div)%Q in
        if Qeq_bool step 0
        then map (fun v => (v / inject_Z div * delta)%Q) y
        else map (fun v => (v * step)%Q) y
      else map (fun v => (v * delta)%Q) y in
    let y := map (fun v => (v + start)%Q) y in
    Ok (if 1 <? num then set_last y stop else y).

(** The monotonicity check of [np.digitize]: 1 for non-decreasing bins,
    -1 for non-increasing ones, 0 otherwise. *)
Fixpoint nondecreasing_from (last : Q) (a : list Q) : bool :=
  match a with
  | [] => true
  | next :: a' => Qle_bool last next && nondecreasing_from next a'
  end.

Fixpoint nonincreasing_from (last : Q) (a : list Q) : bool :=
  match a with
  | [] => true
  | next :: a' => Qle_bool next last && nonincreasing_from next a'
  end.

Fixpoint skip_equal (last : Q) (a : list Q) : list Q :=
  match a with
  | [] => []
  | next :: a' => if Qeq_bool next last then skip_equal last a' else a
  end.

Definition monotonicity (bins : list Q) : Z :=
  match bins with
  | [] => 1
  | last :: a =>
      match skip_equal last a with
      | [] => 1
      | next :: rest =>
          if Qle_bool last next
          then if nondecreasing_from next rest then 1 else 0
          else if nonincreasing_from next rest then -1 else 0
      end
  end.

(** [np.searchsorted(a, v, side)] on a non-decreasing [a]: the insertion
    point, i.e. the number of elements [<= v] (right) or [< v] (left). *)
Definition searchsorted_right (a : list Q) (v : Q) : Z :=
  len (filter (fun b => Qle_bool b v) a).

(** [np.digitize(x, bins)] for one value, [right=False]. *)
Definition digitize1 (mono : Z) (bins : list Q) (v : Z) : Z :=
  if mono =? -1
  then len bins - searchsorted_right (rev bins) (inject_Z v)
  else searchsorted_right bins (inject_Z v).

Definition digitize (x : array2) (bins : list Q) : result array2 :=
  let mono := monotonicity bins in
  if mono =? 0 then Raise ValueError
  else Ok (map (map (digitize1 mono bins)) x).

(** [np.zeros((n, m, h, w), dtype=np.uint8)] *)
Definition zeros4 (n m h w : Z) : result array4 :=
  if (n <? 0) || (m <? 0) || (h <? 0) || (w <? 0) then Raise ValueError
  else Ok (repeat (repeat (repeat (repeat 0 (Z.to_nat w)) (Z.to_nat h))
                     (Z.to_nat m)) (Z.to_nat n)).

(** [np.ones((n, m), dtype=np.uint8)] *)
Definition ones2 (n m : Z) : result array2 :=
  if (n <? 0) || (m <? 0) then Raise ValueError
  else Ok (repeat (repeat 1 (Z.to_nat m)) (Z.to_nat n)).

(** [(a == i) & (b == j)] *)
Definition eq_and_eq (a : array2) (i : Z) (b : array2) (j : Z) : mask2 :=
  zipWith (zipWith (fun u v => (u =? i) && (v =? j))) a b.

(** [t[i, j, mask] = v] *)
Definition setitem_mask (t : array4) (i j : Z) (mask : mask2) (v : Z)
  : result array4 :=
  replace_nth (Z.to_nat i)
    (replace_nth (Z.to_nat j)
       (fun plane =>
          Ok (zipWith (zipWith (fun (p : Z) (m : bool) => if m then v else p))
                plane mask)))
    t.

(** [t[i, j]] *)
Definition getitem (t : array4) (i j : Z) : result array2 :=
  match nth_error t (Z.to_nat i) with
  | Some row =>
      match nth_error row (Z.to_nat j) with
      | Some plane => Ok plane
      | None => Raise IndexError
      end
  | None => Raise IndexError
  end.

(** [t[i, j] = plane] *)
Definition setitem (t : array4) (i j : Z) (plane : array2) : result array4 :=
  replace_nth (Z.to_nat i)
    (replace_nth (Z.to_nat j) (fun _ => Ok plane)) t.

End np.

(** ** OpenCV *)

Module cv2.

Definition saturate_u8 (v : Z) : Z := Z.max 0 (Z.min 255 v).
Definition saturate_short (v : Z) : Z := Z.max (-32768) (Z.min 32767 v).
Definition saturate_int (v : Z) : Z :=
  Z.max (- 2147483648) (Z.min 2147483647 v).

(** Wrap-around of [int] addition. *)
Definition wrap_int (v : Z) : Z :=
  (v + 2147483648) mod 4294967296 - 2147483648.

(** [cvRound]: round to nearest, ties to even. *)
Definition cvRound (q : Q) : Z :=
  let f := Qfloor q in
  let r := (q - inject_Z f)%Q in
  match (r ?= 1 # 2)%Q with
  | Lt => f
  | Gt => f + 1
  | Eq => if Z.even f then f else f + 1
  end.

(** [borderInterpolate(p, len, BORDER_REFLECT_101)]; the loop of the
    library runs at most [|p|] times when [len >= 2]. *)
Fixpoint reflect101_loop (fuel : nat) (p n : Z) : Z :=
  match fuel with
  | O => p
  | S fuel' =>
      let p' := if p <? 0 then - p - 1 + 1 else n - 1 - (p - n) - 1 in
      if (0 <=? p') && (p' <? n) then p'
      else reflect101_loop fuel' p' n
  end.

Definition borderInterpolate_reflect101 (p n : Z) : Z :=
  if (0 <=? p) && (p <? n) then p
  else if n =? 1 then 0
  else reflect101_loop (Z.to_nat (Z.abs p)) p n.

(** [clip(x, a, b)] of the remapping code: into [a, b-1]. *)
Definition clip (x a b : Z) : Z :=
  if a <=? x then (if x <? b then x else b - 1) else a.

Definition AB_BITS : Z := 10.
Definition AB_SCALE : Z := 2 ^ AB_BITS.

(** The largest [short]: the remapping code keeps source coordinates in
    16 bits. *)
Definition SHRT_MAX : Z := 32767.

(** [cv2.warpAffine(src, M, dsize, flags=INTER_NEAREST,
    borderMode=BORDER_REPLICATE)], [M] being the 2x3 matrix
    [[m0, m1, m2], [m3, m4, m5]].  Two assertions of OpenCV raise
    [cv2.error]: the source is not empty, and (in the remapping step, which
    fills the destination block by block) the source has fewer than
    [SHRT_MAX] rows and fewer than [SHRT_MAX] columns. *)
Definition warpAffine (src : array2) (M : Q * Q * Q * Q * Q * Q)
    (dsize : Z * Z) : result array2 :=
  let '(m0, m1, m2, m3, m4, m5) := M in
  let '(dcols, drows) := dsize in
  if (ncols src <=? 0) || (nrows src <=? 0) then Raise CvError
  else if (SHRT_MAX <=? ncols src) || (SHRT_MAX <=? nrows src)
  then Raise CvError
  else
    (* the matrix is inverted: dst(x, y) = src(M^-1 (x, y)) *)
    let D := (m0 * m4 - m1 * m3)%Q in
    let D := if Qeq_bool D 0 then 0%Q else (1 / D)%Q in
    let a11 := (m4 * D)%Q in
    let a22 := (m0 * D)%Q in
    let n0 := a11 in
    let n1 := (m1 * - D)%Q in
    let n3 := (m3 * - D)%Q in
    let n4 := a22 in
    let b1 := (- n0 * m2 - n1 * m5)%Q in
    let b2 := (- n3 * m2 - n4 * m5)%Q in
    let round_delta := AB_SCALE / 2 in
    let adelta x :=
      saturate_int (cvRound (n0 * inject_Z x * inject_Z AB_SCALE)) in
    let bdelta x :=
      saturate_int (cvRound (n3 * inject_Z x * inject_Z AB_SCALE)) in
    let X0 y :=
      wrap_int (saturate_int
                  (cvRound ((n1 * inject_Z y + b1) * inject_Z AB_SCALE))
                + round_delta) in
    let Y0 y :=
      wrap_int (saturate_int
                  (cvRound ((n4 * inject_Z y + b2) * inject_Z AB_SCALE))
                + round_delta) in
    Ok (map (fun y =>
          map (fun x =>
                 let X := Z.shiftr (wrap_int (X0 y + adelta x)) AB_BITS in
                 let Y := Z.shiftr (wrap_int (Y0 y + bdelta x)) AB_BITS in
                 let sx := clip (saturate_short X) 0 (ncols src) in
                 let sy := clip (saturate_short Y) 0 (nrows src) in
                 get2 src sy sx)
              (range dcols))
          (range drows)).

(** Sum of a list of integers. *)
Definition Zsum (l : list Z) : Z := fold_right Z.add 0 l.

(** [cv2.filter2D(src, -1, kernel)] on a [uint8] array: correlation with
    the kernel anchored at its centre, BORDER_REFLECT_101 (the default
    border), result saturated to [uint8]. *)
Definition filter2D_at (src kernel : array2) (y x : Z) : Z :=
  let ay := nrows kernel / 2 in
  let ax := ncols kernel / 2 in
  Zsum (map (fun ky =>
          Zsum (map (fun kx =>
                  get2 kernel ky kx *
                  get2 src
                    (borderInterpolate_reflect101 (y + ky - ay) (nrows src))
                    (borderInterpolate_reflect101 (x + kx - ax) (ncols src)))
                (range (ncols kernel))))
        (range (nrows kernel))).

Definition filter2D (src kernel : array2) : result array2 :=
  if (ncols src <=? 0) || (nrows src <=? 0) then Raise CvError
  else if (ncols kernel <=? 0) || (nrows kernel <=? 0) then Raise CvError
  else
    Ok (map (fun y =>
          map (fun x => saturate_u8 (filter2D_at src kernel y x))
              (range (ncols src)))
          (range (nrows src))).

End cv2.

(** ** calc.py *)

(** [h, w = img.shape] *)
Definition unpack2 (s : list Z) : result (Z * Z) :=
  match s with
  | [h; w] => Ok (h, w)
  | _ => Raise ValueError
  end.

Definition as_array2 (img : np.ndarray) : array2 :=
  match img with
  | np.Arr2 a => a
  | _ => []
  end.

(** The quantised level map [gl1] (lines 36-37). *)
Definition digitize_levels (img : array2) (vmin vmax levels : Z)
  : result array2 :=
  bins <- np.linspace (inject_Z vmin) (inject_Z (vmax + 1)) (levels + 1) ;;
  d <- np.digitize img bins ;;
  Ok (map (map (fun v => v - 1)) d).

Definition fast_glcm (img : np.ndarray) (vmin vmax levels kernel_size : Z)
    (dx dy : Q) : result array4 :=
  let mi := vmin in
  let ma := vmax in
  let ks := kernel_size in
  hw <- unpack2 (np.shape img) ;;
  let '(h, w) := hw in
  (* digitize *)
  gl1 <- digitize_levels (as_array2 img) mi ma levels ;;
  (* make shifted image *)
  let mat := (1%Q, 0%Q, (- dx)%Q, 0%Q, 1%Q, (- dy)%Q) in
  gl2 <- cv2.warpAffine gl1 mat (w, h) ;;
  (* make glcm *)
  glcm <- np.zeros4 levels levels h w ;;
  glcm <- for_range levels (fun i glcm =>
            for_range levels (fun j glcm =>
              let mask := np.eq_and_eq gl1 i gl2 j in
              np.setitem_mask glcm i j mask 1) glcm) glcm ;;
  kernel <- np.ones2 ks ks ;;
  glcm <- for_range levels (fun i glcm =>
            for_range levels (fun j glcm =>
              src <- np.getitem glcm i j ;;
              dst <- cv2.filter2D src kernel ;;
              np.setitem glcm i j dst) glcm) glcm ;;
  (* glcm.astype(np.float32): every entry is in 0..255, the cast is exact *)
  Ok glcm.


(** ** Calls in a store

    The arrays a caller can observe live in a store: the image is passed by
    reference, the accumulator [glcm] is allocated by the call and written
    in place by both pairs of loops, and [astype] allocates the array that is
    returned.  References are positions in the store; allocation appends.
    The arrays that are built once and only read ([gl1], [gl2], the masks,
    the kernel, each filtered plane) are values. *)

Module Store.

Definition heap := list np.ndarray.
Definition ref := nat.

Definition M (A : Type) : Type := heap -> result (A * heap).

Definition ret {A : Type} (a : A) : M A := fun hp => Ok (a, hp).

Definition bindM {A B : Type} (m : M A) (k : A -> M B) : M B :=
  fun hp =>
    match m hp with
    | Ok (a, hp') => k a hp'
    | Raise e => Raise e
    end.

Definition lift {A : Type} (r : result A) : M A :=
  fun hp =>
    match r with
    | Ok a => Ok (a, hp)
    | Raise e => Raise e
    end.

Definition load (r : ref) : M np.ndarray :=
  fun hp =>
    match nth_error hp r with
    | Some a => Ok (a, hp)
    | None => Raise IndexError
    end.

Definition alloc (a : np.ndarray) : M ref :=
  fun hp => Ok (length hp, hp ++ [a]).

Fixpoint write (r : ref) (a : np.ndarray) (hp : heap) : heap :=
  match hp, r with
  | [], _ => []
  | _ :: hp', O => a :: hp'
  | b :: hp', S r' => b :: write r' a hp'
  end.

Definition store (r : ref) (a : np.ndarray) : M unit :=
  fun hp => Ok (tt, write r a hp).

Fixpoint forM {A : Type} (l : list A) (body : A -> M unit) : M unit :=
  match l with
  | [] => ret tt
  | a :: l' => bindM (body a) (fun _ => forM l' body)
  end.

Definition as_array4 (a : np.ndarray) : array4 :=
  match a with
  | np.Arr4 t => t
  | _ => []
  end.

(** [fast_glcm(img, ...)] called on a reference to the image; the result
    is a reference to the returned tensor. *)
Definition fast_glcm_call (img : ref) (vmin vmax levels kernel_size : Z)
    (dx dy : Q) : M ref :=
  let mi := vmin in
  let ma := vmax in
  let ks := kernel_size in
  bindM (load img) (fun a =>
  bindM (lift (unpack2 (np.shape a))) (fun hw =>
  let '(h, w) := hw in
  bindM (lift (digitize_levels (as_array2 a) mi ma levels)) (fun gl1 =>
  let mat := (1%Q, 0%Q, (- dx)%Q, 0%Q, 1%Q, (- dy)%Q) in
  bindM (lift (cv2.warpAffine gl1 mat (w, h))) (fun gl2 =>
  bindM (lift (np.zeros4 levels levels h w)) (fun zeros =>
  bindM (alloc (np.Arr4 zeros)) (fun glcm =>
  bindM (forM (range levels) (fun i =>
           forM (range levels) (fun j =>
             bindM (load glcm) (fun t =>
             let mask := np.eq_and_eq gl1 i gl2 j in
             bindM (lift (np.setitem_mask (as_array4 t) i j mask 1))
               (fun t' => store glcm (np.Arr4 t')))))) (fun _ =>
  bindM (lift (np.ones2 ks ks)) (fun kernel =>
  bindM (forM (range levels) (fun i =>
           forM (range levels) (fun j =>
             bindM (load glcm) (fun t =>
             bindM (lift (src <- np.getitem (as_array4 t) i j ;;
                          dst <- cv2.filter2D src kernel ;;
                          np.setitem (as_array4 t) i j dst))
               (fun t' => store glcm (np.Arr4 t')))))) (fun _ =>
  bindM (load glcm) (fun t =>
  alloc (np.Arr4 (as_array4 t)))))))))))).

(** What a caller observes of a call: the returned array, or the
    exception. *)
Definition outcome (r : result (ref * heap)) : result (option np.ndarray) :=
  match r with
  | Ok (p, hp) => Ok (nth_error hp p)
  | Raise e => Raise e
  end.

End Store.

(** ** Floating point values of the statistics

    A [float32] value is a rational or one of the IEEE special values.
    Finite results are exact rationals kept in lowest terms (rounding is not
    modelled, nor is the sign of zero: a zero divisor counts as [+0]).
    An exact result is the [float32] result wherever the latter is not
    rounded: on integers below [2^24], and on their quotients by a power of
    two.  The properties of the statistics below state a value only under
    hypotheses that keep the computation inside that range; outside it they
    state what rounding to nearest preserves (being finite, being NaN,
    signs and bounds by a number that [float32] represents). *)

Inductive fval : Type :=
| Fin (q : Q)
| PInf
| NInf
| NaN.

Definition farray2 := list (list fval).
Definition farray4 := list (list farray2).

Definition of_Z (z : Z) : fval := Fin (inject_Z z).

(** The infinity of the sign given by a comparison with zero; [0 * inf] and
    [0 / 0] are NaN. *)
Definition inf_of_sign (c : comparison) : fval :=
  match c with
  | Gt => PInf
  | Lt => NInf
  | Eq => NaN
  end.

Definition fadd (a b : fval) : fval :=
  match a, b with
  | NaN, _ | _, NaN => NaN
  | Fin x, Fin y => Fin (Qred (x + y))
  | PInf, NInf | NInf, PInf => NaN
  | PInf, _ | _, PInf => PInf
  | NInf, _ | _, NInf => NInf
  end.

Definition fneg (a : fval) : fval :=
  match a with
  | Fin x => Fin (Qred (- x))
  | PInf => NInf
  | NInf => PInf
  | NaN => NaN
  end.

Definition fmul (a b : fval) : fval :=
  match a, b with
  | NaN, _ | _, NaN => NaN
  | Fin x, Fin y => Fin (Qred (x * y))
  | Fin x, PInf | PInf, Fin x => inf_of_sign (x ?= 0)%Q
  | Fin x, NInf | NInf, Fin x => inf_of_sign (0 ?= x)%Q
  | PInf, PInf | NInf, NInf => PInf
  | PInf, NInf | NInf, PInf => NInf
  end.

Definition fdiv (a b : fval) : fval :=
  match a, b with
  | NaN, _ | _, NaN => NaN
  | Fin x, Fin y =>
      if Qeq_bool y 0 then inf_of_sign (x ?= 0)%Q else Fin (Qred (x / y))
  | Fin _, PInf | Fin _, NInf => Fin 0
  | PInf, Fin y => if Qle_bool 0 y then PInf else NInf
  | NInf, Fin y => if Qle_bool 0 y then NInf else PInf
  | PInf, PInf | PInf, NInf | NInf, PInf | NInf, NInf => NaN
  end.

(** [np.log]; [ln] is the (rounded) natural logarithm on the positive
    finite values, which the model does not compute. *)
Definition flog (ln : Q -> Q) (a : fval) : fval :=
  match a with
  | NaN => NaN
  | NInf => NaN
  | PInf => PInf
  | Fin x =>
      match (x ?= 0)%Q with
      | Eq => NInf
      | Lt => NaN
      | Gt => Fin (ln x)
      end
  end.

(** [np.sqrt]; [sqrt] is the (rounded) square root on the non-negative
    finite values. *)
Definition fsqrt (sqrt : Q -> Q) (a : fval) : fval :=
  match a with
  | NaN => NaN
  | NInf => NaN
  | PInf => PInf
  | Fin x => if Qle_bool 0 x then Fin (sqrt x) else NaN
  end.

(** The tensor as the [float32] array that [fast_glcm] returns. *)
Definition astype_float (a : array2) : farray2 := map (map of_Z) a.

(** [np.zeros((h, w), dtype=np.float32)] *)
Definition zeros2 (h w : Z) : result farray2 :=
  if (h <? 0) || (w <? 0) then Raise ValueError
  else Ok (repeat (repeat (Fin 0) (Z.to_nat w)) (Z.to_nat h)).

(** [acc += term], element by element. *)
Definition iadd : farray2 -> farray2 -> farray2 :=
  zipWith (zipWith fadd).

(** [np.sum(t, axis=(0, 1))] of a tensor whose planes are h-by-w. *)
Definition sum_axes01 (h w : Z) (t : farray4) : farray2 :=
  fold_left iadd (concat t) (repeat (repeat (Fin 0) (Z.to_nat w)) (Z.to_nat h)).

(** [np.max(t, axis=(0, 1))]; the reduction of an empty tensor raises. The
    entries are the integers 0..255, their maximum is one of them. *)
Definition max_axes01 (t : array4) : result array2 :=
  match concat t with
  | [] => Raise ValueError
  | p :: ps => Ok (fold_left (zipWith (zipWith Z.max)) ps p)
  end.

Definition mean (img : np.ndarray) (vmin vmax levels ks : Z) (dx dy : Q)
  : result farray2 :=
  hw <- unpack2 (np.shape img) ;;
  let '(h, w) := hw in
  glcm <- fast_glcm img vmin vmax levels ks dx dy ;;
  mean <- zeros2 h w ;;
  for_range levels (fun i mean =>
    for_range levels (fun j mean =>
      g <- np.getitem glcm i j ;;
      Ok (iadd mean
            (map (map (fun v => fdiv (fmul v (of_Z i)) (of_Z (levels ^ 2))))
               (astype_float g)))) mean) mean.

Definition std (sqrt : Q -> Q) (img : np.ndarray) (vmin vmax levels ks : Z)
    (dx dy : Q) : result farray2 :=
  hw <- unpack2 (np.shape img) ;;
  let '(h, w) := hw in
  glcm <- fast_glcm img vmin vmax levels ks dx dy ;;
  mean <- zeros2 h w ;;
  mean <- for_range levels (fun i mean =>
    for_range levels (fun j mean =>
      g <- np.getitem glcm i j ;;
      Ok (iadd mean
            (map (map (fun v => fdiv (fmul v (of_Z i)) (of_Z (levels ^ 2))))
               (astype_float g)))) mean) mean ;;
  std2 <- zeros2 h w ;;
  std2 <- for_range levels (fun i std2 =>
    for_range levels (fun j std2 =>
      g <- np.getitem glcm i j ;;
      Ok (iadd std2
            (zipWith (zipWith (fun v m =>
                                 let d := fadd (fmul v (of_Z i)) (fneg m) in
                                 fmul d d))
               (astype_float g) mean))) std2) std2 ;;
  Ok (map (map (fsqrt sqrt)) std2).

Definition contrast (img : np.ndarray) (vmin vmax levels ks : Z) (dx dy : Q)
  : result farray2 :=
  hw <- unpack2 (np.shape img) ;;
  let '(h, w) := hw in
  glcm <- fast_glcm img vmin vmax levels ks dx dy ;;
  cont <- zeros2 h w ;;
  for_range levels (fun i cont =>
    for_range levels (fun j cont =>
      g <- np.getitem glcm i j ;;
      Ok (iadd cont
            (map (map (fun v => fmul v (of_Z ((i - j) ^ 2))))
               (astype_float g)))) cont) cont.

Definition dissimilarity (img : np.ndarray) (vmin vmax levels ks : Z)
    (dx dy : Q) : result farray2 :=
  hw <- unpack2 (np.shape img) ;;
  let '(h, w) := hw in
  glcm <- fast_glcm img vmin vmax levels ks dx dy ;;
  diss <- zeros2 h w ;;
  for_range levels (fun i diss =>
    for_range levels (fun j diss =>
      g <- np.getitem glcm i j ;;
      Ok (iadd diss
            (map (map (fun v => fmul v (of_Z (Z.abs (i - j)))))
               (astype_float g)))) diss) diss.

Definition homogeneity (img : np.ndarray) (vmin vmax levels ks : Z)
    (dx dy : Q) : result farray2 :=
  hw <- unpack2 (np.shape img) ;;
  let '(h, w) := hw in
  glcm <- fast_glcm img vmin vmax levels ks dx dy ;;
  homo <- zeros2 h w ;;
  for_range levels (fun i homo =>
    for_range levels (fun j homo =>
      g <- np.getitem glcm i j ;;
      Ok (iadd homo
            (map (map (fun v =>
                         fdiv v (fadd (Fin 1) (of_Z ((i - j) ^ 2)))))
               (astype_float g)))) homo) homo.

Definition energy (sqrt : Q -> Q) (img : np.ndarray) (vmin vmax levels ks : Z)
    (dx dy : Q) : result farray2 :=
  hw <- unpack2 (np.shape img) ;;
  let '(h, w) := hw in
  glcm <- fast_glcm img vmin vmax levels ks dx dy ;;
  asm <- zeros2 h w ;;
  asm <- for_range levels (fun i asm =>
    for_range levels (fun j asm =>
      g <- np.getitem glcm i j ;;
      Ok (iadd asm (map (map (fun v => fmul v v)) (astype_float g)))) asm) asm ;;
  Ok (map (map (fsqrt sqrt)) asm).

(** [max]: the largest entry of the tensor at each pixel. *)
Definition max (img : np.ndarray) (vmin vmax levels ks : Z) (dx dy : Q)
  : result array2 :=
  glcm <- fast_glcm img vmin vmax levels ks dx dy ;;
  max_axes01 glcm.

(** [entropy]; the trailing shape of the tensor is the shape of the image.
    [1. / ks**2] is a Python division and raises on zero. *)
Definition entropy (ln : Q -> Q) (img : np.ndarray) (vmin vmax levels ks : Z)
    (dx dy : Q) : result farray2 :=
  glcm <- fast_glcm img vmin vmax levels ks dx dy ;;
  let h := nrows (as_array2 img) in
  let w := ncols (as_array2 img) in
  let glcm := map (map astype_float) glcm in
  c <- (if ks ^ 2 =? 0 then Raise ZeroDivisionError
        else Ok (fdiv (Fin 1) (of_Z (ks ^ 2)))) ;;
  let total := sum_axes01 h w glcm in
  let pnorm :=
    map (map (fun plane =>
                zipWith (zipWith (fun g s => fadd (fdiv g s) c)) plane total))
      glcm in
  let ent :=
    sum_axes01 h w
      (map (map (map (map (fun p => fmul (fneg p) (flog ln p))))) pnorm) in
  Ok ent.

(** The level of one intensity against given bin edges (increasing case of
    [np.digitize], minus one). *)
Definition level_of (bins : list Q) (v : Z) : Z :=
  np.searchsorted_right bins (inject_Z v) - 1.

(** What the properties below use of the bin edges of an increasing range
    [vmin <= vmax + 1]: there are [levels + 1] of them, the first one is
    [vmin], every one lies in [vmin, vmax + 1], and for [levels >= 1] the
    last one is [vmax + 1]. *)
Definition increasing_edges (vmin vmax levels : Z) (bins : list Q) : Prop :=
  len bins = levels + 1 /\
  (exists b0 rest, bins = b0 :: rest /\ (b0 == inject_Z vmin)%Q) /\
  Forall (fun b => inject_Z vmin <= b <= inject_Z (vmax + 1))%Q bins /\
  (1 <= levels -> exists front, bins = front ++ [inject_Z (vmax + 1)]).

(** The plane [t[i, j]] of a tensor, for a pair of non-negative indices. *)
Definition slice (t : array4) (p : Z * Z) : array2 :=
  nth (Z.to_nat (snd p)) (nth (Z.to_nat (fst p)) t []) [].

(** The indicator plane written by the first pair of loops:
    1 where [gl1 == i] and [gl2 == j], 0 elsewhere. *)
Definition indicator (gl1 gl2 : array2) (i j y x : Z) : Z :=
  if (get2 gl1 y x =? i) && (get2 gl2 y x =? j) then 1 else 0.

(** The number of positions of the [ks]-by-[ks] window around [(y, x)]
    (reflected at the border) where the level pair is [(i, j)]. *)
Definition window_count (gl1 gl2 : array2) (h w ks i j y x : Z) : Z :=
  cv2.Zsum (map (fun ky =>
    cv2.Zsum (map (fun kx =>
      indicator gl1 gl2 i j
        (cv2.borderInterpolate_reflect101 (y + ky - ks / 2) h)
        (cv2.borderInterpolate_reflect101 (x + kx - ks / 2) w))
      (range ks)))
    (range ks)).

(** The effect of one iteration of each pair of loops on its plane. *)
Definition paint (gl1 gl2 : array2) (p : Z * Z) (plane : array2) : array2 :=
  zipWith (zipWith (fun (v : Z) (m : bool) => if m then 1 else v))
    plane (np.eq_and_eq gl1 (fst p) gl2 (snd p)).

Definition box_filter (kernel : array2) (p : Z * Z) (plane : array2) : array2 :=
  map (fun y =>
    map (fun x => cv2.saturate_u8 (cv2.filter2D_at plane kernel y x))
      (range (ncols plane)))
    (range (nrows plane)).

(** The sum of the tensor over all level pairs at one pixel. *)
Definition pixel_total (t : array4) (levels y x : Z) : Z :=
  cv2.Zsum (map (fun i =>
    cv2.Zsum (map (fun j => get4 t i j y x) (range levels)))
    (range levels)).

(** Every pixel of an h-by-w image lies in [lo, hi]. *)
Definition pixels_within (img : array2) (h w lo hi : Z) : Prop :=
  forall y x, 0 <= y < h -> 0 <= x < w -> lo <= get2 img y x <= hi.

(** Reading an element of a float array. *)
Definition fget2 (a : farray2) (y x : Z) : fval :=
  nth (Z.to_nat x) (nth (Z.to_nat y) a []) NaN.

(** The level pairs in the order of the loops. *)
Definition level_pairs (levels : Z) : list (Z * Z) :=
  list_prod (range levels) (range levels).

(** Sum of a list of float values, from 0. *)
Definition fsum (l : list fval) : fval := fold_left fadd l (Fin 0).

(** The entropy of one pixel as the specification words it: the sum over
    all level pairs of [-p * ln p], where [p] is the tensor entry divided by
    the sum of the tensor at that pixel, plus [1 / kernel_size^2]. *)
Definition entropy_formula (ln : Q -> Q) (t : array4) (levels ks y x : Z)
  : fval :=
  let total :=
    fsum (map (fun p => of_Z (get4 t (fst p) (snd p) y x))
            (level_pairs levels)) in
  let smoothing := fdiv (Fin 1) (of_Z (ks ^ 2)) in
  fsum (map (fun p =>
               let pn :=
                 fadd (fdiv (of_Z (get4 t (fst p) (snd p) y x)) total)
                   smoothing in
               fmul (fneg pn) (flog ln pn))
          (level_pairs levels)).

(** ** Per-pixel readings of the statistics *)

(** Sum of a list of rationals. *)
Definition Qsum (l : list Q) : Q := fold_right Qplus 0%Q l.

(** The tensor at one pixel, weighted by a function of the level pair and
    summed over all level pairs. *)
Definition weighted_total (wt : Z -> Z -> Z) (t : array4) (levels y x : Z) : Z :=
  cv2.Zsum (map (fun p => get4 t (fst p) (snd p) y x * wt (fst p) (snd p))
              (level_pairs levels)).

(** The sum of the squared tensor entries at one pixel. *)
Definition squared_total (t : array4) (levels y x : Z) : Z :=
  cv2.Zsum (map (fun p => get4 t (fst p) (snd p) y x * get4 t (fst p) (snd p) y x)
              (level_pairs levels)).

(** The level map sampled at the integer offset [(dx, dy)], the samples
    outside the image taken at the nearest border position. *)
Definition shifted (gl1 : array2) (h w dx dy : Z) : array2 :=
  map (fun y =>
    map (fun x => get2 gl1 (cv2.clip (y + dy) 0 h) (cv2.clip (x + dx) 0 w))
      (range w))
    (range h).

(** 1 where both levels of a position are valid levels, 0 elsewhere; and the
    number of such positions in the window around a pixel. *)
Definition valid_pair (gl1 gl2 : array2) (levels y x : Z) : Z :=
  if (0 <=? get2 gl1 y x) && (get2 gl1 y x <? levels) &&
     (0 <=? get2 gl2 y x) && (get2 gl2 y x <? levels)
  then 1 else 0.

Definition window_valid (gl1 gl2 : array2) (h w ks levels y x : Z) : Z :=
  cv2.Zsum (map (fun ky =>
    cv2.Zsum (map (fun kx =>
      valid_pair gl1 gl2 levels
        (cv2.borderInterpolate_reflect101 (y + ky - ks / 2) h)
        (cv2.borderInterpolate_reflect101 (x + kx - ks / 2) w))
      (range ks)))
    (range ks)).

(** The weights of [contrast], [dissimilarity] and [mean]. *)
Definition squared_difference (i j : Z) : Z := (i - j) ^ 2.
Definition absolute_difference (i j : Z) : Z := Z.abs (i - j).
Definition row_level (i j : Z) : Z := i.

(** [np.zeros((h, w), dtype=np.float32)] as a value. *)
Definition zero_image (h w : Z) : farray2 :=
  repeat (repeat (Fin 0) (Z.to_nat w)) (Z.to_nat h).

(** * Properties *)

(** ** Lists, ranges and indexing *)

(** Arithmetic on lengths, whatever name the array types go by. *)
Ltac len_lia := unfold len, array4, array2, mask2 in *; cbv beta in *; lia.

Lemma len_map {A B : Type} (f : A -> B) (l : list A) : len (map f l) = len l.
Proof. unfold len. now rewrite length_map. Qed.

Lemma len_range (n : Z) : len (range n) = Z.max 0 n.
Proof. unfold len, range. rewrite length_map, length_seq. lia. Qed.

Lemma len_repeat {A : Type} (a : A) (n : nat) : len (repeat a n) = Z.of_nat n.
Proof. unfold len. now rewrite repeat_length. Qed.

Lemma In_range (n k : Z) : In k (range n) <-> 0 <= k < n.
Proof.
  unfold range. rewrite in_map_iff. split.
  - intros [m [<- Hm]]. apply in_seq in Hm. lia.
  - intros Hk. exists (Z.to_nat k). split; [lia | apply in_seq; lia].
Qed.

Lemma NoDup_range (n : Z) : NoDup (range n).
Proof.
  unfold range. apply Injective_map_NoDup.
  - intros a b Hab. lia.
  - apply seq_NoDup.
Qed.

Lemma nth_map_range {A : Type} (f : Z -> A) (n k : Z) (d : A) :
  0 <= k < n -> nth (Z.to_nat k) (map f (range n)) d = f k.
Proof.
  intros Hk. unfold range. rewrite map_map.
  rewrite nth_indep with (d' := f (Z.of_nat 0)).
  - rewrite (map_nth (fun m => f (Z.of_nat m)) (seq 0 (Z.to_nat n)) 0%nat).
    rewrite seq_nth by lia. simpl. f_equal. lia.
  - rewrite length_map, length_seq. lia.
Qed.

Lemma range_succ (n : Z) : 0 <= n -> range (n + 1) = range n ++ [n].
Proof.
  intros Hn. unfold range.
  replace (Z.to_nat (n + 1)) with (S (Z.to_nat n)) by lia.
  rewrite seq_S, map_app. simpl. f_equal. f_equal. lia.
Qed.

Lemma nth_zipWith {A B C : Type} (f : A -> B -> C) (l1 : list A) (l2 : list B)
    (n : nat) (da : A) (db : B) (dc : C) :
  (n < length l1)%nat -> (n < length l2)%nat ->
  nth n (zipWith f l1 l2) dc = f (nth n l1 da) (nth n l2 db).
Proof.
  revert l2 n. induction l1 as [|a l1 IH]; intros [|b l2] n H1 H2;
    simpl in *; try lia.
  destruct n as [|n]; [reflexivity | apply IH; lia].
Qed.

Lemma length_zipWith {A B C : Type} (f : A -> B -> C) (l1 : list A) (l2 : list B) :
  length (zipWith f l1 l2) = Nat.min (length l1) (length l2).
Proof.
  revert l2. induction l1 as [|a l1 IH]; intros [|b l2]; simpl; auto.
Qed.

Lemma Forall_nth_Z {A : Type} (P : A -> Prop) (l : list A) (k : Z) (d : A) :
  Forall P l -> 0 <= k < len l -> P (nth (Z.to_nat k) l d).
Proof.
  intros HF Hk. rewrite Forall_forall in HF. apply HF, nth_In.
  unfold len in Hk. lia.
Qed.

Lemma ncols_shape (h w : Z) (a : array2) :
  is_shape2 h w a -> 1 <= h -> ncols a = w /\ nrows a = h.
Proof.
  intros [Hl HF] Hh. unfold ncols, nrows. split; [|exact Hl].
  destruct a as [|r a]; [unfold len in Hl; simpl in Hl; lia|].
  simpl. now inversion HF.
Qed.

Lemma len_row {A : Type} (h w : Z) (a : list (list A)) (y : Z) :
  is_shape2 h w a -> 0 <= y < h -> len (nth (Z.to_nat y) a []) = w.
Proof.
  intros [Hl HF] Hy.
  apply (Forall_nth_Z (fun r => len r = w)); [exact HF | lia].
Qed.

(** ** The error monad and the loops *)

(** ** Quantisation: [np.linspace] and [np.digitize] *)

Lemma removelast_snoc {A : Type} (l : list A) (a : A) :
  removelast (l ++ [a]) = l.
Proof. apply removelast_last. Qed.

(** For [levels >= 1] the bin edges are an arithmetic progression of
    [levels] values starting at [start], followed by [stop] itself. *)
Lemma linspace_edges (start stop : Q) (lv : Z) :
  1 <= lv ->
  exists g : Z -> Q,
    np.linspace start stop (lv + 1) = Ok (map g (range lv) ++ [stop]) /\
    forall k, (g k == start + inject_Z k * ((stop - start) / inject_Z lv))%Q.
Proof.
  intros Hlv.
  assert (Hne : ~ (inject_Z lv == 0)%Q).
  { change 0%Q with (inject_Z 0). rewrite inject_Z_injective. lia. }
  unfold np.linspace.
  destruct (Z.ltb_spec (lv + 1) 0) as [?|_]; [lia|].
  replace (lv + 1 - 1) with lv by lia.
  destruct (Z.ltb_spec 0 lv) as [_|?]; [|lia].
  destruct (Z.ltb_spec 1 (lv + 1)) as [_|?]; [|lia].
  unfold np.set_last.
  rewrite range_succ by lia.
  destruct (Qeq_bool ((stop - start) / inject_Z lv) 0) eqn:Hstep.
  - exists (fun k => (inject_Z k / inject_Z lv * (stop - start) + start)%Q).
    split.
    + rewrite !map_app. simpl. rewrite removelast_snoc, !map_map. reflexivity.
    + intros k. field. exact Hne.
  - exists (fun k => (inject_Z k * ((stop - start) / inject_Z lv) + start)%Q).
    split.
    + rewrite !map_app. simpl. rewrite removelast_snoc, !map_map. reflexivity.
    + intros k. ring.
Qed.

(** With [levels = 0] there is the single edge [start]. *)
Lemma linspace_single (start stop : Q) :
  exists b, np.linspace start stop 1 = Ok [b] /\ (b == start)%Q.
Proof.
  eexists. split; [reflexivity|]. simpl. ring.
Qed.

Lemma nondecreasing_from_head (x x' : Q) (l : list Q) :
  (x' <= x)%Q -> np.nondecreasing_from x l = true ->
  np.nondecreasing_from x' l = true.
Proof.
  destruct l as [|a l]; simpl; [reflexivity|].
  intros Hx H. apply andb_true_iff in H as [H1 H2].
  apply andb_true_iff. split; [|exact H2].
  apply Qle_bool_iff. apply Qle_bool_iff in H1. lra.
Qed.

Lemma nonincreasing_from_head (x x' : Q) (l : list Q) :
  (x <= x')%Q -> np.nonincreasing_from x l = true ->
  np.nonincreasing_from x' l = true.
Proof.
  destruct l as [|a l]; simpl; [reflexivity|].
  intros Hx H. apply andb_true_iff in H as [H1 H2].
  apply andb_true_iff. split; [|exact H2].
  apply Qle_bool_iff. apply Qle_bool_iff in H1. lra.
Qed.

Lemma monotonicity_nondecreasing (x : Q) (l : list Q) :
  np.nondecreasing_from x l = true -> np.monotonicity (x :: l) = 1.
Proof.
  intros H. unfold np.monotonicity.
  assert (Hskip : match np.skip_equal x l with
                  | [] => True
                  | next :: rest =>
                      Qle_bool x next = true /\
                      np.nondecreasing_from next rest = true
                  end).
  { induction l as [|a l IH]; simpl; [exact I|].
    simpl in H. apply andb_true_iff in H as [H1 H2].
    destruct (Qeq_bool a x) eqn:Hax; [|now split].
    apply IH. apply Qeq_bool_iff in Hax.
    apply nondecreasing_from_head with (x := a); [lra | exact H2]. }
  destruct (np.skip_equal x l) as [|next rest]; [reflexivity|].
  destruct Hskip as [-> ->]. reflexivity.
Qed.

Lemma monotonicity_nonincreasing (x : Q) (l : list Q) :
  np.nonincreasing_from x l = true -> np.monotonicity (x :: l) <> 0.
Proof.
  intros H. unfold np.monotonicity.
  assert (Hskip : match np.skip_equal x l with
                  | [] => True
                  | next :: rest =>
                      Qle_bool x next = false /\
                      np.nonincreasing_from next rest = true
                  end).
  { induction l as [|a l IH]; simpl; [exact I|].
    simpl in H. apply andb_true_iff in H as [H1 H2].
    destruct (Qeq_bool a x) eqn:Hax.
    - apply IH. apply Qeq_bool_iff in Hax.
      apply nonincreasing_from_head with (x := a); [lra | exact H2].
    - split; [|exact H2].
      apply Qeq_bool_neq in Hax. apply Qle_bool_iff in H1.
      destruct (Qle_bool x a) eqn:Hxa; [|reflexivity].
      apply Qle_bool_iff in Hxa. exfalso. apply Hax. lra. }
  destruct (np.skip_equal x l) as [|next rest]; [lia|].
  destruct Hskip as [-> ->]. lia.
Qed.

(** An arithmetic progression closed by [stop] is monotone. *)
Lemma nondecreasing_progression (g : Z -> Q) (stop : Q) (n : nat) :
  forall (a : nat) (x : Q),
    (forall k : Z, (g k <= g (k + 1)%Z)%Q) ->
    (g (Z.of_nat (a + n) - 1)%Z <= stop)%Q ->
    (x <= match n with O => stop | _ => g (Z.of_nat a) end)%Q ->
    np.nondecreasing_from x (map g (map Z.of_nat (seq a n)) ++ [stop]) = true.
Proof.
  induction n as [|n IH]; intros a x Hstep Hlast Hx; simpl.
  - apply andb_true_iff. split; [now apply Qle_bool_iff | reflexivity].
  - apply andb_true_iff. split; [now apply Qle_bool_iff|].
    apply IH; [exact Hstep | |].
    + replace (S a + n)%nat with (a + S n)%nat by lia. exact Hlast.
    + destruct n as [|n].
      * replace (Z.of_nat (a + 1) - 1) with (Z.of_nat a) in Hlast by lia.
        exact Hlast.
      * replace (Z.of_nat (S a)) with (Z.of_nat a + 1) by lia. apply Hstep.
Qed.

Lemma nonincreasing_progression (g : Z -> Q) (stop : Q) (n : nat) :
  forall (a : nat) (x : Q),
    (forall k : Z, (g (k + 1)%Z <= g k)%Q) ->
    (stop <= g (Z.of_nat (a + n) - 1)%Z)%Q ->
    (match n with O => stop | _ => g (Z.of_nat a) end <= x)%Q ->
    np.nonincreasing_from x (map g (map Z.of_nat (seq a n)) ++ [stop]) = true.
Proof.
  induction n as [|n IH]; intros a x Hstep Hlast Hx; simpl.
  - apply andb_true_iff. split; [now apply Qle_bool_iff | reflexivity].
  - apply andb_true_iff. split; [now apply Qle_bool_iff|].
    apply IH; [exact Hstep | |].
    + replace (S a + n)%nat with (a + S n)%nat by lia. exact Hlast.
    + destruct n as [|n].
      * replace (Z.of_nat (a + 1) - 1) with (Z.of_nat a) in Hlast by lia.
        exact Hlast.
      * replace (Z.of_nat (S a)) with (Z.of_nat a + 1) by lia. apply Hstep.
Qed.

(** The bin edges of [fast_glcm] for an increasing range. *)
Lemma bins_increasing (vmin vmax levels : Z) :
  0 <= levels -> vmin <= vmax + 1 ->
  exists b0 rest,
    np.linspace (inject_Z vmin) (inject_Z (vmax + 1)) (levels + 1)
      = Ok (b0 :: rest) /\
    len (b0 :: rest) = levels + 1 /\
    (b0 == inject_Z vmin)%Q /\
    Forall (fun b => inject_Z vmin <= b <= inject_Z (vmax + 1))%Q (b0 :: rest) /\
    (1 <= levels -> exists front, b0 :: rest = front ++ [inject_Z (vmax + 1)]) /\
    np.monotonicity (b0 :: rest) = 1.
Proof.
  intros Hlv Hv.
  assert (Hq : (inject_Z vmin <= inject_Z (vmax + 1))%Q) by now rewrite <- Zle_Qle.
  destruct (Z.eq_dec levels 0) as [->|Hpos].
  - destruct (linspace_single (inject_Z vmin) (inject_Z (vmax + 1)))
      as [b [Hb Hbe]].
    exists b, []. simpl. rewrite Hb.
    split; [reflexivity|]. split; [reflexivity|]. split; [exact Hbe|].
    split; [constructor; [lra | constructor]|].
    split; [lia | reflexivity].
  - destruct (linspace_edges (inject_Z vmin) (inject_Z (vmax + 1)) levels)
      as [g [Hb Hg]]; [lia|].
    set (s := ((inject_Z (vmax + 1) - inject_Z vmin) / inject_Z levels)%Q) in Hg.
    assert (Hne : ~ (inject_Z levels == 0)%Q).
    { change 0%Q with (inject_Z 0). rewrite inject_Z_injective. lia. }
    assert (Hls : (inject_Z levels * s == inject_Z (vmax + 1) - inject_Z vmin)%Q).
    { unfold s. field. exact Hne. }
    assert (Hlq : (0 < inject_Z levels)%Q).
    { change 0%Q with (inject_Z 0). rewrite <- Zlt_Qlt. lia. }
    assert (Hs : (0 <= s)%Q).
    { unfold s. apply Qle_shift_div_l; [exact Hlq | lra]. }
    assert (Hstep : forall k : Z, (g k <= g (k + 1)%Z)%Q).
    { intros k. rewrite !Hg, inject_Z_plus. simpl inject_Z at 2.
      setoid_replace ((inject_Z k + 1) * s)%Q with (inject_Z k * s + s)%Q by ring.
      lra. }
    assert (Hbound : forall k, 0 <= k < levels ->
              (inject_Z vmin <= g k <= inject_Z (vmax + 1))%Q).
    { intros k Hk. rewrite Hg.
      assert (H0 : (0 <= inject_Z k * s)%Q).
      { apply Qmult_le_0_compat; [|exact Hs].
        change 0%Q with (inject_Z 0). rewrite <- Zle_Qle. lia. }
      assert (H1 : (0 <= (inject_Z levels - inject_Z k) * s)%Q).
      { apply Qmult_le_0_compat; [|exact Hs].
        assert (inject_Z k <= inject_Z levels)%Q by (rewrite <- Zle_Qle; lia).
        lra. }
      setoid_replace ((inject_Z levels - inject_Z k) * s)%Q
        with (inject_Z levels * s - inject_Z k * s)%Q in H1 by ring.
      lra. }
    assert (Hrange : range levels = 0 :: map Z.of_nat (seq 1 (Z.to_nat levels - 1))).
    { unfold range. replace (Z.to_nat levels) with (S (Z.to_nat levels - 1)) at 1 by lia.
      reflexivity. }
    rewrite Hrange in Hb. simpl in Hb.
    eexists _, _. split; [exact Hb|]. split; [|split; [|split; [|split]]].
    + unfold len. simpl. rewrite length_app, !length_map, length_seq. simpl. lia.
    + rewrite Hg. simpl inject_Z. ring.
    + change (Forall (fun b => inject_Z vmin <= b <= inject_Z (vmax + 1))%Q
                (map g (0 :: map Z.of_nat (seq 1 (Z.to_nat levels - 1)))
                 ++ [inject_Z (vmax + 1)])).
      rewrite <- Hrange. apply Forall_app. split.
      * apply Forall_forall. intros b Hin. apply in_map_iff in Hin as [k [<- Hk]].
        apply Hbound. now apply In_range.
      * constructor; [lra | constructor].
    + intros _. exists (map g (range levels)). rewrite Hrange. reflexivity.
    + apply monotonicity_nondecreasing.
      apply nondecreasing_progression; [exact Hstep | |].
      * replace (Z.of_nat (1 + (Z.to_nat levels - 1)) - 1) with (levels - 1) by lia.
        rewrite Hg.
        setoid_replace (inject_Z (levels - 1)) with (inject_Z levels - 1)%Q
          by (unfold Zminus; rewrite inject_Z_plus; reflexivity).
        setoid_replace ((inject_Z levels - 1) * s)%Q
          with (inject_Z levels * s - s)%Q by ring.
        lra.
      * destruct (Z.to_nat levels - 1)%nat as [|m] eqn:Hm.
        -- assert (levels = 1) by lia. subst levels.
           apply (Hbound 0). lia.
        -- apply (Hstep 0).
Qed.

Lemma bins_decreasing (start stop : Q) (levels : Z) :
  1 <= levels -> (stop <= start)%Q ->
  exists bins,
    np.linspace start stop (levels + 1) = Ok bins /\
    np.monotonicity bins <> 0.
Proof.
  intros Hlv Hq.
  destruct (linspace_edges start stop levels) as [g [Hb Hg]]; [lia|].
  set (s := ((stop - start) / inject_Z levels)%Q) in Hg.
  assert (Hne : ~ (inject_Z levels == 0)%Q).
  { change 0%Q with (inject_Z 0). rewrite inject_Z_injective. lia. }
  assert (Hls : (inject_Z levels * s == stop - start)%Q).
  { unfold s. field. exact Hne. }
  assert (Hlq : (0 < inject_Z levels)%Q).
  { change 0%Q with (inject_Z 0). rewrite <- Zlt_Qlt. lia. }
  assert (Hs : (s <= 0)%Q).
  { unfold s. apply Qle_shift_div_r; [exact Hlq | lra]. }
  assert (Hstep : forall k : Z, (g (k + 1)%Z <= g k)%Q).
  { intros k. rewrite !Hg, inject_Z_plus. simpl inject_Z at 2.
    setoid_replace ((inject_Z k + 1) * s)%Q with (inject_Z k * s + s)%Q by ring.
    lra. }
  assert (Hlast : (stop <= g (levels - 1)%Z)%Q).
  { rewrite Hg.
    setoid_replace (inject_Z (levels - 1)) with (inject_Z levels - 1)%Q
      by (unfold Zminus; rewrite inject_Z_plus; reflexivity).
    setoid_replace ((inject_Z levels - 1) * s)%Q
      with (inject_Z levels * s - s)%Q by ring.
    lra. }
  assert (Hrange : range levels = 0 :: map Z.of_nat (seq 1 (Z.to_nat levels - 1))).
  { unfold range. replace (Z.to_nat levels) with (S (Z.to_nat levels - 1)) at 1 by lia.
    reflexivity. }
  rewrite Hrange in Hb. simpl in Hb.
  eexists. split; [exact Hb|].
  apply monotonicity_nonincreasing.
  apply nonincreasing_progression; [exact Hstep | |].
  - replace (Z.of_nat (1 + (Z.to_nat levels - 1)) - 1) with (levels - 1) by lia.
    exact Hlast.
  - destruct (Z.to_nat levels - 1)%nat as [|m] eqn:Hm.
    + assert (levels = 1) by lia. subst levels. exact Hlast.
    + apply (Hstep 0).
Qed.

Lemma bins_increasing_edges (vmin vmax levels : Z) :
  0 <= levels -> vmin <= vmax + 1 ->
  exists bins,
    np.linspace (inject_Z vmin) (inject_Z (vmax + 1)) (levels + 1) = Ok bins /\
    increasing_edges vmin vmax levels bins /\
    np.monotonicity bins = 1.
Proof.
  intros Hlv Hv.
  destruct (bins_increasing vmin vmax levels Hlv Hv)
    as [b0 [rest [Hb [Hlen [Hb0 [Hall [Hlast Hmono]]]]]]].
  exists (b0 :: rest). split; [exact Hb|]. split; [|exact Hmono].
  split; [exact Hlen|]. split; [now exists b0, rest|]. now split.
Qed.

(** *** Counting the edges below an intensity *)

Lemma filter_length_mono {A : Type} (f g : A -> bool) (l : list A) :
  (forall a, f a = true -> g a = true) ->
  (length (filter f l) <= length (filter g l))%nat.
Proof.
  intros Hfg. induction l as [|a l IH]; simpl; [lia|].
  destruct (f a) eqn:Hf.
  - rewrite (Hfg a Hf). simpl. lia.
  - destruct (g a); simpl; lia.
Qed.

Lemma filter_length_all {A : Type} (f : A -> bool) (l : list A) :
  Forall (fun a => f a = true) l -> length (filter f l) = length l.
Proof.
  induction 1 as [|a l Ha _ IH]; simpl; [reflexivity|].
  rewrite Ha. simpl. now rewrite IH.
Qed.

Lemma filter_length_none {A : Type} (f : A -> bool) (l : list A) :
  Forall (fun a => f a = false) l -> length (filter f l) = 0%nat.
Proof.
  induction 1 as [|a l Ha _ IH]; simpl; [reflexivity|].
  now rewrite Ha.
Qed.

Lemma level_of_mono (bins : list Q) (a b : Z) :
  a <= b -> level_of bins a <= level_of bins b.
Proof.
  intros Hab. unfold level_of, np.searchsorted_right, len.
  assert (Hq : (inject_Z a <= inject_Z b)%Q) by now rewrite <- Zle_Qle.
  pose proof (filter_length_mono
                (fun e => Qle_bool e (inject_Z a))
                (fun e => Qle_bool e (inject_Z b)) bins) as H.
  assert (length (filter (fun e => Qle_bool e (inject_Z a)) bins) <=
          length (filter (fun e => Qle_bool e (inject_Z b)) bins))%nat.
  { apply H. intros e He. apply Qle_bool_iff. apply Qle_bool_iff in He. lra. }
  lia.
Qed.

Section Levels.

Variables vmin vmax levels : Z.
Variable bins : list Q.
Hypothesis Hedges : increasing_edges vmin vmax levels bins.

Lemma level_of_lower (v : Z) : vmin <= v -> 0 <= level_of bins v.
Proof.
  intros Hv. destruct Hedges as [_ [[b0 [rest [-> Hb0]]] _]].
  unfold level_of, np.searchsorted_right, len. cbn [filter].
  assert (Hq : (inject_Z vmin <= inject_Z v)%Q) by now rewrite <- Zle_Qle.
  assert (Hle : Qle_bool b0 (inject_Z v) = true) by (apply Qle_bool_iff; lra).
  rewrite Hle. cbn [length]. lia.
Qed.

Lemma level_of_upper (v : Z) :
  1 <= levels -> v <= vmax -> level_of bins v <= levels - 1.
Proof.
  intros Hlv Hv. destruct Hedges as [Hlen [_ [_ Hlast]]].
  destruct (Hlast Hlv) as [front Hfront].
  unfold level_of, np.searchsorted_right, len in *.
  rewrite Hfront in *. rewrite filter_app. rewrite !length_app in *.
  cbn [filter length] in *.
  assert (Hq : (inject_Z v < inject_Z (vmax + 1))%Q) by (rewrite <- Zlt_Qlt; lia).
  destruct (Qle_bool (inject_Z (vmax + 1)) (inject_Z v)) eqn:Hle.
  - apply Qle_bool_iff in Hle. lra.
  - pose proof (filter_length_le (fun b => Qle_bool b (inject_Z v)) front).
    cbn [length]. lia.
Qed.

Lemma level_of_below (v : Z) : v < vmin -> level_of bins v = -1.
Proof.
  intros Hv. destruct Hedges as [_ [_ [Hall _]]].
  unfold level_of, np.searchsorted_right, len.
  rewrite filter_length_none; [reflexivity|].
  eapply Forall_impl; [|exact Hall]. intros b [Hb _]. simpl.
  assert (Hq : (inject_Z v < inject_Z vmin)%Q) by now rewrite <- Zlt_Qlt.
  destruct (Qle_bool b (inject_Z v)) eqn:Hle; [|reflexivity].
  apply Qle_bool_iff in Hle. lra.
Qed.

Lemma level_of_above (v : Z) : vmax < v -> level_of bins v = levels.
Proof.
  intros Hv. destruct Hedges as [Hlen [_ [Hall _]]].
  unfold level_of, np.searchsorted_right.
  unfold len in *. rewrite filter_length_all; [lia|].
  eapply Forall_impl; [|exact Hall]. intros b [_ Hb]. simpl.
  assert (Hq : (inject_Z (vmax + 1) <= inject_Z v)%Q) by (rewrite <- Zle_Qle; lia).
  apply Qle_bool_iff. lra.
Qed.

End Levels.

(** [digitize_levels] succeeds on an increasing range and maps every pixel
    to its level. *)
Lemma digitize_levels_increasing (img : array2) (vmin vmax levels : Z) :
  0 <= levels -> vmin <= vmax + 1 ->
  exists bins,
    increasing_edges vmin vmax levels bins /\
    digitize_levels img vmin vmax levels = Ok (map (map (level_of bins)) img).
Proof.
  intros Hlv Hv.
  destruct (bins_increasing_edges vmin vmax levels Hlv Hv)
    as [bins [Hb [Hedges Hmono]]].
  exists bins. split; [exact Hedges|].
  unfold digitize_levels. rewrite Hb. simpl.
  unfold np.digitize. rewrite Hmono. simpl.
  f_equal. rewrite map_map. apply map_ext. intros row.
  rewrite map_map. apply map_ext. intros v. reflexivity.
Qed.

(** [digitize_levels] raises nothing for any [vmin], [vmax] once
    [levels >= 0]; the level map has the shape of the image. *)
Lemma digitize_levels_total (img : array2) (vmin vmax levels : Z) :
  0 <= levels ->
  exists f, digitize_levels img vmin vmax levels = Ok (map (map f) img).
Proof.
  intros Hlv.
  destruct (Z.le_gt_cases vmin (vmax + 1)) as [Hv|Hv].
  - destruct (digitize_levels_increasing img vmin vmax levels Hlv Hv)
      as [bins [_ H]].
    now exists (level_of bins).
  - destruct (Z.eq_dec levels 0) as [->|Hpos].
    + destruct (linspace_single (inject_Z vmin) (inject_Z (vmax + 1)))
        as [b [Hb _]].
      exists (fun v => np.digitize1 1 [b] v - 1).
      unfold digitize_levels. simpl (0 + 1). rewrite Hb. simpl.
      f_equal. rewrite map_map. apply map_ext. intros row.
      rewrite map_map. reflexivity.
    + destruct (bins_decreasing (inject_Z vmin) (inject_Z (vmax + 1)) levels)
        as [bins [Hb Hmono]]; [lia | rewrite <- Zle_Qle; lia |].
      exists (fun v => np.digitize1 (np.monotonicity bins) bins v - 1).
      unfold digitize_levels. rewrite Hb. simpl.
      unfold np.digitize.
      destruct (Z.eqb_spec (np.monotonicity bins) 0) as [?|_]; [contradiction|].
      simpl. f_equal. rewrite map_map. apply map_ext. intros row.
      rewrite map_map. reflexivity.
Qed.

(** ** OpenCV: borders, the shifted map and the box filter *)

Lemma reflect101_loop_range (n : Z) (fuel : nat) :
  2 <= n ->
  forall p,
    ~ (0 <= p < n) ->
    (if p <? 0 then - p else p - (n - 1)) <= Z.of_nat fuel ->
    0 <= cv2.reflect101_loop fuel p n < n.
Proof.
  intros Hn. induction fuel as [|fuel IH]; intros p Hout Hd.
  - destruct (Z.ltb_spec p 0); lia.
  - cbn [cv2.reflect101_loop].
    destruct (Z.ltb_spec p 0) as [Hneg|Hpos].
    + destruct (Z.leb_spec 0 (- p - 1 + 1)); [|lia].
      destruct (Z.ltb_spec (- p - 1 + 1) n); simpl; [lia|].
      apply IH; [lia|].
      destruct (Z.ltb_spec (- p - 1 + 1) 0); lia.
    + destruct (Z.leb_spec 0 (n - 1 - (p - n) - 1));
        destruct (Z.ltb_spec (n - 1 - (p - n) - 1) n); simpl; try lia.
      apply IH; [lia|].
      destruct (Z.ltb_spec (n - 1 - (p - n) - 1) 0); lia.
Qed.

Lemma borderInterpolate_range (p n : Z) :
  1 <= n -> 0 <= cv2.borderInterpolate_reflect101 p n < n.
Proof.
  intros Hn. unfold cv2.borderInterpolate_reflect101.
  destruct (Z.leb_spec 0 p); destruct (Z.ltb_spec p n); simpl; try lia.
  - destruct (Z.eqb_spec n 1); [lia|].
    apply reflect101_loop_range; try lia.
    destruct (Z.ltb_spec p 0); lia.
  - destruct (Z.eqb_spec n 1); [lia|].
    apply reflect101_loop_range; try lia.
    destruct (Z.ltb_spec p 0); lia.
Qed.

Lemma clip_range (x n : Z) : 1 <= n -> 0 <= cv2.clip x 0 n < n.
Proof.
  intros Hn. unfold cv2.clip.
  destruct (Z.leb_spec 0 x); destruct (Z.ltb_spec x n); lia.
Qed.

Lemma get2_map_range (f : Z -> Z -> Z) (h w y x : Z) :
  0 <= y < h -> 0 <= x < w ->
  get2 (map (fun y => map (fun x => f y x) (range w)) (range h)) y x = f y x.
Proof.
  intros Hy Hx. unfold get2.
  rewrite (nth_map_range (fun y => map (fun x => f y x) (range w))) by exact Hy.
  now rewrite (nth_map_range (fun x => f y x)).
Qed.

Lemma is_shape2_map_range (f : Z -> Z -> Z) (h w : Z) :
  0 <= h -> 0 <= w ->
  is_shape2 h w (map (fun y => map (fun x => f y x) (range w)) (range h)).
Proof.
  intros Hh Hw. split.
  - rewrite len_map, len_range. lia.
  - apply Forall_forall. intros r Hr. apply in_map_iff in Hr as [y [<- _]].
    rewrite len_map, len_range. lia.
Qed.

(** The shifted map: nothing is raised on a non-empty array, and every
    sample is an element of the source (nearest neighbour, replicated
    border). *)
Lemma warpAffine_samples (src : array2) (M : Q * Q * Q * Q * Q * Q) (h w : Z) :
  is_shape2 h w src -> 1 <= h < 32767 -> 1 <= w < 32767 ->
  exists sy sx : Z -> Z -> Z,
    cv2.warpAffine src M (w, h)
      = Ok (map (fun y => map (fun x => get2 src (sy y x) (sx y x)) (range w))
              (range h)) /\
    forall y x, 0 <= sy y x < h /\ 0 <= sx y x < w.
Proof.
  intros Hs Hhb Hwb.
  pose proof (proj1 Hhb) as Hh. pose proof (proj1 Hwb) as Hw.
  destruct (ncols_shape h w src Hs Hh) as [Hc Hr].
  destruct M as [[[[[m0 m1] m2] m3] m4] m5].
  unfold cv2.warpAffine, cv2.SHRT_MAX. rewrite Hc, Hr.
  destruct (Z.leb_spec w 0); [lia|]. destruct (Z.leb_spec h 0); [lia|].
  destruct (Z.leb_spec 32767 w); [lia|]. destruct (Z.leb_spec 32767 h); [lia|].
  cbn [orb].
  eexists (fun y x => cv2.clip _ 0 h), (fun y x => cv2.clip _ 0 w).
  split; [reflexivity|].
  intros y x. split; apply clip_range; assumption.
Qed.

Lemma warpAffine_empty (src : array2) (M : Q * Q * Q * Q * Q * Q) (d : Z * Z) :
  ncols src <= 0 \/ nrows src <= 0 -> cv2.warpAffine src M d = Raise CvError.
Proof.
  intros H. destruct M as [[[[[m0 m1] m2] m3] m4] m5]. destruct d as [dc dr].
  unfold cv2.warpAffine.
  destruct (Z.leb_spec (ncols src) 0); [reflexivity|].
  destruct (Z.leb_spec (nrows src) 0); [reflexivity|]. lia.
Qed.

Lemma warpAffine_too_large (src : array2) (M : Q * Q * Q * Q * Q * Q)
    (d : Z * Z) :
  32767 <= ncols src \/ 32767 <= nrows src ->
  cv2.warpAffine src M d = Raise CvError.
Proof.
  intros H. destruct M as [[[[[m0 m1] m2] m3] m4] m5]. destruct d as [dc dr].
  unfold cv2.warpAffine, cv2.SHRT_MAX.
  destruct ((ncols src <=? 0) || (nrows src <=? 0)); [reflexivity|].
  destruct (Z.leb_spec 32767 (ncols src)); [reflexivity|].
  destruct (Z.leb_spec 32767 (nrows src)); [reflexivity|]. lia.
Qed.

(** *** Sums *)

Lemma Zsum_app (l1 l2 : list Z) : cv2.Zsum (l1 ++ l2) = cv2.Zsum l1 + cv2.Zsum l2.
Proof.
  unfold cv2.Zsum. induction l1 as [|a l1 IH]; simpl; [reflexivity|].
  rewrite IH. lia.
Qed.

Lemma Zsum_map_ext {A : Type} (f g : A -> Z) (l : list A) :
  (forall a, In a l -> f a = g a) ->
  cv2.Zsum (map f l) = cv2.Zsum (map g l).
Proof.
  intros H. f_equal. apply map_ext_in. exact H.
Qed.

Lemma Zsum_map_const {A : Type} (c : Z) (l : list A) :
  cv2.Zsum (map (fun _ => c) l) = c * len l.
Proof.
  unfold cv2.Zsum, len. induction l as [|a l IH]; simpl length; simpl; [lia|].
  rewrite IH. lia.
Qed.

Lemma Zsum_map_add {A : Type} (f g : A -> Z) (l : list A) :
  cv2.Zsum (map (fun a => f a + g a) l) =
  cv2.Zsum (map f l) + cv2.Zsum (map g l).
Proof.
  unfold cv2.Zsum. induction l as [|a l IH]; simpl; [reflexivity|].
  rewrite IH. lia.
Qed.

Lemma Zsum_map_bounds {A : Type} (f : A -> Z) (lo hi : Z) (l : list A) :
  (forall a, In a l -> lo <= f a <= hi) ->
  lo * len l <= cv2.Zsum (map f l) <= hi * len l.
Proof.
  unfold cv2.Zsum, len. induction l as [|a l IH]; intros H.
  - simpl. lia.
  - cbn [map fold_right length].
    assert (lo <= f a <= hi) by (apply H; now left).
    assert (lo * Z.of_nat (length l) <= fold_right Z.add 0 (map f l)
            <= hi * Z.of_nat (length l)) by (apply IH; intros; apply H; now right).
    lia.
Qed.

(** Exchanging two finite sums. *)
Lemma Zsum_swap {A B : Type} (f : A -> B -> Z) (la : list A) (lb : list B) :
  cv2.Zsum (map (fun a => cv2.Zsum (map (fun b => f a b) lb)) la) =
  cv2.Zsum (map (fun b => cv2.Zsum (map (fun a => f a b) la)) lb).
Proof.
  induction la as [|a la IH].
  - simpl. symmetry. rewrite (Zsum_map_const 0). lia.
  - cbn [map]. rewrite (Zsum_map_add (fun b => f a b)
                          (fun b => cv2.Zsum (map (fun a => f a b) la))).
    rewrite <- IH. reflexivity.
Qed.

(** A sum whose terms vanish except at one index. *)
Lemma Zsum_single (f : Z -> Z) (n k : Z) :
  0 <= k < n ->
  (forall i, 0 <= i < n -> i <> k -> f i = 0) ->
  cv2.Zsum (map f (range n)) = f k.
Proof.
  intros Hk Hz.
  assert (Hsplit : forall m : nat, (Z.of_nat m <= n) ->
            cv2.Zsum (map f (map Z.of_nat (seq 0 m))) =
            if k <? Z.of_nat m then f k else 0).
  { induction m as [|m IH]; intros Hm.
    - simpl. destruct (Z.ltb_spec k 0); [lia | reflexivity].
    - rewrite seq_S, !map_app, Zsum_app, IH by lia. simpl.
      destruct (Z.ltb_spec k (Z.of_nat m));
        destruct (Z.ltb_spec k (Z.pos (Pos.of_succ_nat m))); try lia.
      + rewrite (Hz (Z.of_nat m)); lia.
      + replace (Z.of_nat m) with k by lia. lia.
      + rewrite (Hz (Z.of_nat m)); lia. }
  unfold range. rewrite Hsplit by lia.
  destruct (Z.ltb_spec k (Z.of_nat (Z.to_nat n))); [reflexivity | lia].
Qed.

(** ** The loops over level pairs *)

Lemma foldM_app {S A : Type} (body : A -> S -> result S) (l1 l2 : list A) (s : S) :
  foldM body (l1 ++ l2) s = (s' <- foldM body l1 s ;; foldM body l2 s').
Proof.
  revert s. induction l1 as [|a l1 IH]; intros s; simpl; [reflexivity|].
  destruct (body a s) as [s1|e]; simpl; [apply IH | reflexivity].
Qed.

Lemma foldM_map {S A B : Type} (body : B -> S -> result S) (f : A -> B)
    (l : list A) (s : S) :
  foldM body (map f l) s = foldM (fun a s => body (f a) s) l s.
Proof.
  revert s. induction l as [|a l IH]; intros s; simpl; [reflexivity|].
  destruct (body (f a) s); simpl; [apply IH | reflexivity].
Qed.

(** Two nested loops are one loop over the pairs, in row-major order. *)
Lemma foldM_nested {S A B : Type} (body : A -> B -> S -> result S)
    (la : list A) (lb : list B) (s : S) :
  foldM (fun a s => foldM (fun b s => body a b s) lb s) la s =
  foldM (fun p s => body (fst p) (snd p) s) (list_prod la lb) s.
Proof.
  revert s. induction la as [|a la IH]; intros s; [reflexivity|].
  cbn [foldM list_prod]. rewrite foldM_app, foldM_map. cbn [fst snd].
  destruct (foldM (fun b s0 => body a b s0) lb s); simpl;
    [apply IH | reflexivity].
Qed.

Lemma NoDup_list_prod {A B : Type} (la : list A) (lb : list B) :
  NoDup la -> NoDup lb -> NoDup (list_prod la lb).
Proof.
  intros Ha Hb. induction Ha as [|a la Hnotin Ha IH]; [constructor|].
  cbn [list_prod]. apply NoDup_app.
  - apply Injective_map_NoDup; [|exact Hb]. intros x y Hxy. now inversion Hxy.
  - exact IH.
  - intros [a' b'] Hin1 Hin2.
    apply in_map_iff in Hin1 as [b0 [Heq _]]. inversion Heq; subst.
    apply in_prod_iff in Hin2 as [Hin2 _]. contradiction.
Qed.

(** A loop whose every iteration rewrites its own component of the state
    and leaves the others alone rewrites each component once. *)
Lemma foldM_components {S K C : Type} (get : S -> K -> C) (Inv : S -> Prop)
    (Dom : K -> Prop) (body : K -> S -> result S) (G : K -> C -> C)
    (l : list K) :
  NoDup l ->
  (forall k, In k l -> Dom k) ->
  (forall k s, In k l -> Inv s ->
     exists s', body k s = Ok s' /\ Inv s' /\
                get s' k = G k (get s k) /\
                forall k', Dom k' -> k' <> k -> get s' k' = get s k') ->
  forall s0, Inv s0 ->
  exists s', foldM body l s0 = Ok s' /\ Inv s' /\
             (forall k, In k l -> get s' k = G k (get s0 k)) /\
             (forall k, Dom k -> ~ In k l -> get s' k = get s0 k).
Proof.
  intros Hnd. induction Hnd as [|a l Hnotin Hnd IH]; intros Hdom Hbody s0 Hinv.
  - exists s0. simpl. split; [reflexivity|]. split; [exact Hinv|].
    split; [intros k [] | reflexivity].
  - destruct (Hbody a s0 (or_introl eq_refl) Hinv)
      as [s1 [Hb [Hinv1 [Hown Hothers]]]].
    destruct (IH (fun k Hk => Hdom k (or_intror Hk))
                 (fun k s Hk => Hbody k s (or_intror Hk)) s1 Hinv1)
      as [s' [Hf [Hinv' [Hin Hout]]]].
    exists s'. simpl. rewrite Hb. simpl.
    split; [exact Hf|]. split; [exact Hinv'|]. split.
    + intros k [<-|Hk].
      * rewrite Hout; [exact Hown | apply Hdom; now left | exact Hnotin].
      * rewrite Hin by exact Hk. f_equal. apply Hothers.
        -- apply Hdom. now right.
        -- intros ->. contradiction.
    + intros k Hk Hnot. rewrite Hout.
      * apply Hothers; [exact Hk|]. intros ->. apply Hnot. now left.
      * exact Hk.
      * intros Hin'. apply Hnot. now right.
Qed.

(** *** Writing one plane of the tensor *)

Lemma replace_nth_spec {A : Type} (f : A -> result A) (d : A) (l : list A) :
  forall (n : nat) (b : A),
    (n < length l)%nat -> f (nth n l d) = Ok b ->
    exists l', replace_nth n f l = Ok l' /\
               length l' = length l /\
               nth n l' d = b /\
               (forall m, m <> n -> nth m l' d = nth m l d) /\
               (forall P : A -> Prop, Forall P l -> P b -> Forall P l').
Proof.
  induction l as [|a l IH]; intros n b Hn Hf; [simpl in Hn; lia|].
  destruct n as [|n]; simpl in *.
  - rewrite Hf. simpl. exists (b :: l). repeat split.
    + intros [|m] Hm; [lia | reflexivity].
    + intros P HP Hb. inversion HP; subst. now constructor.
  - destruct (IH n b) as [l' [Hr [Hlen [Hnth [Hoth HP]]]]]; [lia | exact Hf|].
    rewrite Hr. simpl. exists (a :: l'). repeat split.
    + simpl. now rewrite Hlen.
    + exact Hnth.
    + intros [|m] Hm; [reflexivity | apply Hoth; lia].
    + intros P HPl Hb. inversion HPl; subst. constructor; [assumption|].
      now apply HP.
Qed.

Lemma slice_shape (n m h w : Z) (t : array4) (i j : Z) :
  is_shape4 n m h w t -> 0 <= i < n -> 0 <= j < m ->
  is_shape2 h w (slice t (i, j)).
Proof.
  intros [Hlen Hrows] Hi Hj. unfold slice. cbn [fst snd].
  pose proof (Forall_nth_Z _ t i [] Hrows ltac:(lia)) as [Hrow Hplanes].
  cbv beta in Hrow, Hplanes.
  apply (Forall_nth_Z _ _ j [] Hplanes). rewrite <- Hrow in Hj. exact Hj.
Qed.

Lemma update_slice_ok (n m h w : Z) (t : array4) (i j : Z)
    (f : array2 -> result array2) (plane' : array2) :
  is_shape4 n m h w t -> 0 <= i < n -> 0 <= j < m ->
  f (slice t (i, j)) = Ok plane' -> is_shape2 h w plane' ->
  exists t',
    replace_nth (Z.to_nat i) (replace_nth (Z.to_nat j) f) t = Ok t' /\
    is_shape4 n m h w t' /\
    slice t' (i, j) = plane' /\
    forall p, 0 <= fst p /\ 0 <= snd p -> p <> (i, j) -> slice t' p = slice t p.
Proof.
  intros [Hlen Hrows] Hi Hj Hf Hshape.
  pose proof (Forall_nth_Z _ t i [] Hrows ltac:(lia)) as [Hrow Hplanes].
  cbv beta in Hrow, Hplanes.
  set (row := nth (Z.to_nat i) t []) in *.
  destruct (replace_nth_spec f [] row (Z.to_nat j) plane')
    as [row' [Hr [Hlen' [Hnth [Hoth HP]]]]];
    [len_lia | exact Hf |].
  destruct (replace_nth_spec (replace_nth (Z.to_nat j) f) [] t (Z.to_nat i) row')
    as [t' [Ht [Htlen [Htnth [Htoth HtP]]]]];
    [len_lia | exact Hr |].
  exists t'. split; [exact Ht|]. split; [|split].
  - split; [len_lia|].
    apply HtP; [exact Hrows|]. split; [len_lia|].
    apply HP; assumption.
  - unfold slice. cbn [fst snd]. rewrite Htnth. exact Hnth.
  - intros [i' j'] [Hi' Hj'] Hne. unfold slice. cbn [fst snd] in *.
    destruct (Z.eq_dec i' i) as [->|Hii].
    + rewrite Htnth. apply Hoth. intros Heq.
      apply Hne. f_equal. lia.
    + rewrite Htoth by lia. reflexivity.
Qed.

(** Two nested [for] loops over the level pairs, each iteration rewriting
    the plane of its own pair. *)
Lemma for_level_pairs (n h w : Z) (body : Z -> Z -> array4 -> result array4)
    (G : Z * Z -> array2 -> array2) :
  (forall i j t, 0 <= i < n -> 0 <= j < n -> is_shape4 n n h w t ->
     exists t', body i j t = Ok t' /\ is_shape4 n n h w t' /\
                slice t' (i, j) = G (i, j) (slice t (i, j)) /\
                forall p, 0 <= fst p /\ 0 <= snd p -> p <> (i, j) ->
                          slice t' p = slice t p) ->
  forall t0, is_shape4 n n h w t0 ->
  exists t', for_range n (fun i t => for_range n (fun j t => body i j t) t) t0
               = Ok t' /\
             is_shape4 n n h w t' /\
             forall i j, 0 <= i < n -> 0 <= j < n ->
                         slice t' (i, j) = G (i, j) (slice t0 (i, j)).
Proof.
  intros Hbody t0 Ht0. unfold for_range. rewrite foldM_nested.
  destruct (foldM_components slice (is_shape4 n n h w)
              (fun p => 0 <= fst p /\ 0 <= snd p)
              (fun p t => body (fst p) (snd p) t) G
              (list_prod (range n) (range n)))
    with (s0 := t0) as [t' [Hf [Hinv [Hin _]]]].
  - apply NoDup_list_prod; apply NoDup_range.
  - intros [i j] Hp. apply in_prod_iff in Hp as [Hi Hj].
    apply In_range in Hi, Hj. cbn [fst snd]. lia.
  - intros [i j] t Hp Hinv. apply in_prod_iff in Hp as [Hi Hj].
    apply In_range in Hi, Hj. cbn [fst snd]. now apply Hbody.
  - exact Ht0.
  - exists t'. split; [exact Hf|]. split; [exact Hinv|].
    intros i j Hi Hj. apply Hin. apply in_prod_iff.
    split; apply In_range; assumption.
Qed.

(** *** Shapes and elements of the intermediate arrays *)

Lemma shape2_lengths {A : Type} (h w : Z) (a : list (list A)) (y : Z) :
  is_shape2 h w a -> 0 <= y < h ->
  (Z.to_nat y < length a)%nat /\
  length (nth (Z.to_nat y) a []) = Z.to_nat w.
Proof.
  intros Hs Hy. pose proof (len_row h w a y Hs Hy) as Hr.
  destruct Hs as [Hl _]. unfold len in *. lia.
Qed.

Lemma is_shape2_zipWith {A B C : Type} (f : A -> B -> C) (h w : Z)
    (a : list (list A)) (b : list (list B)) :
  is_shape2 h w a -> is_shape2 h w b ->
  is_shape2 h w (zipWith (zipWith f) a b).
Proof.
  intros [Hla Ha] [Hlb Hb]. split.
  - unfold len in *. rewrite length_zipWith. lia.
  - clear Hla Hlb. revert b Hb.
    induction Ha as [|ra a Hra Ha IH]; intros b Hb; [constructor|].
    destruct Hb as [|rb b Hrb Hb]; [constructor|].
    cbn [zipWith]. constructor; [|now apply IH].
    unfold len in *. rewrite length_zipWith. lia.
Qed.

Lemma nth2_zipWith {A B C : Type} (f : A -> B -> C) (h w : Z)
    (a : list (list A)) (b : list (list B)) (y x : Z) (da : A) (db : B) (dc : C) :
  is_shape2 h w a -> is_shape2 h w b -> 0 <= y < h -> 0 <= x < w ->
  nth (Z.to_nat x) (nth (Z.to_nat y) (zipWith (zipWith f) a b) []) dc =
  f (nth (Z.to_nat x) (nth (Z.to_nat y) a []) da)
    (nth (Z.to_nat x) (nth (Z.to_nat y) b []) db).
Proof.
  intros Ha Hb Hy Hx.
  destruct (shape2_lengths h w a y Ha Hy) as [Hya Hxa].
  destruct (shape2_lengths h w b y Hb Hy) as [Hyb Hxb].
  rewrite (nth_zipWith (zipWith f) a b (Z.to_nat y) [] [] []) by assumption.
  apply nth_zipWith; lia.
Qed.

Lemma is_shape2_repeat {A : Type} (v : A) (h w : Z) :
  0 <= h -> 0 <= w ->
  is_shape2 h w (repeat (repeat v (Z.to_nat w)) (Z.to_nat h)).
Proof.
  intros Hh Hw. split.
  - rewrite len_repeat. lia.
  - apply Forall_forall. intros r Hr. apply repeat_spec in Hr. subst r.
    rewrite len_repeat. lia.
Qed.

Lemma get2_repeat (v : Z) (h w y x : Z) :
  0 <= y < h -> 0 <= x < w ->
  get2 (repeat (repeat v (Z.to_nat w)) (Z.to_nat h)) y x = v.
Proof.
  intros Hy Hx. unfold get2.
  rewrite (nth_repeat_lt (repeat v (Z.to_nat w))) by lia.
  apply nth_repeat_lt. lia.
Qed.

Lemma is_shape2_map_map {A B : Type} (f : A -> B) (h w : Z) (a : list (list A)) :
  is_shape2 h w a -> is_shape2 h w (map (map f) a).
Proof.
  intros [Hl Hr]. split; [now rewrite len_map|].
  apply Forall_map. eapply Forall_impl; [|exact Hr].
  intros r Hlen. cbv beta. now rewrite len_map.
Qed.

Lemma get2_map_map (f : Z -> Z) (h w : Z) (a : array2) (y x : Z) :
  is_shape2 h w a -> 0 <= y < h -> 0 <= x < w ->
  get2 (map (map f) a) y x = f (get2 a y x).
Proof.
  intros Ha Hy Hx. destruct (shape2_lengths h w a y Ha Hy) as [Hya Hxa].
  unfold get2.
  rewrite (nth_indep (map (map f) a) [] (map f [])) by (rewrite length_map; lia).
  rewrite map_nth.
  rewrite (nth_indep (map f _) 0 (f 0)) by (rewrite length_map; lia).
  apply map_nth.
Qed.

Lemma zeros4_shape (n h w : Z) :
  0 <= n -> 0 <= h -> 0 <= w ->
  exists t, np.zeros4 n n h w = Ok t /\ is_shape4 n n h w t /\
            forall i j, 0 <= i < n -> 0 <= j < n ->
              slice t (i, j) = repeat (repeat 0 (Z.to_nat w)) (Z.to_nat h).
Proof.
  intros Hn Hh Hw. unfold np.zeros4.
  destruct (Z.ltb_spec n 0); [lia|]. destruct (Z.ltb_spec h 0); [lia|].
  destruct (Z.ltb_spec w 0); [lia|]. cbn [orb].
  eexists. split; [reflexivity|]. split.
  - split; [rewrite len_repeat; lia|].
    apply Forall_forall. intros row Hrow. apply repeat_spec in Hrow. subst row.
    split; [rewrite len_repeat; lia|].
    apply Forall_forall. intros p Hp. apply repeat_spec in Hp. subst p.
    now apply is_shape2_repeat.
  - intros i j Hi Hj. unfold slice. cbn [fst snd].
    rewrite (nth_repeat_lt (repeat _ (Z.to_nat n))) by lia.
    apply nth_repeat_lt. lia.
Qed.

Lemma get2_paint (gl1 gl2 plane : array2) (h w i j y x : Z) :
  is_shape2 h w gl1 -> is_shape2 h w gl2 -> is_shape2 h w plane ->
  0 <= y < h -> 0 <= x < w ->
  get2 (paint gl1 gl2 (i, j) plane) y x =
  if (get2 gl1 y x =? i) && (get2 gl2 y x =? j) then 1 else get2 plane y x.
Proof.
  intros H1 H2 Hp Hy Hx. unfold paint, get2, np.eq_and_eq. cbn [fst snd].
  rewrite (nth2_zipWith _ h w plane _ y x 0 false 0); try assumption.
  - rewrite (nth2_zipWith _ h w gl1 gl2 y x 0 0 false); try assumption.
    reflexivity.
  - now apply is_shape2_zipWith.
Qed.

Lemma paint_shape (gl1 gl2 plane : array2) (h w : Z) (p : Z * Z) :
  is_shape2 h w gl1 -> is_shape2 h w gl2 -> is_shape2 h w plane ->
  is_shape2 h w (paint gl1 gl2 p plane).
Proof.
  intros H1 H2 Hp. unfold paint, np.eq_and_eq.
  apply is_shape2_zipWith; [exact Hp|]. now apply is_shape2_zipWith.
Qed.

Lemma getitem_slice (n m h w : Z) (t : array4) (i j : Z) :
  is_shape4 n m h w t -> 0 <= i < n -> 0 <= j < m ->
  np.getitem t i j = Ok (slice t (i, j)).
Proof.
  intros [Hlen Hrows] Hi Hj. unfold np.getitem, slice. cbn [fst snd].
  pose proof (Forall_nth_Z _ t i [] Hrows ltac:(lia)) as [Hrow _].
  cbv beta in Hrow.
  rewrite (nth_error_nth' t []) by len_lia.
  rewrite (nth_error_nth' (nth (Z.to_nat i) t []) []) by len_lia.
  reflexivity.
Qed.

Lemma ones2_shape (ks : Z) :
  1 <= ks ->
  np.ones2 ks ks = Ok (repeat (repeat 1 (Z.to_nat ks)) (Z.to_nat ks)).
Proof.
  intros Hk. unfold np.ones2. destruct (Z.ltb_spec ks 0); [lia | reflexivity].
Qed.

Lemma filter2D_box (kernel src : array2) (h w ks : Z) (p : Z * Z) :
  is_shape2 h w src -> 1 <= h -> 1 <= w ->
  is_shape2 ks ks kernel -> 1 <= ks ->
  cv2.filter2D src kernel = Ok (box_filter kernel p src) /\
  is_shape2 h w (box_filter kernel p src).
Proof.
  intros Hs Hh Hw Hk Hks.
  destruct (ncols_shape h w src Hs Hh) as [Hc Hr].
  destruct (ncols_shape ks ks kernel Hk Hks) as [Hkc Hkr].
  unfold cv2.filter2D, box_filter. rewrite Hc, Hr, Hkc, Hkr.
  destruct (Z.leb_spec w 0); [lia|]. destruct (Z.leb_spec h 0); [lia|].
  destruct (Z.leb_spec ks 0); [lia|]. cbn [orb].
  split; [reflexivity|]. apply is_shape2_map_range; lia.
Qed.

Lemma get2_ones (ks ky kx : Z) :
  0 <= ky < ks -> 0 <= kx < ks ->
  get2 (repeat (repeat 1 (Z.to_nat ks)) (Z.to_nat ks)) ky kx = 1.
Proof. intros. now apply get2_repeat. Qed.

(** The box filter of an indicator plane counts the window. *)
Lemma box_filter_paint (gl1 gl2 zeros : array2) (h w ks i j y x : Z) :
  is_shape2 h w gl1 -> is_shape2 h w gl2 -> 1 <= h -> 1 <= w -> 1 <= ks ->
  zeros = repeat (repeat 0 (Z.to_nat w)) (Z.to_nat h) ->
  0 <= y < h -> 0 <= x < w ->
  get2 (box_filter (repeat (repeat 1 (Z.to_nat ks)) (Z.to_nat ks)) (i, j)
          (paint gl1 gl2 (i, j) zeros)) y x =
  cv2.saturate_u8 (window_count gl1 gl2 h w ks i j y x).
Proof.
  intros H1 H2 Hh Hw Hks Hz Hy Hx.
  assert (Hzs : is_shape2 h w zeros) by (subst zeros; apply is_shape2_repeat; lia).
  pose proof (paint_shape gl1 gl2 zeros h w (i, j) H1 H2 Hzs) as Hp.
  destruct (ncols_shape h w _ Hp Hh) as [Hc Hr].
  assert (Hk : is_shape2 ks ks (repeat (repeat 1 (Z.to_nat ks)) (Z.to_nat ks)))
    by (apply is_shape2_repeat; lia).
  destruct (ncols_shape ks ks _ Hk Hks) as [Hkc Hkr].
  unfold box_filter. rewrite Hc, Hr.
  rewrite (get2_map_range
             (fun y x => cv2.saturate_u8 (cv2.filter2D_at _ _ y x))) by assumption.
  f_equal. unfold cv2.filter2D_at, window_count. rewrite Hc, Hr, Hkc, Hkr.
  apply Zsum_map_ext. intros ky Hky. apply In_range in Hky.
  apply Zsum_map_ext. intros kx Hkx. apply In_range in Hkx.
  rewrite get2_ones by assumption.
  pose proof (borderInterpolate_range (y + ky - ks / 2) h Hh) as Hby.
  pose proof (borderInterpolate_range (x + kx - ks / 2) w Hw) as Hbx.
  rewrite (get2_paint gl1 gl2 zeros h w) by assumption.
  unfold indicator. subst zeros. rewrite get2_repeat by assumption.
  destruct (_ && _); lia.
Qed.

(** *** The tensor returned by [fast_glcm] *)

(** Up to the creation of the kernel, [fast_glcm] raises nothing on a
    non-empty 2-D image with [levels >= 0]: the accumulator then holds the
    indicator planes of the level pairs [(gl1, gl2)], [gl2] sampling [gl1]
    inside the image, and what remains is the second pair of loops. *)
Lemma fast_glcm_tail (img gl1 : array2) (vmin vmax levels ks h w : Z)
    (dx dy : Q) :
  is_shape2 h w img -> 1 <= h < 32767 -> 1 <= w < 32767 -> 0 <= levels ->
  digitize_levels img vmin vmax levels = Ok gl1 -> is_shape2 h w gl1 ->
  exists (sy sx : Z -> Z -> Z) (t1 : array4),
    (forall y x, 0 <= sy y x < h /\ 0 <= sx y x < w) /\
    cv2.warpAffine gl1 (1%Q, 0%Q, (- dx)%Q, 0%Q, 1%Q, (- dy)%Q) (w, h)
      = Ok (map (fun y => map (fun x => get2 gl1 (sy y x) (sx y x)) (range w))
              (range h)) /\
    is_shape4 levels levels h w t1 /\
    (forall i j, 0 <= i < levels -> 0 <= j < levels ->
       slice t1 (i, j) =
       paint gl1
         (map (fun y => map (fun x => get2 gl1 (sy y x) (sx y x)) (range w))
            (range h))
         (i, j) (repeat (repeat 0 (Z.to_nat w)) (Z.to_nat h))) /\
    fast_glcm (np.Arr2 img) vmin vmax levels ks dx dy =
    (kernel <- np.ones2 ks ks ;;
     glcm <- for_range levels (fun i glcm =>
               for_range levels (fun j glcm =>
                 src <- np.getitem glcm i j ;;
                 dst <- cv2.filter2D src kernel ;;
                 np.setitem glcm i j dst) glcm) t1 ;;
     Ok glcm).
Proof.
  intros Himg Hhb Hwb Hlv Hdig Hgl1.
  pose proof (proj1 Hhb) as Hh. pose proof (proj1 Hwb) as Hw.
  destruct (ncols_shape h w img Himg Hh) as [Hc Hr].
  destruct (warpAffine_samples gl1 (1%Q, 0%Q, (- dx)%Q, 0%Q, 1%Q, (- dy)%Q)
              h w Hgl1 Hhb Hwb) as [sy [sx [Hwarp Hsamples]]].
  set (gl2 := map (fun y => map (fun x => get2 gl1 (sy y x) (sx y x)) (range w))
                (range h)) in *.
  assert (Hgl2 : is_shape2 h w gl2) by (apply is_shape2_map_range; lia).
  destruct (zeros4_shape levels h w) as [t0 [Hzeros [Ht0 Hslice0]]]; try lia.
  destruct (for_level_pairs levels h w
              (fun i j glcm =>
                 np.setitem_mask glcm i j (np.eq_and_eq gl1 i gl2 j) 1)
              (paint gl1 gl2)) with (t0 := t0)
    as [t1 [Hloop1 [Ht1 Hslice1]]].
  { intros i j t Hi Hj Ht.
    apply (update_slice_ok levels levels h w t i j); try assumption.
    - reflexivity.
    - apply paint_shape; try assumption.
      now apply (slice_shape levels levels h w). }
  { exact Ht0. }
  exists sy, sx, t1. split; [exact Hsamples|]. split; [exact Hwarp|].
  split; [exact Ht1|]. split.
  - intros i j Hi Hj. now rewrite Hslice1, Hslice0.
  - unfold fast_glcm. cbn [np.shape unpack2 as_array2]. rewrite Hc, Hr.
    cbn [bind]. rewrite Hdig. cbn [bind]. rewrite Hwarp. cbn [bind].
    rewrite Hzeros. cbn [bind]. fold gl2. rewrite Hloop1. cbn [bind].
    reflexivity.
Qed.

(** On a non-empty 2-D image with [levels >= 0] and [kernel_size >= 1] the
    call returns the tensor of saturated window counts of the level pairs
    [(gl1, gl2)]. *)
Lemma fast_glcm_tensor (img gl1 : array2) (vmin vmax levels ks h w : Z)
    (dx dy : Q) :
  is_shape2 h w img -> 1 <= h < 32767 -> 1 <= w < 32767 ->
  0 <= levels -> 1 <= ks ->
  digitize_levels img vmin vmax levels = Ok gl1 -> is_shape2 h w gl1 ->
  exists (sy sx : Z -> Z -> Z) (t : array4),
    (forall y x, 0 <= sy y x < h /\ 0 <= sx y x < w) /\
    cv2.warpAffine gl1 (1%Q, 0%Q, (- dx)%Q, 0%Q, 1%Q, (- dy)%Q) (w, h)
      = Ok (map (fun y => map (fun x => get2 gl1 (sy y x) (sx y x)) (range w))
              (range h)) /\
    fast_glcm (np.Arr2 img) vmin vmax levels ks dx dy = Ok t /\
    is_shape4 levels levels h w t /\
    forall i j y x,
      0 <= i < levels -> 0 <= j < levels -> 0 <= y < h -> 0 <= x < w ->
      get4 t i j y x =
      cv2.saturate_u8
        (window_count gl1
           (map (fun y => map (fun x => get2 gl1 (sy y x) (sx y x)) (range w))
              (range h))
           h w ks i j y x).
Proof.
  intros Himg Hhb Hwb Hlv Hks Hdig Hgl1.
  pose proof (proj1 Hhb) as Hh. pose proof (proj1 Hwb) as Hw.
  destruct (fast_glcm_tail img gl1 vmin vmax levels ks h w dx dy)
    as [sy [sx [t1 [Hsamples [Hwarp [Ht1 [Hslice1 Htail]]]]]]]; try assumption.
  set (gl2 := map (fun y => map (fun x => get2 gl1 (sy y x) (sx y x)) (range w))
                (range h)) in *.
  assert (Hgl2 : is_shape2 h w gl2) by (apply is_shape2_map_range; lia).
  set (kernel := repeat (repeat 1 (Z.to_nat ks)) (Z.to_nat ks)).
  assert (Hk : is_shape2 ks ks kernel) by (apply is_shape2_repeat; lia).
  destruct (for_level_pairs levels h w
              (fun i j glcm =>
                 src <- np.getitem glcm i j ;;
                 dst <- cv2.filter2D src kernel ;;
                 np.setitem glcm i j dst)
              (box_filter kernel)) with (t0 := t1)
    as [t2 [Hloop2 [Ht2 Hslice2]]].
  { intros i j t Hi Hj Ht.
    rewrite (getitem_slice levels levels h w t i j Ht Hi Hj). cbn [bind].
    pose proof (slice_shape levels levels h w t i j Ht Hi Hj) as Hsl.
    destruct (filter2D_box kernel (slice t (i, j)) h w ks (i, j)
                Hsl Hh Hw Hk Hks) as [Hf Hfs].
    rewrite Hf. cbn [bind].
    apply (update_slice_ok levels levels h w t i j); try assumption.
    reflexivity. }
  { exact Ht1. }
  exists sy, sx, t2. split; [exact Hsamples|]. split; [exact Hwarp|].
  split; [|split; [exact Ht2|]].
  - rewrite Htail, (ones2_shape ks Hks). cbn [bind]. fold kernel.
    rewrite Hloop2. reflexivity.
  - intros i j y x Hi Hj Hy Hx. unfold get4.
    change (nth (Z.to_nat j) (nth (Z.to_nat i) t2 []) []) with (slice t2 (i, j)).
    rewrite Hslice2, Hslice1 by assumption.
    now apply box_filter_paint.
Qed.

(** ** Quantisation claims *)

(** C7.  Quantisation is monotone.  For an increasing range
    ([vmin <= vmax + 1], which every valid [vmin < vmax] satisfies) and
    [levels >= 0], the level map exists and, for any two pixels, the one
    with the smaller intensity gets the smaller or equal level. *)
Theorem quantization_monotone (img : array2) (vmin vmax levels h w : Z) :
  is_shape2 h w img -> 0 <= levels -> vmin <= vmax + 1 ->
  exists gl1,
    digitize_levels img vmin vmax levels = Ok gl1 /\
    forall y x y' x',
      0 <= y < h -> 0 <= x < w -> 0 <= y' < h -> 0 <= x' < w ->
      get2 img y x < get2 img y' x' ->
      get2 gl1 y x <= get2 gl1 y' x'.
Proof.
  intros Himg Hlv Hv.
  destruct (digitize_levels_increasing img vmin vmax levels Hlv Hv)
    as [bins [_ Hdig]].
  eexists. split; [exact Hdig|].
  intros y x y' x' Hy Hx Hy' Hx' Hlt.
  rewrite !(get2_map_map _ h w) by assumption.
  apply level_of_mono. lia.
Qed.

Lemma quantization_monotone_witness :
  exists gl1,
    digitize_levels [[12; 200]] 0 255 8 = Ok gl1 /\
    forall y x y' x',
      0 <= y < 1 -> 0 <= x < 2 -> 0 <= y' < 1 -> 0 <= x' < 2 ->
      get2 [[12; 200]] y x < get2 [[12; 200]] y' x' ->
      get2 gl1 y x <= get2 gl1 y' x'.
Proof.
  apply (quantization_monotone [[12; 200]] 0 255 8 1 2).
  - split; [reflexivity | repeat constructor].
  - lia.
  - lia.
Defined.

(** C2, as stated, fails: with [vmin = 50], [vmax = 254] and 8 levels the
    intensity 10 gets level -1 and the intensity 255 gets level 8, neither
    of which lies in [0, 7]. *)
Lemma quantization_not_clamped :
  exists gl1,
    digitize_levels [[10; 255]] 50 254 8 = Ok gl1 /\
    get2 gl1 0 0 = -1 /\ get2 gl1 0 1 = 8 /\
    ~ (0 <= get2 gl1 0 0 <= 8 - 1) /\ ~ (0 <= get2 gl1 0 1 <= 8 - 1).
Proof.
  exists [[-1; 8]]. split; [vm_compute; reflexivity|].
  unfold get2. simpl. lia.
Qed.

(** The level map of valid parameters: inside [vmin, vmax] a level in
    [0, levels-1], below [vmin] the level -1, above [vmax] the level
    [levels]. *)
Lemma digitize_levels_valid (img : array2) (vmin vmax levels h w : Z) :
  is_shape2 h w img -> 1 <= levels -> vmin < vmax ->
  exists gl1,
    digitize_levels img vmin vmax levels = Ok gl1 /\
    is_shape2 h w gl1 /\
    forall y x,
      0 <= y < h -> 0 <= x < w ->
      (vmin <= get2 img y x <= vmax -> 0 <= get2 gl1 y x <= levels - 1) /\
      (get2 img y x < vmin -> get2 gl1 y x = -1) /\
      (vmax < get2 img y x -> get2 gl1 y x = levels).
Proof.
  intros Himg Hlv Hv.
  destruct (digitize_levels_increasing img vmin vmax levels) as [bins [He Hdig]];
    try lia.
  eexists. split; [exact Hdig|]. split; [now apply is_shape2_map_map|].
  intros y x Hy Hx. rewrite (get2_map_map _ h w) by assumption.
  split; [|split].
  - intros [Hlo Hhi]. split.
    + now apply (level_of_lower vmin vmax levels).
    + now apply (level_of_upper vmin vmax levels).
  - now apply (level_of_below vmin vmax levels).
  - now apply (level_of_above vmin vmax levels).
Qed.

(** C2, amended.  For valid parameters no error is raised; a pixel whose
    intensity lies in [vmin, vmax] gets a level in [0, levels-1], a pixel
    below [vmin] gets level -1 and a pixel above [vmax] gets level
    [levels]. *)
Theorem quantization_levels (img : array2) (vmin vmax levels h w : Z) :
  is_shape2 h w img -> 1 <= levels -> vmin < vmax ->
  exists gl1,
    digitize_levels img vmin vmax levels = Ok gl1 /\
    is_shape2 h w gl1 /\
    forall y x,
      0 <= y < h -> 0 <= x < w ->
      (vmin <= get2 img y x <= vmax -> 0 <= get2 gl1 y x <= levels - 1) /\
      (get2 img y x < vmin -> get2 gl1 y x = -1) /\
      (vmax < get2 img y x -> get2 gl1 y x = levels).
Proof. exact (digitize_levels_valid img vmin vmax levels h w). Qed.

Lemma quantization_levels_witness :
  exists gl1,
    digitize_levels [[10; 100; 255]] 50 254 8 = Ok gl1 /\
    is_shape2 1 3 gl1 /\
    forall y x,
      0 <= y < 1 -> 0 <= x < 3 ->
      (50 <= get2 [[10; 100; 255]] y x <= 254 -> 0 <= get2 gl1 y x <= 8 - 1) /\
      (get2 [[10; 100; 255]] y x < 50 -> get2 gl1 y x = -1) /\
      (254 < get2 [[10; 100; 255]] y x -> get2 gl1 y x = 8).
Proof.
  apply (quantization_levels [[10; 100; 255]] 50 254 8 1 3).
  - split; [reflexivity | repeat constructor].
  - lia.
  - lia.
Defined.

(** ** The co-occurrence tensor *)

Lemma indicator_bounds (gl1 gl2 : array2) (i j y x : Z) :
  0 <= indicator gl1 gl2 i j y x <= 1.
Proof. unfold indicator. destruct (_ && _); lia. Qed.

Lemma window_count_bounds (gl1 gl2 : array2) (h w ks i j y x : Z) :
  0 <= ks -> 0 <= window_count gl1 gl2 h w ks i j y x <= ks * ks.
Proof.
  intros Hks. unfold window_count.
  pose proof (len_range ks) as Hlen.
  match goal with
  | |- _ <= cv2.Zsum (map ?f (range ks)) <= _ =>
      pose proof (Zsum_map_bounds f 0 ks (range ks)) as Hb
  end.
  rewrite Hlen in Hb. replace (Z.max 0 ks) with ks in Hb by lia.
  apply Hb. intros ky _.
  match goal with
  | |- _ <= cv2.Zsum (map ?f (range ks)) <= _ =>
      pose proof (Zsum_map_bounds f 0 1 (range ks)) as Hi
  end.
  rewrite Hlen in Hi. replace (Z.max 0 ks) with ks in Hi by lia.
  assert (Hgoal : 0 * ks <= cv2.Zsum
            (map (fun kx => indicator gl1 gl2 i j
                    (cv2.borderInterpolate_reflect101 (y + ky - ks / 2) h)
                    (cv2.borderInterpolate_reflect101 (x + kx - ks / 2) w))
               (range ks)) <= 1 * ks).
  { apply Hi. intros kx _. apply indicator_bounds. }
  lia.
Qed.

Lemma saturate_u8_small (v : Z) : 0 <= v <= 255 -> cv2.saturate_u8 v = v.
Proof. unfold cv2.saturate_u8. lia. Qed.

Lemma saturate_u8_large (v : Z) : 255 <= v -> cv2.saturate_u8 v = 255.
Proof. unfold cv2.saturate_u8. lia. Qed.

(** Every position whose two levels are valid is counted for exactly one
    level pair. *)
Lemma indicator_total (gl1 gl2 : array2) (levels y x : Z) :
  0 <= get2 gl1 y x < levels -> 0 <= get2 gl2 y x < levels ->
  cv2.Zsum (map (fun i =>
    cv2.Zsum (map (fun j => indicator gl1 gl2 i j y x) (range levels)))
    (range levels)) = 1.
Proof.
  intros H1 H2.
  rewrite (Zsum_single _ levels (get2 gl1 y x)); [|exact H1|].
  - rewrite (Zsum_single _ levels (get2 gl2 y x)); [|exact H2|].
    + unfold indicator. now rewrite !Z.eqb_refl.
    + intros j _ Hne. unfold indicator.
      destruct (Z.eqb_spec (get2 gl2 y x) j); [congruence|].
      now rewrite andb_false_r.
  - intros i _ Hne.
    rewrite (Zsum_map_ext _ (fun _ => 0)); [rewrite Zsum_map_const; lia|].
    intros j _. unfold indicator.
    destruct (Z.eqb_spec (get2 gl1 y x) i); [congruence | reflexivity].
Qed.

(** A position whose first level is not a valid level is counted for no
    level pair. *)
Lemma indicator_outside (gl1 gl2 : array2) (levels i j y x : Z) :
  0 <= i < levels -> ~ (0 <= get2 gl1 y x < levels) ->
  indicator gl1 gl2 i j y x = 0.
Proof.
  intros Hi Hout. unfold indicator.
  destruct (Z.eqb_spec (get2 gl1 y x) i); [lia | reflexivity].
Qed.

(** The four sums of the pixel total, reordered: window positions outside,
    level pairs inside. *)
Lemma level_window_swap (f : Z -> Z -> Z -> Z -> Z) (levels ks : Z) :
  cv2.Zsum (map (fun i => cv2.Zsum (map (fun j =>
    cv2.Zsum (map (fun ky => cv2.Zsum (map (fun kx => f i j ky kx)
      (range ks))) (range ks))) (range levels))) (range levels)) =
  cv2.Zsum (map (fun ky => cv2.Zsum (map (fun kx =>
    cv2.Zsum (map (fun i => cv2.Zsum (map (fun j => f i j ky kx)
      (range levels))) (range levels))) (range ks))) (range ks)).
Proof.
  transitivity
    (cv2.Zsum (map (fun i => cv2.Zsum (map (fun ky =>
       cv2.Zsum (map (fun j => cv2.Zsum (map (fun kx => f i j ky kx)
         (range ks))) (range levels))) (range ks))) (range levels))).
  { apply Zsum_map_ext. intros i _.
    apply (Zsum_swap (fun j ky => cv2.Zsum (map (fun kx => f i j ky kx) (range ks)))). }
  rewrite (Zsum_swap (fun i ky =>
             cv2.Zsum (map (fun j => cv2.Zsum (map (fun kx => f i j ky kx)
               (range ks))) (range levels)))).
  apply Zsum_map_ext. intros ky _.
  transitivity
    (cv2.Zsum (map (fun i => cv2.Zsum (map (fun kx =>
       cv2.Zsum (map (fun j => f i j ky kx) (range levels)))
       (range ks))) (range levels))).
  { apply Zsum_map_ext. intros i _.
    apply (Zsum_swap (fun j kx => f i j ky kx)). }
  apply (Zsum_swap (fun i kx =>
           cv2.Zsum (map (fun j => f i j ky kx) (range levels)))).
Qed.

(** C1, as stated, fails: a 1x1 image whose only pixel (10) lies below
    [vmin = 50] has no level pair at all, and the tensor sums to 0, not to
    [kernel_size^2 = 1]. *)
Lemma pixel_total_below_vmin :
  exists t,
    fast_glcm (np.Arr2 [[10]]) 50 255 8 1 1 0 = Ok t /\
    pixel_total t 8 0 0 = 0 /\ pixel_total t 8 0 0 <> 1 * 1.
Proof.
  eexists. split; [vm_compute; reflexivity|].
  split; [vm_compute; reflexivity | vm_compute; discriminate].
Qed.

(** C1, amended.  For a 2-D image with between 1 and 32766 rows and
    columns whose pixels all lie in [vmin, vmax], valid parameters and
    [kernel_size <= 15], the tensor sums to [kernel_size^2] at every pixel,
    border pixels included. *)
Theorem pixel_total_kernel_area (img : array2)
    (vmin vmax levels ks h w : Z) (dx dy : Q) :
  is_shape2 h w img -> 1 <= h < 32767 -> 1 <= w < 32767 ->
  vmin < vmax -> 1 <= levels -> 1 <= ks <= 15 ->
  pixels_within img h w vmin vmax ->
  exists t,
    fast_glcm (np.Arr2 img) vmin vmax levels ks dx dy = Ok t /\
    forall y x, 0 <= y < h -> 0 <= x < w ->
      pixel_total t levels y x = ks * ks.
Proof.
  intros Himg Hhb Hwb Hv Hlv Hks Hpix.
  pose proof (proj1 Hhb) as Hh. pose proof (proj1 Hwb) as Hw.
  destruct (digitize_levels_valid img vmin vmax levels h w Himg Hlv Hv)
    as [gl1 [Hdig [Hgl1 Hlevel]]].
  destruct (fast_glcm_tensor img gl1 vmin vmax levels ks h w dx dy)
    as [sy [sx [t [Hsamples [_ [Hcall [Ht Hget]]]]]]]; try assumption; try lia.
  set (gl2 := map (fun y => map (fun x => get2 gl1 (sy y x) (sx y x)) (range w))
                (range h)) in *.
  assert (Hin1 : forall y x, 0 <= y < h -> 0 <= x < w ->
                   0 <= get2 gl1 y x < levels).
  { intros y x Hy Hx. destruct (Hlevel y x Hy Hx) as [Hin _].
    specialize (Hin (Hpix y x Hy Hx)). lia. }
  assert (Hin2 : forall y x, 0 <= y < h -> 0 <= x < w ->
                   0 <= get2 gl2 y x < levels).
  { intros y x Hy Hx. unfold gl2.
    rewrite (get2_map_range (fun y x => get2 gl1 (sy y x) (sx y x))) by assumption.
    destruct (Hsamples y x). now apply Hin1. }
  exists t. split; [exact Hcall|].
  intros y x Hy Hx. unfold pixel_total.
  transitivity
    (cv2.Zsum (map (fun i => cv2.Zsum (map (fun j =>
       window_count gl1 gl2 h w ks i j y x) (range levels))) (range levels))).
  { apply Zsum_map_ext. intros i Hi. apply In_range in Hi.
    apply Zsum_map_ext. intros j Hj. apply In_range in Hj.
    rewrite Hget by assumption.
    apply saturate_u8_small.
    pose proof (window_count_bounds gl1 gl2 h w ks i j y x ltac:(lia)). nia. }
  unfold window_count.
  rewrite (level_window_swap
             (fun i j ky kx => indicator gl1 gl2 i j
                (cv2.borderInterpolate_reflect101 (y + ky - ks / 2) h)
                (cv2.borderInterpolate_reflect101 (x + kx - ks / 2) w))).
  rewrite (Zsum_map_ext _ (fun _ => ks)).
  { rewrite Zsum_map_const, len_range. lia. }
  intros ky _.
  rewrite (Zsum_map_ext _ (fun _ => 1)).
  { rewrite Zsum_map_const, len_range. lia. }
  intros kx _.
  pose proof (borderInterpolate_range (y + ky - ks / 2) h Hh).
  pose proof (borderInterpolate_range (x + kx - ks / 2) w Hw).
  apply indicator_total; [apply Hin1 | apply Hin2]; assumption.
Qed.

Lemma pixel_total_kernel_area_witness :
  exists t,
    fast_glcm (np.Arr2 [[0; 90]; [200; 255]]) 0 255 8 3 1 0 = Ok t /\
    forall y x, 0 <= y < 2 -> 0 <= x < 2 -> pixel_total t 8 y x = 3 * 3.
Proof.
  apply (pixel_total_kernel_area [[0; 90]; [200; 255]] 0 255 8 3 2 2 1 0).
  - split; [reflexivity | repeat constructor].
  - lia.
  - lia.
  - lia.
  - lia.
  - lia.
  - intros y x Hy Hx.
    assert (Hc : (y = 0 \/ y = 1) /\ (x = 0 \/ x = 1)) by lia.
    destruct Hc as [[-> | ->] [-> | ->]]; vm_compute; split; discriminate.
Defined.

(** C9.  The tensor is accumulated in [uint8]: for every
    [kernel_size >= 16] and every constant image (between 1 and 32766 rows
    and columns, of an intensity inside [vmin, vmax]), the window around
    each pixel holds [kernel_size^2] pairs
    of one level pair [(l, l)], and the tensor entry of that pair is 255,
    which is less than [kernel_size^2]. *)
Theorem tensor_saturates_at_255 (c vmin vmax levels ks h w : Z) (dx dy : Q) :
  16 <= ks -> 1 <= h < 32767 -> 1 <= w < 32767 -> vmin < vmax -> 1 <= levels ->
  vmin <= c <= vmax ->
  exists gl1 gl2 t l,
    digitize_levels (repeat (repeat c (Z.to_nat w)) (Z.to_nat h))
      vmin vmax levels = Ok gl1 /\
    cv2.warpAffine gl1 (1%Q, 0%Q, (- dx)%Q, 0%Q, 1%Q, (- dy)%Q) (w, h)
      = Ok gl2 /\
    fast_glcm (np.Arr2 (repeat (repeat c (Z.to_nat w)) (Z.to_nat h)))
      vmin vmax levels ks dx dy = Ok t /\
    0 <= l < levels /\
    255 < ks * ks /\
    forall y x, 0 <= y < h -> 0 <= x < w ->
      window_count gl1 gl2 h w ks l l y x = ks * ks /\
      get4 t l l y x = 255.
Proof.
  intros Hks Hhb Hwb Hv Hlv Hc.
  pose proof (proj1 Hhb) as Hh. pose proof (proj1 Hwb) as Hw.
  set (img := repeat (repeat c (Z.to_nat w)) (Z.to_nat h)).
  assert (Himg : is_shape2 h w img) by (apply is_shape2_repeat; lia).
  destruct (digitize_levels_increasing img vmin vmax levels) as [bins [He Hdig]];
    try lia.
  set (gl1 := map (map (level_of bins)) img) in *.
  assert (Hgl1 : is_shape2 h w gl1) by now apply is_shape2_map_map.
  destruct (fast_glcm_tensor img gl1 vmin vmax levels ks h w dx dy)
    as [sy [sx [t [Hsamples [Hwarp [Hcall [Ht Hget]]]]]]]; try assumption; try lia.
  set (gl2 := map (fun y => map (fun x => get2 gl1 (sy y x) (sx y x)) (range w))
                (range h)) in *.
  set (l := level_of bins c).
  assert (Hl : 0 <= l < levels).
  { pose proof (level_of_lower vmin vmax levels bins He c ltac:(lia)).
    pose proof (level_of_upper vmin vmax levels bins He c ltac:(lia) ltac:(lia)).
    unfold l. lia. }
  assert (Hc1 : forall y x, 0 <= y < h -> 0 <= x < w -> get2 gl1 y x = l).
  { intros y x Hy Hx. unfold gl1.
    rewrite (get2_map_map _ h w) by assumption.
    unfold img. now rewrite get2_repeat. }
  assert (Hc2 : forall y x, 0 <= y < h -> 0 <= x < w -> get2 gl2 y x = l).
  { intros y x Hy Hx. unfold gl2.
    rewrite (get2_map_range (fun y x => get2 gl1 (sy y x) (sx y x))) by assumption.
    destruct (Hsamples y x). now apply Hc1. }
  assert (Hcount : forall y x, window_count gl1 gl2 h w ks l l y x = ks * ks).
  { intros y x. unfold window_count.
    rewrite (Zsum_map_ext _ (fun _ => ks)).
    { rewrite Zsum_map_const, len_range. lia. }
    intros ky _.
    rewrite (Zsum_map_ext _ (fun _ => 1)).
    { rewrite Zsum_map_const, len_range. lia. }
    intros kx _.
    pose proof (borderInterpolate_range (y + ky - ks / 2) h Hh).
    pose proof (borderInterpolate_range (x + kx - ks / 2) w Hw).
    unfold indicator. rewrite Hc1, Hc2 by assumption.
    now rewrite Z.eqb_refl. }
  exists gl1, gl2, t, l.
  split; [exact Hdig|]. split; [exact Hwarp|]. split; [exact Hcall|].
  split; [exact Hl|]. split; [nia|].
  intros y x Hy Hx. split; [apply Hcount|].
  rewrite Hget by assumption. rewrite Hcount.
  apply saturate_u8_large. nia.
Qed.

Lemma tensor_saturates_at_255_witness :
  exists gl1 gl2 t l,
    digitize_levels (repeat (repeat 100 (Z.to_nat 2)) (Z.to_nat 2))
      0 255 8 = Ok gl1 /\
    cv2.warpAffine gl1 (1%Q, 0%Q, (- 1)%Q, 0%Q, 1%Q, (- 0)%Q) (2, 2)
      = Ok gl2 /\
    fast_glcm (np.Arr2 (repeat (repeat 100 (Z.to_nat 2)) (Z.to_nat 2)))
      0 255 8 16 1 0 = Ok t /\
    0 <= l < 8 /\
    255 < 16 * 16 /\
    forall y x, 0 <= y < 2 -> 0 <= x < 2 ->
      window_count gl1 gl2 2 2 16 l l y x = 16 * 16 /\
      get4 t l l y x = 255.
Proof.
  apply (tensor_saturates_at_255 100 0 255 8 16 2 2 1 0); lia.
Defined.

(** ** The statistics *)

(** C4.  The flat 4x4 image of intensity 100 with [vmin = 0], [vmax = 255],
    8 levels, a 3x3 window and offset [(dx, dy) = (1, 0)] (distance 1.0,
    angle 0.0): every pixel has level 3; the plane of the pair (3, 3) is 9
    everywhere and every other plane is 0; contrast is 0, homogeneity 9 and
    mean 27/64 = 0.421875 at every pixel. *)
Theorem flat_image_scenario :
  let flat := repeat (repeat 100 4%nat) 4%nat in
  digitize_levels flat 0 255 8 = Ok (repeat (repeat 3 4%nat) 4%nat) /\
  fast_glcm (np.Arr2 flat) 0 255 8 3 1 0 =
    Ok (map (fun i =>
          map (fun j =>
                 repeat (repeat (if (i =? 3) && (j =? 3) then 9 else 0) 4%nat)
                   4%nat)
            (range 8))
          (range 8)) /\
  contrast (np.Arr2 flat) 0 255 8 3 1 0 =
    Ok (repeat (repeat (Fin 0) 4%nat) 4%nat) /\
  homogeneity (np.Arr2 flat) 0 255 8 3 1 0 =
    Ok (repeat (repeat (Fin 9) 4%nat) 4%nat) /\
  mean (np.Arr2 flat) 0 255 8 3 1 0 =
    Ok (repeat (repeat (Fin (27 # 64)) 4%nat) 4%nat) /\
  (27 # 64 == 9 * 3 / 64)%Q /\ (27 # 64 == 421875 # 1000000)%Q.
Proof.
  cbv zeta. repeat split; vm_compute; reflexivity.
Qed.

(** *** Reductions over the level-pair axes *)

Lemma list_as_range {A : Type} (l : list A) (d : A) :
  l = map (fun k => nth (Z.to_nat k) l d) (range (len l)).
Proof.
  apply (nth_ext _ _ d d).
  - rewrite length_map. unfold range, len.
    rewrite length_map, length_seq. lia.
  - intros n Hn.
    replace n with (Z.to_nat (Z.of_nat n)) at 2 by lia.
    rewrite nth_map_range by (unfold len; lia).
    f_equal. lia.
Qed.

Lemma map_list_prod {A B C : Type} (g : A * B -> C) (la : list A) (lb : list B) :
  map g (list_prod la lb) =
  concat (map (fun a => map (fun b => g (a, b)) lb) la).
Proof.
  induction la as [|a la IH]; [reflexivity|].
  cbn [list_prod map concat]. rewrite map_app, map_map, IH. reflexivity.
Qed.

(** The planes of a tensor in row-major order are its slices at the level
    pairs. *)
Lemma concat_slices (n m h w : Z) (t : array4) :
  is_shape4 n m h w t ->
  concat t = map (slice t) (list_prod (range n) (range m)).
Proof.
  intros [Hlen Hrows]. unfold array4, array2 in *. rewrite map_list_prod.
  f_equal. etransitivity; [apply (list_as_range t [])|]. rewrite Hlen.
  apply map_ext_in. intros i Hi. apply In_range in Hi.
  pose proof (Forall_nth_Z _ t i [] Hrows ltac:(lia)) as [Hrow _].
  cbv beta in Hrow.
  etransitivity; [apply (list_as_range (nth (Z.to_nat i) t []) [])|].
  rewrite Hrow. reflexivity.
Qed.

Lemma slices_shape (n m h w : Z) (t : array4) :
  is_shape4 n m h w t ->
  Forall (is_shape2 h w) (map (slice t) (list_prod (range n) (range m))).
Proof.
  intros Ht. apply Forall_forall. intros p Hp.
  apply in_map_iff in Hp as [[i j] [<- Hin]].
  apply in_prod_iff in Hin as [Hi Hj]. apply In_range in Hi, Hj.
  now apply (slice_shape n m h w).
Qed.

(** An element-wise fold of planes is, at each position, the fold of the
    elements there. *)
Lemma nth2_fold_zipWith {A : Type} (op : A -> A -> A) (d : A) (h w y x : Z)
    (ps : list (list (list A))) :
  0 <= y < h -> 0 <= x < w ->
  Forall (is_shape2 h w) ps ->
  forall p, is_shape2 h w p ->
    is_shape2 h w (fold_left (zipWith (zipWith op)) ps p) /\
    nth (Z.to_nat x) (nth (Z.to_nat y) (fold_left (zipWith (zipWith op)) ps p) []) d =
    fold_left op (map (fun q => nth (Z.to_nat x) (nth (Z.to_nat y) q []) d) ps)
      (nth (Z.to_nat x) (nth (Z.to_nat y) p []) d).
Proof.
  intros Hy Hx Hps. induction Hps as [|q ps Hq Hps IH]; intros p Hp.
  - now split.
  - cbn [fold_left map].
    destruct (IH (zipWith (zipWith op) p q)) as [Hs Hn];
      [now apply is_shape2_zipWith|].
    split; [exact Hs|]. rewrite Hn. f_equal.
    now apply (nth2_zipWith op h w).
Qed.





(** *** Entropy *)

Lemma nth2_map_map {A B : Type} (f : A -> B) (h w : Z) (a : list (list A))
    (y x : Z) (da : A) (db : B) :
  is_shape2 h w a -> 0 <= y < h -> 0 <= x < w ->
  nth (Z.to_nat x) (nth (Z.to_nat y) (map (map f) a) []) db =
  f (nth (Z.to_nat x) (nth (Z.to_nat y) a []) da).
Proof.
  intros Ha Hy Hx. destruct (shape2_lengths h w a y Ha Hy) as [Hya Hxa].
  rewrite (nth_indep (map (map f) a) [] (map f [])) by (rewrite length_map; lia).
  rewrite map_nth.
  rewrite (nth_indep (map f _) db (f da)) by (rewrite length_map; lia).
  apply map_nth.
Qed.

Lemma fget2_zeros (h w y x : Z) :
  0 <= y < h -> 0 <= x < w ->
  fget2 (repeat (repeat (Fin 0) (Z.to_nat w)) (Z.to_nat h)) y x = Fin 0.
Proof.
  intros Hy Hx. unfold fget2.
  rewrite (nth_repeat_lt (repeat (Fin 0) (Z.to_nat w))) by lia.
  apply nth_repeat_lt. lia.
Qed.

(** [np.sum(..., axis=(0, 1))] at one pixel. *)
Lemma sum_axes01_pixel (h w y x : Z) (planes : list farray2) (t : farray4) :
  0 <= y < h -> 0 <= x < w ->
  concat t = planes -> Forall (is_shape2 h w) planes ->
  is_shape2 h w (sum_axes01 h w t) /\
  fget2 (sum_axes01 h w t) y x = fsum (map (fun q => fget2 q y x) planes).
Proof.
  intros Hy Hx Hc Hs. unfold sum_axes01, fsum, iadd. rewrite Hc.
  destruct (nth2_fold_zipWith fadd NaN h w y x planes Hy Hx Hs
              (repeat (repeat (Fin 0) (Z.to_nat w)) (Z.to_nat h)))
    as [Hshape Hnth]; [apply is_shape2_repeat; lia|].
  split; [exact Hshape|].
  etransitivity; [exact Hnth|]. f_equal. now apply fget2_zeros.
Qed.

(** [entropy] at one pixel, in terms of the tensor. *)
Lemma entropy_pixels_shape (ln : Q -> Q) (img : array2)
    (vmin vmax levels ks h w : Z) (dx dy : Q) :
  is_shape2 h w img -> 1 <= h < 32767 -> 1 <= w < 32767 ->
  0 <= levels -> 1 <= ks ->
  exists t e,
    fast_glcm (np.Arr2 img) vmin vmax levels ks dx dy = Ok t /\
    entropy ln (np.Arr2 img) vmin vmax levels ks dx dy = Ok e /\
    forall y x, 0 <= y < h -> 0 <= x < w ->
      is_shape2 h w e /\
      fget2 e y x = entropy_formula ln t levels ks y x.
Proof.
  intros Himg Hhb Hwb Hlv Hks.
  pose proof (proj1 Hhb) as Hh. pose proof (proj1 Hwb) as Hw.
  destruct (ncols_shape h w img Himg Hh) as [Hc Hr].
  destruct (digitize_levels_total img vmin vmax levels) as [f Hdig]; [lia|].
  destruct (fast_glcm_tensor img (map (map f) img) vmin vmax levels ks h w dx dy)
    as [sy [sx [t [_ [_ [Hcall [Ht _]]]]]]]; try assumption.
  { now apply is_shape2_map_map. }
  pose proof (concat_slices levels levels h w t Ht) as Hconcat.
  pose proof (slices_shape levels levels h w t Ht) as Hshapes.
  fold (level_pairs levels) in Hconcat, Hshapes.
  assert (Hks2 : (ks ^ 2 =? 0) = false) by (apply Z.eqb_neq; nia).
  eexists t, _. split; [exact Hcall|]. split.
  { unfold entropy. rewrite Hcall. cbn [bind as_array2].
    rewrite Hks2, Hc, Hr. cbn [bind]. reflexivity. }
  intros y x Hy Hx.
  set (c := fdiv (Fin 1) (of_Z (ks ^ 2))).
  set (glcmf := map (map astype_float) t).
  assert (Hplanes : concat glcmf =
                    map astype_float (map (slice t) (level_pairs levels))).
  { unfold glcmf. now rewrite <- concat_map, Hconcat. }
  assert (Hshapesf : Forall (is_shape2 h w)
                       (map astype_float (map (slice t) (level_pairs levels)))).
  { apply Forall_map. eapply Forall_impl; [|exact Hshapes].
    intros pl Hpl. now apply is_shape2_map_map. }
  destruct (sum_axes01_pixel h w y x _ glcmf Hy Hx Hplanes Hshapesf)
    as [Htotal_shape Htotal].
  set (total := sum_axes01 h w glcmf) in *.
  assert (Hentry : forall p, In p (level_pairs levels) ->
            fget2 (astype_float (slice t p)) y x =
            of_Z (get4 t (fst p) (snd p) y x)).
  { intros [i j] Hp. assert (Hpl : is_shape2 h w (slice t (i, j))).
    { rewrite Forall_forall in Hshapes. apply Hshapes. now apply in_map. }
    unfold fget2, astype_float.
    now rewrite (nth2_map_map of_Z h w _ y x 0 NaN). }
  assert (Htot : fget2 total y x =
                 fsum (map (fun p => of_Z (get4 t (fst p) (snd p) y x))
                         (level_pairs levels))).
  { rewrite Htotal, !map_map. f_equal. apply map_ext_in. exact Hentry. }
  set (H := fun p => fmul (fneg p) (flog ln p)).
  set (G := fun plane : farray2 =>
              zipWith (zipWith (fun g s => fadd (fdiv g s) c)) plane total).
  assert (Hterms : concat (map (map (map (map H))) (map (map G) glcmf)) =
            map (fun p => map (map H) (G (astype_float (slice t p))))
              (level_pairs levels)).
  { unfold glcmf. rewrite <- !concat_map. rewrite Hconcat, !map_map.
    reflexivity. }
  assert (Hterm_shapes : Forall (is_shape2 h w)
            (map (fun p => map (map H) (G (astype_float (slice t p))))
               (level_pairs levels))).
  { apply Forall_forall. intros q Hq. apply in_map_iff in Hq as [p [<- Hp]].
    apply is_shape2_map_map. unfold G. apply is_shape2_zipWith; [|exact Htotal_shape].
    apply is_shape2_map_map.
    rewrite Forall_forall in Hshapes. apply Hshapes. now apply in_map. }
  destruct (sum_axes01_pixel h w y x _ _ Hy Hx Hterms Hterm_shapes)
    as [Heshape Hent].
  split; [exact Heshape|].
  etransitivity; [exact Hent|]. unfold entropy_formula. rewrite map_map. f_equal.
  apply map_ext_in. intros p Hp. cbv zeta.
  assert (Hpl : is_shape2 h w (astype_float (slice t p))).
  { apply is_shape2_map_map.
    rewrite Forall_forall in Hshapes. apply Hshapes. now apply in_map. }
  unfold fget2. rewrite (nth2_map_map H h w _ y x NaN NaN); try assumption.
  - unfold G.
    rewrite (nth2_zipWith _ h w _ total y x NaN NaN NaN) by assumption.
    fold (fget2 (astype_float (slice t p)) y x). fold (fget2 total y x).
    rewrite Hentry by exact Hp. rewrite Htot. reflexivity.
  - unfold G. now apply is_shape2_zipWith.
Qed.

(** [entropy] returns an image of the shape of its input, whose pixels
    follow the per-pixel formula. *)
Lemma entropy_pixels (ln : Q -> Q) (img : array2)
    (vmin vmax levels ks h w : Z) (dx dy : Q) :
  is_shape2 h w img -> 1 <= h < 32767 -> 1 <= w < 32767 ->
  0 <= levels -> 1 <= ks ->
  exists t e,
    fast_glcm (np.Arr2 img) vmin vmax levels ks dx dy = Ok t /\
    entropy ln (np.Arr2 img) vmin vmax levels ks dx dy = Ok e /\
    is_shape2 h w e /\
    forall y x, 0 <= y < h -> 0 <= x < w ->
      fget2 e y x = entropy_formula ln t levels ks y x.
Proof.
  intros Himg Hhb Hwb Hlv Hks.
  destruct (entropy_pixels_shape ln img vmin vmax levels ks h w dx dy
              Himg Hhb Hwb Hlv Hks) as [t [e [Hcall [Hent Hval]]]].
  exists t, e. split; [exact Hcall|]. split; [exact Hent|]. split.
  - apply (Hval 0 0); lia.
  - intros y x Hy Hx. now apply Hval.
Qed.

(** C5.  On a 2-D image with between 1 and 32766 rows and columns, with
    [levels >= 0] and [kernel_size >= 1], [entropy] returns an image of
    the same shape that holds, at every pixel, the sum over all
    level pairs of [-p * ln p] with [p] the tensor entry divided by the
    per-pixel sum of the tensor, plus the constant [1 / kernel_size^2]:
    the smoothed formula, not the entropy of the normalised counts. *)
Theorem entropy_is_smoothed_formula (ln : Q -> Q) (img : array2)
    (vmin vmax levels ks h w : Z) (dx dy : Q) :
  is_shape2 h w img -> 1 <= h < 32767 -> 1 <= w < 32767 ->
  0 <= levels -> 1 <= ks ->
  exists t e,
    fast_glcm (np.Arr2 img) vmin vmax levels ks dx dy = Ok t /\
    entropy ln (np.Arr2 img) vmin vmax levels ks dx dy = Ok e /\
    is_shape2 h w e /\
    forall y x, 0 <= y < h -> 0 <= x < w ->
      fget2 e y x = entropy_formula ln t levels ks y x.
Proof. exact (entropy_pixels ln img vmin vmax levels ks h w dx dy). Qed.

Lemma entropy_is_smoothed_formula_witness :
  exists t e,
    fast_glcm (np.Arr2 [[0; 90]; [200; 255]]) 0 255 8 3 1 0 = Ok t /\
    entropy (fun q => q) (np.Arr2 [[0; 90]; [200; 255]]) 0 255 8 3 1 0 = Ok e /\
    is_shape2 2 2 e /\
    forall y x, 0 <= y < 2 -> 0 <= x < 2 ->
      fget2 e y x = entropy_formula (fun q => q) t 8 3 y x.
Proof.
  apply (entropy_is_smoothed_formula (fun q => q) [[0; 90]; [200; 255]]
           0 255 8 3 2 2 1 0).
  - split; [reflexivity | repeat constructor].
  - lia.
  - lia.
  - lia.
  - lia.
Defined.

(** The smoothing is visible on the smallest input: one pixel, one level,
    a 1x1 window.  The only probability is 1, the value entering the
    logarithm is 1 + 1 = 2. *)
Lemma entropy_single_pixel (ln : Q -> Q) :
  entropy ln (np.Arr2 [[60]]) 0 255 1 1 1 0 =
  Ok [[fsum [fmul (fneg (Fin 2)) (flog ln (Fin 2))]]].
Proof. reflexivity. Qed.

Lemma fsum_zeros {A : Type} (l : list A) :
  fsum (map (fun _ => Fin 0) l) = Fin 0.
Proof.
  unfold fsum. induction l as [|a l IH]; [reflexivity | exact IH].
Qed.

Lemma fold_left_fadd_NaN (l : list fval) : fold_left fadd l NaN = NaN.
Proof. induction l as [|a l IH]; [reflexivity | exact IH]. Qed.

Lemma fsum_NaN {A : Type} (l : list A) :
  l <> [] -> fsum (map (fun _ => NaN) l) = NaN.
Proof.
  destruct l as [|a l]; [congruence|]. intros _.
  unfold fsum. cbn [map fold_left]. apply fold_left_fadd_NaN.
Qed.

(** C10.  The division of [entropy] is unguarded.  For an image (between
    1 and 32766 rows and columns) whose pixels all lie below [vmin] (valid
    parameters otherwise) every level is -1, the tensor sums to 0 at every
    pixel, [entropy] raises nothing and returns an image of the shape of
    its input whose value at every pixel is NaN. *)
Theorem entropy_nan_below_vmin (ln : Q -> Q) (img : array2)
    (vmin vmax levels ks h w : Z) (dx dy : Q) :
  is_shape2 h w img -> 1 <= h < 32767 -> 1 <= w < 32767 ->
  vmin < vmax -> 1 <= levels -> 1 <= ks ->
  (forall y x, 0 <= y < h -> 0 <= x < w -> get2 img y x < vmin) ->
  exists gl1 t e,
    digitize_levels img vmin vmax levels = Ok gl1 /\
    fast_glcm (np.Arr2 img) vmin vmax levels ks dx dy = Ok t /\
    entropy ln (np.Arr2 img) vmin vmax levels ks dx dy = Ok e /\
    is_shape2 h w e /\
    is_shape4 levels levels h w t /\
    forall y x, 0 <= y < h -> 0 <= x < w ->
      get2 gl1 y x = -1 /\
      pixel_total t levels y x = 0 /\
      fget2 e y x = NaN.
Proof.
  intros Himg Hhb Hwb Hv Hlv Hks Hbelow.
  pose proof (proj1 Hhb) as Hh. pose proof (proj1 Hwb) as Hw.
  destruct (digitize_levels_valid img vmin vmax levels h w Himg Hlv Hv)
    as [gl1 [Hdig [Hgl1 Hlevel]]].
  destruct (fast_glcm_tensor img gl1 vmin vmax levels ks h w dx dy)
    as [sy [sx [t [_ [_ [Hcall [Ht Hget]]]]]]]; try assumption; try lia.
  destruct (entropy_pixels ln img vmin vmax levels ks h w dx dy)
    as [t' [e [Hcall' [Hent [Heshape Hformula]]]]]; try assumption; try lia.
  rewrite Hcall in Hcall'. inversion Hcall'; subst t'. clear Hcall'.
  assert (Hminus : forall y x, 0 <= y < h -> 0 <= x < w -> get2 gl1 y x = -1).
  { intros y x Hy Hx. now apply Hlevel, Hbelow. }
  assert (Hzero : forall i j y x,
            0 <= i < levels -> 0 <= j < levels -> 0 <= y < h -> 0 <= x < w ->
            get4 t i j y x = 0).
  { intros i j y x Hi Hj Hy Hx. rewrite Hget by assumption.
    unfold window_count.
    rewrite (Zsum_map_ext _ (fun _ => 0)); [rewrite Zsum_map_const; reflexivity|].
    intros ky _.
    rewrite (Zsum_map_ext _ (fun _ => 0)); [rewrite Zsum_map_const; lia|].
    intros kx _.
    pose proof (borderInterpolate_range (y + ky - ks / 2) h Hh).
    pose proof (borderInterpolate_range (x + kx - ks / 2) w Hw).
    apply (indicator_outside _ _ levels); [exact Hi|].
    rewrite Hminus by assumption. lia. }
  exists gl1, t, e. split; [exact Hdig|]. split; [exact Hcall|].
  split; [exact Hent|]. split; [exact Heshape|]. split; [exact Ht|].
  intros y x Hy Hx. split; [now apply Hminus|]. split.
  - unfold pixel_total.
    rewrite (Zsum_map_ext _ (fun _ => 0)); [rewrite Zsum_map_const; lia|].
    intros i Hi. apply In_range in Hi.
    rewrite (Zsum_map_ext _ (fun _ => 0)); [rewrite Zsum_map_const; lia|].
    intros j Hj. apply In_range in Hj. now apply Hzero.
  - rewrite Hformula by assumption. unfold entropy_formula.
    assert (Hpairs : forall p, In p (level_pairs levels) ->
              get4 t (fst p) (snd p) y x = 0).
    { intros [i j] Hp. apply in_prod_iff in Hp as [Hi Hj].
      apply In_range in Hi, Hj. now apply Hzero. }
    assert (Htot : fsum (map (fun p => of_Z (get4 t (fst p) (snd p) y x))
                           (level_pairs levels)) = Fin 0).
    { rewrite (map_ext_in _ (fun _ => Fin 0)); [apply fsum_zeros|].
      intros p Hp. now rewrite Hpairs. }
    cbv zeta. rewrite Htot.
    rewrite (map_ext_in _ (fun _ => NaN));
      [|intros p Hp; now rewrite Hpairs].
    apply fsum_NaN. intros Hnil.
    assert (Hin : In (0, 0) (level_pairs levels))
      by (apply in_prod_iff; split; apply In_range; lia).
    rewrite Hnil in Hin. destruct Hin.
Qed.

Lemma entropy_nan_below_vmin_witness :
  exists gl1 t e,
    digitize_levels [[10; 20]; [30; 40]] 50 255 8 = Ok gl1 /\
    fast_glcm (np.Arr2 [[10; 20]; [30; 40]]) 50 255 8 3 1 0 = Ok t /\
    entropy (fun q => q) (np.Arr2 [[10; 20]; [30; 40]]) 50 255 8 3 1 0 = Ok e /\
    is_shape2 2 2 e /\
    is_shape4 8 8 2 2 t /\
    forall y x, 0 <= y < 2 -> 0 <= x < 2 ->
      get2 gl1 y x = -1 /\
      pixel_total t 8 y x = 0 /\
      fget2 e y x = NaN.
Proof.
  apply (entropy_nan_below_vmin (fun q => q) [[10; 20]; [30; 40]]
           50 255 8 3 2 2 1 0).
  - split; [reflexivity | repeat constructor].
  - lia.
  - lia.
  - lia.
  - lia.
  - lia.
  - intros y x Hy Hx.
    assert (Hc : (y = 0 \/ y = 1) /\ (x = 0 \/ x = 1)) by lia.
    destruct Hc as [[-> | ->] [-> | ->]]; vm_compute; reflexivity.
Defined.

(** ** Errors *)

Lemma unpack2_not_2d (img : np.ndarray) :
  length (np.shape img) <> 2%nat -> unpack2 (np.shape img) = Raise ValueError.
Proof.
  destruct img; cbn [np.shape unpack2 length]; intros H;
    [reflexivity | reflexivity | congruence | reflexivity | reflexivity].
Qed.

(** With [levels = -1] there is no bin edge and every pixel gets level
    [-1]; the quantisation itself still raises nothing. *)
Lemma digitize_levels_defined (img : array2) (vmin vmax levels : Z) :
  -1 <= levels ->
  exists f, digitize_levels img vmin vmax levels = Ok (map (map f) img).
Proof.
  intros Hlv. destruct (Z.eq_dec levels (-1)) as [->|Hne].
  - exists (fun v => np.digitize1 1 [] v - 1).
    unfold digitize_levels.
    change (np.linspace (inject_Z vmin) (inject_Z (vmax + 1)) (-1 + 1))
      with (Ok (@nil Q)).
    cbn [bind]. unfold np.digitize. cbn [np.monotonicity Z.eqb bind].
    f_equal. rewrite map_map. apply map_ext. intros row.
    rewrite map_map. reflexivity.
  - apply digitize_levels_total. lia.
Qed.

(** Negative [levels] on an image of admissible size: [np.linspace] refuses
    a negative number of samples; with [levels = -1] it is [np.zeros] that
    refuses the negative dimension, after the quantisation and the shift
    have returned. *)
Lemma fast_glcm_negative_levels (img : array2) (vmin vmax levels ks h w : Z)
    (dx dy : Q) :
  is_shape2 h w img -> 1 <= h < 32767 -> 1 <= w < 32767 -> levels < 0 ->
  fast_glcm (np.Arr2 img) vmin vmax levels ks dx dy = Raise ValueError /\
  (levels < -1 ->
     np.linspace (inject_Z vmin) (inject_Z (vmax + 1)) (levels + 1) =
     Raise ValueError) /\
  (levels = -1 ->
     (exists gl1 gl2,
        digitize_levels img vmin vmax levels = Ok gl1 /\
        cv2.warpAffine gl1 (1%Q, 0%Q, (- dx)%Q, 0%Q, 1%Q, (- dy)%Q) (w, h) =
        Ok gl2) /\
     np.zeros4 levels levels h w = Raise ValueError).
Proof.
  intros Himg Hhb Hwb Hlv.
  destruct (ncols_shape h w img Himg ltac:(lia)) as [Hc Hr].
  assert (Hzeros : np.zeros4 levels levels h w = Raise ValueError).
  { unfold np.zeros4. destruct (Z.ltb_spec levels 0); [reflexivity | lia]. }
  destruct (Z.lt_ge_cases levels (-1)) as [Hlow|Hm1].
  - assert (Hlin : np.linspace (inject_Z vmin) (inject_Z (vmax + 1)) (levels + 1)
                   = Raise ValueError).
    { unfold np.linspace. destruct (Z.ltb_spec (levels + 1) 0); [reflexivity | lia]. }
    split; [|split; [intros _; exact Hlin | lia]].
    unfold fast_glcm. cbn [np.shape unpack2 as_array2 bind].
    unfold digitize_levels. rewrite Hlin. reflexivity.
  - destruct (digitize_levels_defined img vmin vmax levels Hm1) as [f Hdig].
    assert (Hgl1 : is_shape2 h w (map (map f) img))
      by now apply is_shape2_map_map.
    destruct (warpAffine_samples (map (map f) img)
                (1%Q, 0%Q, (- dx)%Q, 0%Q, 1%Q, (- dy)%Q) h w Hgl1 Hhb Hwb)
      as [sy [sx [Hwarp _]]].
    split; [|split; [lia|]].
    + unfold fast_glcm. cbn [np.shape unpack2 as_array2 bind].
      rewrite Hc, Hr, Hdig. cbn [bind]. rewrite Hwarp. cbn [bind].
      rewrite Hzeros. reflexivity.
    + intros _. split; [|exact Hzeros].
      eexists _, _. split; [exact Hdig | exact Hwarp].
Qed.

(** An image that OpenCV does not take: the quantisation returns and
    [cv2.warpAffine] raises. *)
Lemma fast_glcm_bad_image (img : array2) (vmin vmax levels ks : Z) (dx dy : Q) :
  (nrows img <= 0 \/ ncols img <= 0) \/
  (32767 <= nrows img \/ 32767 <= ncols img) ->
  -1 <= levels ->
  exists gl1,
    digitize_levels img vmin vmax levels = Ok gl1 /\
    cv2.warpAffine gl1 (1%Q, 0%Q, (- dx)%Q, 0%Q, 1%Q, (- dy)%Q)
      (ncols img, nrows img) = Raise CvError /\
    fast_glcm (np.Arr2 img) vmin vmax levels ks dx dy = Raise CvError.
Proof.
  intros Hbad Hlv.
  destruct (digitize_levels_defined img vmin vmax levels Hlv) as [f Hdig].
  assert (Hr : nrows (map (map f) img) = nrows img)
    by (unfold nrows; apply len_map).
  assert (Hc : ncols (map (map f) img) = ncols img).
  { unfold ncols. destruct img as [|r img]; cbn [map hd]; [reflexivity|].
    apply len_map. }
  assert (Hwarp : cv2.warpAffine (map (map f) img)
                    (1%Q, 0%Q, (- dx)%Q, 0%Q, 1%Q, (- dy)%Q)
                    (ncols img, nrows img) = Raise CvError).
  { destruct Hbad as [Hempty|Hlarge].
    - apply warpAffine_empty. rewrite Hr, Hc. tauto.
    - apply warpAffine_too_large. rewrite Hr, Hc. tauto. }
  exists (map (map f) img). split; [exact Hdig|]. split; [exact Hwarp|].
  unfold fast_glcm. cbn [np.shape unpack2 as_array2 bind].
  rewrite Hdig. cbn [bind]. rewrite Hwarp. reflexivity.
Qed.

(** A negative [kernel_size]: [np.ones] refuses the negative dimension. *)
Lemma fast_glcm_negative_kernel (img : array2) (vmin vmax levels ks h w : Z)
    (dx dy : Q) :
  is_shape2 h w img -> 1 <= h < 32767 -> 1 <= w < 32767 -> 0 <= levels ->
  ks < 0 ->
  np.ones2 ks ks = Raise ValueError /\
  fast_glcm (np.Arr2 img) vmin vmax levels ks dx dy = Raise ValueError.
Proof.
  intros Himg Hhb Hwb Hlv Hks.
  assert (Hones : np.ones2 ks ks = Raise ValueError).
  { unfold np.ones2. destruct (Z.ltb_spec ks 0); [reflexivity | lia]. }
  split; [exact Hones|].
  destruct (digitize_levels_total img vmin vmax levels Hlv) as [f Hdig].
  destruct (fast_glcm_tail img (map (map f) img) vmin vmax levels ks h w dx dy)
    as [sy [sx [t1 [_ [_ [_ [_ Htail]]]]]]]; try assumption.
  { now apply is_shape2_map_map. }
  rewrite Htail, Hones. reflexivity.
Qed.

(** [kernel_size = 0] with at least one level: the kernel is empty and
    [cv2.filter2D] raises on the first plane. *)
Lemma fast_glcm_empty_kernel (img : array2) (vmin vmax levels h w : Z)
    (dx dy : Q) :
  is_shape2 h w img -> 1 <= h < 32767 -> 1 <= w < 32767 -> 1 <= levels ->
  np.ones2 0 0 = Ok [] /\
  (forall src, cv2.filter2D src [] = Raise CvError) /\
  fast_glcm (np.Arr2 img) vmin vmax levels 0 dx dy = Raise CvError.
Proof.
  intros Himg Hhb Hwb Hlv.
  assert (Hf : forall src, cv2.filter2D src [] = Raise CvError).
  { intros src. unfold cv2.filter2D.
    destruct ((ncols src <=? 0) || (nrows src <=? 0)); reflexivity. }
  split; [reflexivity|]. split; [exact Hf|].
  destruct (digitize_levels_total img vmin vmax levels) as [f Hdig]; [lia|].
  destruct (fast_glcm_tail img (map (map f) img) vmin vmax levels 0 h w dx dy)
    as [sy [sx [t1 [_ [_ [Ht1 [_ Htail]]]]]]]; try assumption; try lia.
  { now apply is_shape2_map_map. }
  rewrite Htail. change (np.ones2 0 0) with (Ok (@nil (list Z))). cbn [bind].
  unfold for_range, range.
  replace (Z.to_nat levels) with (S (Z.to_nat levels - 1)) by lia.
  cbn [seq map foldM]. change (Z.of_nat 0) with 0.
  rewrite (getitem_slice levels levels h w t1 0 0 Ht1) by lia.
  cbn [bind]. rewrite Hf. reflexivity.
Qed.

(** C3, as stated, fails: nothing is validated.  A zero offset
    (distance 0), [vmin >= vmax] and [levels = 0] are all accepted and a
    tensor is returned. *)
Lemma invalid_parameters_accepted :
  (exists t, fast_glcm (np.Arr2 [[10; 200]]) 0 255 2 1 0 0 = Ok t) /\
  (exists t, fast_glcm (np.Arr2 [[10; 200]]) 200 100 2 1 1 0 = Ok t) /\
  (exists t, fast_glcm (np.Arr2 [[10; 200]]) 100 100 2 1 1 0 = Ok t) /\
  fast_glcm (np.Arr2 [[10; 200]]) 0 255 0 1 1 0 = Ok [].
Proof.
  repeat split; try (eexists; vm_compute; reflexivity).
Qed.

(** C3, amended.  [fast_glcm] has no validation of its own.  An image that
    is not 2-dimensional fails at the first statement, the unpacking of its
    shape.  A 2-D image with between 1 and 32766 rows and columns, with
    [levels >= 0] and [kernel_size >= 1], yields a tensor for every [vmin],
    [vmax] and every offset.  Every other bad value fails later, with the
    exception of the NumPy or OpenCV operation that meets it: negative
    [levels] raise ValueError ([np.linspace] below -1, [np.zeros] at -1), a
    2-D image with a zero dimension or with 32767 or more rows or columns
    raises cv2.error in [cv2.warpAffine] (for [levels >= -1]), a negative
    [kernel_size] raises ValueError in [np.ones], and [kernel_size = 0] with
    [levels >= 1] raises cv2.error in [cv2.filter2D]. *)
Theorem fast_glcm_failures (vmin vmax levels ks : Z) (dx dy : Q) :
  (forall img, length (np.shape img) <> 2%nat ->
     unpack2 (np.shape img) = Raise ValueError /\
     fast_glcm img vmin vmax levels ks dx dy = Raise ValueError) /\
  (forall img h w,
     is_shape2 h w img -> 1 <= h < 32767 -> 1 <= w < 32767 ->
     0 <= levels -> 1 <= ks ->
     exists t, fast_glcm (np.Arr2 img) vmin vmax levels ks dx dy = Ok t /\
               is_shape4 levels levels h w t) /\
  (forall img h w,
     is_shape2 h w img -> 1 <= h < 32767 -> 1 <= w < 32767 -> levels < 0 ->
     fast_glcm (np.Arr2 img) vmin vmax levels ks dx dy = Raise ValueError /\
     (levels < -1 ->
        np.linspace (inject_Z vmin) (inject_Z (vmax + 1)) (levels + 1) =
        Raise ValueError) /\
     (levels = -1 ->
        (exists gl1 gl2,
           digitize_levels img vmin vmax levels = Ok gl1 /\
           cv2.warpAffine gl1 (1%Q, 0%Q, (- dx)%Q, 0%Q, 1%Q, (- dy)%Q) (w, h) =
           Ok gl2) /\
        np.zeros4 levels levels h w = Raise ValueError)) /\
  (forall img, nrows img <= 0 \/ ncols img <= 0 -> -1 <= levels ->
     exists gl1,
       digitize_levels img vmin vmax levels = Ok gl1 /\
       cv2.warpAffine gl1 (1%Q, 0%Q, (- dx)%Q, 0%Q, 1%Q, (- dy)%Q)
         (ncols img, nrows img) = Raise CvError /\
       fast_glcm (np.Arr2 img) vmin vmax levels ks dx dy = Raise CvError) /\
  (forall img, 32767 <= nrows img \/ 32767 <= ncols img -> -1 <= levels ->
     exists gl1,
       digitize_levels img vmin vmax levels = Ok gl1 /\
       cv2.warpAffine gl1 (1%Q, 0%Q, (- dx)%Q, 0%Q, 1%Q, (- dy)%Q)
         (ncols img, nrows img) = Raise CvError /\
       fast_glcm (np.Arr2 img) vmin vmax levels ks dx dy = Raise CvError) /\
  (forall img h w,
     is_shape2 h w img -> 1 <= h < 32767 -> 1 <= w < 32767 ->
     0 <= levels -> ks < 0 ->
     np.ones2 ks ks = Raise ValueError /\
     fast_glcm (np.Arr2 img) vmin vmax levels ks dx dy = Raise ValueError) /\
  (forall img h w,
     is_shape2 h w img -> 1 <= h < 32767 -> 1 <= w < 32767 ->
     1 <= levels -> ks = 0 ->
     np.ones2 ks ks = Ok [] /\
     (forall src, cv2.filter2D src [] = Raise CvError) /\
     fast_glcm (np.Arr2 img) vmin vmax levels ks dx dy = Raise CvError).
Proof.
  split; [|split; [|split; [|split; [|split; [|split]]]]].
  - intros img H2d. pose proof (unpack2_not_2d img H2d) as Hu.
    split; [exact Hu|]. unfold fast_glcm. now rewrite Hu.
  - intros img h w Himg Hhb Hwb Hlv Hks.
    destruct (digitize_levels_total img vmin vmax levels Hlv) as [f Hdig].
    destruct (fast_glcm_tensor img (map (map f) img) vmin vmax levels ks h w dx dy)
      as [sy [sx [t [_ [_ [Hcall [Ht _]]]]]]]; try assumption.
    + now apply is_shape2_map_map.
    + now exists t.
  - intros img h w. apply fast_glcm_negative_levels.
  - intros img Hempty. apply fast_glcm_bad_image. now left.
  - intros img Hlarge. apply fast_glcm_bad_image. now right.
  - intros img h w. apply fast_glcm_negative_kernel.
  - intros img h w Himg Hhb Hwb Hlv ->.
    now apply (fast_glcm_empty_kernel img vmin vmax levels h w dx dy).
Qed.

Lemma fast_glcm_failures_witness :
  fast_glcm (np.Arr1 [10; 200]) 0 255 8 3 1 0 = Raise ValueError /\
  (exists t, fast_glcm (np.Arr2 [[10; 200]]) 200 100 8 3 0 0 = Ok t /\
             is_shape4 8 8 1 2 t) /\
  fast_glcm (np.Arr2 [[10; 200]]) 0 255 (-1) 3 1 0 = Raise ValueError /\
  fast_glcm (np.Arr2 [[]]) 0 255 8 3 1 0 = Raise CvError /\
  fast_glcm (np.Arr2 [repeat 0 (Z.to_nat 32767)]) 0 255 8 3 1 0 = Raise CvError /\
  fast_glcm (np.Arr2 [[10; 200]]) 0 255 8 (-2) 1 0 = Raise ValueError /\
  fast_glcm (np.Arr2 [[10; 200]]) 0 255 8 0 1 0 = Raise CvError.
Proof.
  assert (Hs : is_shape2 1 2 [[10; 200]])
    by (split; [reflexivity | repeat constructor]).
  split; [|split; [|split; [|split; [|split; [|split]]]]].
  - apply (proj1 (fast_glcm_failures 0 255 8 3 1 0) (np.Arr1 [10; 200])).
    simpl. lia.
  - apply (proj1 (proj2 (fast_glcm_failures 200 100 8 3 0 0)) [[10; 200]] 1 2);
      [exact Hs | lia | lia | lia | lia].
  - destruct (proj1 (proj2 (proj2 (fast_glcm_failures 0 255 (-1) 3 1 0)))
                [[10; 200]] 1 2) as [H _]; [exact Hs | lia | lia | lia | exact H].
  - destruct (proj1 (proj2 (proj2 (proj2 (fast_glcm_failures 0 255 8 3 1 0))))
                [[]]) as [gl1 [_ [_ H]]]; [|lia|exact H].
    right. unfold ncols, len. simpl. lia.
  - destruct (proj1 (proj2 (proj2 (proj2 (proj2
                (fast_glcm_failures 0 255 8 3 1 0)))))
                [repeat 0 (Z.to_nat 32767)]) as [gl1 [_ [_ H]]]; [|lia|exact H].
    right. unfold ncols, len. cbn [hd]. rewrite repeat_length. lia.
  - destruct (proj1 (proj2 (proj2 (proj2 (proj2 (proj2
                (fast_glcm_failures 0 255 8 (-2) 1 0))))))
                [[10; 200]] 1 2) as [_ H];
      [exact Hs | lia | lia | lia | lia | exact H].
  - destruct (proj2 (proj2 (proj2 (proj2 (proj2 (proj2
                (fast_glcm_failures 0 255 8 0 1 0))))))
                [[10; 200]] 1 2) as [_ [_ H]];
      [exact Hs | lia | lia | lia | reflexivity | exact H].
Defined.

(** ** Calls in a store: determinism *)

Lemma nth_error_last {A : Type} (l : list A) (a : A) :
  nth_error (l ++ [a]) (length l) = Some a.
Proof. rewrite nth_error_app2 by lia. now rewrite Nat.sub_diag. Qed.

Lemma write_last (hp : Store.heap) (a b : np.ndarray) :
  Store.write (length hp) b (hp ++ [a]) = hp ++ [b].
Proof. induction hp as [|c hp IH]; simpl; [reflexivity | now rewrite IH]. Qed.

(** One in-place update of the accumulator. *)
Lemma step_in_place (hp : Store.heap) (f : array4 -> result array4) (t : array4) :
  Store.bindM (Store.load (length hp)) (fun o =>
    Store.bindM (Store.lift (f (Store.as_array4 o))) (fun t' =>
      Store.store (length hp) (np.Arr4 t'))) (hp ++ [np.Arr4 t]) =
  match f t with
  | Ok t' => Ok (tt, hp ++ [np.Arr4 t'])
  | Raise e => Raise e
  end.
Proof.
  unfold Store.bindM, Store.load, Store.lift, Store.store.
  rewrite nth_error_last. cbn [Store.as_array4].
  destruct (f t) as [t'|e]; [|reflexivity].
  now rewrite write_last.
Qed.

(** A loop that only updates the accumulator in place is the pure loop on
    its contents. *)
Lemma forM_in_place {K : Type} (hp : Store.heap) (sb : K -> Store.M unit)
    (pb : K -> array4 -> result array4) (l : list K) :
  (forall k t,
     sb k (hp ++ [np.Arr4 t]) =
     match pb k t with
     | Ok t' => Ok (tt, hp ++ [np.Arr4 t'])
     | Raise e => Raise e
     end) ->
  forall t,
    Store.forM l sb (hp ++ [np.Arr4 t]) =
    match foldM pb l t with
    | Ok t' => Ok (tt, hp ++ [np.Arr4 t'])
    | Raise e => Raise e
    end.
Proof.
  intros Hstep. induction l as [|k l IH]; intros t; [reflexivity|].
  cbn [Store.forM foldM]. unfold Store.bindM at 1. rewrite Hstep.
  destruct (pb k t) as [t'|e]; cbn [bind]; [apply IH | reflexivity].
Qed.

Lemma nested_in_place (hp : Store.heap) (F : Z -> Z -> array4 -> result array4)
    (n : Z) (t : array4) :
  Store.forM (range n) (fun i =>
    Store.forM (range n) (fun j =>
      Store.bindM (Store.load (length hp)) (fun o =>
        Store.bindM (Store.lift (F i j (Store.as_array4 o))) (fun t' =>
          Store.store (length hp) (np.Arr4 t'))))) (hp ++ [np.Arr4 t]) =
  match for_range n (fun i t => for_range n (fun j t => F i j t) t) t with
  | Ok t' => Ok (tt, hp ++ [np.Arr4 t'])
  | Raise e => Raise e
  end.
Proof.
  unfold for_range.
  apply (forM_in_place hp _ (fun i t => foldM (fun j t => F i j t) (range n) t)).
  intros i t0.
  apply (forM_in_place hp _ (fun j t => F i j t)).
  intros j t1. apply step_in_place.
Qed.

(** A call in a store computes [fast_glcm] of the contents of the image; on
    success it appends the accumulator and the returned copy to the store
    and changes nothing else. *)
Lemma fast_glcm_call_refines (hp : Store.heap) (img : Store.ref)
    (a : np.ndarray) (vmin vmax levels ks : Z) (dx dy : Q) :
  nth_error hp img = Some a ->
  Store.fast_glcm_call img vmin vmax levels ks dx dy hp =
  match fast_glcm a vmin vmax levels ks dx dy with
  | Ok t => Ok (S (length hp), hp ++ [np.Arr4 t; np.Arr4 t])
  | Raise e => Raise e
  end.
Proof.
  intros Himg. unfold Store.fast_glcm_call, fast_glcm. cbv zeta.
  unfold Store.bindM at 1, Store.load at 1. rewrite Himg.
  unfold Store.bindM at 1, Store.lift at 1.
  destruct (unpack2 (np.shape a)) as [[h w]|e]; cbn [bind]; [|reflexivity].
  unfold Store.bindM at 1, Store.lift at 1.
  destruct (digitize_levels (as_array2 a) vmin vmax levels) as [gl1|e];
    cbn [bind]; [|reflexivity].
  unfold Store.bindM at 1, Store.lift at 1.
  destruct (cv2.warpAffine gl1 _ (w, h)) as [gl2|e]; cbn [bind]; [|reflexivity].
  unfold Store.bindM at 1, Store.lift at 1.
  destruct (np.zeros4 levels levels h w) as [zeros|e]; cbn [bind]; [|reflexivity].
  unfold Store.bindM at 1, Store.alloc at 1.
  unfold Store.bindM at 1.
  rewrite (nested_in_place hp
             (fun i j t => np.setitem_mask t i j (np.eq_and_eq gl1 i gl2 j) 1)).
  destruct (for_range levels _ zeros) as [t1|e]; cbn [bind]; [|reflexivity].
  unfold Store.bindM at 1, Store.lift at 1.
  destruct (np.ones2 ks ks) as [kernel|e]; cbn [bind]; [|reflexivity].
  unfold Store.bindM at 1.
  rewrite (nested_in_place hp
             (fun i j t => src <- np.getitem t i j ;;
                           dst <- cv2.filter2D src kernel ;;
                           np.setitem t i j dst)).
  destruct (for_range levels _ t1) as [t2|e]; cbn [bind]; [|reflexivity].
  unfold Store.bindM, Store.load, Store.alloc.
  rewrite nth_error_last. cbn [Store.as_array4].
  rewrite length_app, <- app_assoc. cbn [length app].
  repeat f_equal. lia.
Qed.

(** C8.  [fast_glcm] is deterministic.  Two calls on references to images
    of identical contents, with identical parameters, have the same outcome
    (the same tensor, or the same exception) whatever else their stores
    hold.  And when a call returns, a second call on the same reference in
    the resulting store returns as well: a distinct array with the same
    contents, the first tensor and everything that was in the store before
    the first call (the image included) being unchanged. *)
Theorem fast_glcm_deterministic (hp hp' : Store.heap) (img img' : Store.ref)
    (a : np.ndarray) (vmin vmax levels ks : Z) (dx dy : Q) :
  nth_error hp img = Some a -> nth_error hp' img' = Some a ->
  Store.outcome (Store.fast_glcm_call img vmin vmax levels ks dx dy hp) =
  Store.outcome (Store.fast_glcm_call img' vmin vmax levels ks dx dy hp') /\
  forall r1 hp1,
    Store.fast_glcm_call img vmin vmax levels ks dx dy hp = Ok (r1, hp1) ->
    exists r2 hp2 t,
      Store.fast_glcm_call img vmin vmax levels ks dx dy hp1 = Ok (r2, hp2) /\
      nth_error hp2 r1 = Some (np.Arr4 t) /\
      nth_error hp2 r2 = Some (np.Arr4 t) /\
      r1 <> r2 /\
      forall q, (q < length hp)%nat -> nth_error hp2 q = nth_error hp q.
Proof.
  intros Himg Himg'. split.
  - rewrite (fast_glcm_call_refines hp img a) by exact Himg.
    rewrite (fast_glcm_call_refines hp' img' a) by exact Himg'.
    destruct (fast_glcm a vmin vmax levels ks dx dy) as [t|e]; [|reflexivity].
    cbn [Store.outcome].
    replace (hp ++ [np.Arr4 t; np.Arr4 t])
      with ((hp ++ [np.Arr4 t]) ++ [np.Arr4 t]) by now rewrite <- app_assoc.
    replace (hp' ++ [np.Arr4 t; np.Arr4 t])
      with ((hp' ++ [np.Arr4 t]) ++ [np.Arr4 t]) by now rewrite <- app_assoc.
    replace (S (length hp)) with (length (hp ++ [np.Arr4 t]))
      by (rewrite length_app; simpl; lia).
    replace (S (length hp')) with (length (hp' ++ [np.Arr4 t]))
      by (rewrite length_app; simpl; lia).
    now rewrite !nth_error_last.
  - intros r1 hp1 Hcall.
    rewrite (fast_glcm_call_refines hp img a) in Hcall by exact Himg.
    destruct (fast_glcm a vmin vmax levels ks dx dy) as [t|e] eqn:Hpure;
      [|discriminate].
    inversion Hcall; subst r1 hp1. clear Hcall.
    assert (Hlt : (img < length hp)%nat)
      by (apply nth_error_Some; congruence).
    assert (Himg1 : nth_error (hp ++ [np.Arr4 t; np.Arr4 t]) img = Some a)
      by (rewrite nth_error_app1 by exact Hlt; exact Himg).
    exists (S (length (hp ++ [np.Arr4 t; np.Arr4 t]))),
           ((hp ++ [np.Arr4 t; np.Arr4 t]) ++ [np.Arr4 t; np.Arr4 t]), t.
    split.
    { rewrite (fast_glcm_call_refines _ img a) by exact Himg1.
      now rewrite Hpure. }
    split.
    { rewrite nth_error_app1 by (rewrite length_app; simpl; lia).
      rewrite nth_error_app2 by lia.
      replace (S (length hp) - length hp)%nat with 1%nat by lia. reflexivity. }
    split.
    { rewrite nth_error_app2 by lia.
      replace (S (length (hp ++ [np.Arr4 t; np.Arr4 t])) -
               length (hp ++ [np.Arr4 t; np.Arr4 t]))%nat with 1%nat by lia.
      reflexivity. }
    split.
    { rewrite length_app. simpl. lia. }
    intros q Hq.
    rewrite nth_error_app1 by (rewrite length_app; simpl; lia).
    now rewrite nth_error_app1 by exact Hq.
Qed.

Lemma fast_glcm_deterministic_witness :
  Store.outcome
    (Store.fast_glcm_call 0%nat 0 255 2 1 1 0 [np.Arr2 [[10; 200]]]) =
  Store.outcome
    (Store.fast_glcm_call 1%nat 0 255 2 1 1 0
       [np.Arr1 [7; 7; 7]; np.Arr2 [[10; 200]]]) /\
  forall r1 hp1,
    Store.fast_glcm_call 0%nat 0 255 2 1 1 0 [np.Arr2 [[10; 200]]]
      = Ok (r1, hp1) ->
    exists r2 hp2 t,
      Store.fast_glcm_call 0%nat 0 255 2 1 1 0 hp1 = Ok (r2, hp2) /\
      nth_error hp2 r1 = Some (np.Arr4 t) /\
      nth_error hp2 r2 = Some (np.Arr4 t) /\
      r1 <> r2 /\
      forall q : nat, (q < 1)%nat ->
                      nth_error hp2 q = nth_error [np.Arr2 [[10; 200]]] q.
Proof.
  apply (fast_glcm_deterministic [np.Arr2 [[10; 200]]]
           [np.Arr1 [7; 7; 7]; np.Arr2 [[10; 200]]] 0%nat 1%nat
           (np.Arr2 [[10; 200]]) 0 255 2 1 1 0).
  - reflexivity.
  - reflexivity.
Defined.

(** * Further properties of the statistics and of the tensor *)

(** ** The accumulation loops of the statistics *)

(** One pair of accumulation loops: at every pixel the accumulator gains one
    term per level pair, in the order of the loops. *)
Lemma accumulate_pixels (T : Z -> Z -> array2 -> farray2)
    (F : Z -> Z -> Z -> Z -> Z -> fval) (t : array4) (levels h w : Z) :
  is_shape4 levels levels h w t ->
  (forall i j plane, 0 <= i < levels -> 0 <= j < levels ->
     is_shape2 h w plane ->
     is_shape2 h w (T i j plane) /\
     forall y x, 0 <= y < h -> 0 <= x < w ->
       fget2 (T i j plane) y x = F i j y x (get2 plane y x)) ->
  forall acc0, is_shape2 h w acc0 ->
  exists out,
    for_range levels (fun i acc =>
      for_range levels (fun j acc =>
        g <- np.getitem t i j ;;
        Ok (iadd acc (T i j g))) acc) acc0 = Ok out /\
    is_shape2 h w out /\
    forall y x, 0 <= y < h -> 0 <= x < w ->
      fget2 out y x =
      fold_left fadd
        (map (fun p => F (fst p) (snd p) y x (get4 t (fst p) (snd p) y x))
           (level_pairs levels))
        (fget2 acc0 y x).
Proof.
  intros Ht HT acc0 Hacc0. unfold for_range. rewrite foldM_nested.
  unfold level_pairs.
  assert (Hin : forall p, In p (list_prod (range levels) (range levels)) ->
                  0 <= fst p < levels /\ 0 <= snd p < levels).
  { intros [i j] Hp. apply in_prod_iff in Hp as [Hi Hj].
    apply In_range in Hi, Hj. now split. }
  revert acc0 Hacc0.
  induction (list_prod (range levels) (range levels)) as [|[i j] l IH];
    intros acc0 Hacc0.
  - exists acc0. split; [reflexivity|]. now split.
  - destruct (Hin (i, j) (or_introl eq_refl)) as [Hi Hj]. cbn [fst snd] in Hi, Hj.
    pose proof (slice_shape levels levels h w t i j Ht Hi Hj) as Hsl.
    destruct (HT i j (slice t (i, j)) Hi Hj Hsl) as [HTs HTv].
    assert (Hacc1 : is_shape2 h w (iadd acc0 (T i j (slice t (i, j)))))
      by (unfold iadd; now apply is_shape2_zipWith).
    destruct (IH (fun p Hp => Hin p (or_intror Hp)) _ Hacc1)
      as [out [Hout [Hshape Hval]]].
    exists out. split; [|split; [exact Hshape|]].
    + cbn [foldM fst snd].
      rewrite (getitem_slice levels levels h w t i j Ht Hi Hj). cbn [bind].
      exact Hout.
    + intros y x Hy Hx. rewrite (Hval y x Hy Hx). cbn [map fold_left fst snd].
      f_equal. unfold fget2 at 1, iadd.
      rewrite (nth2_zipWith fadd h w acc0 _ y x NaN NaN NaN) by assumption.
      fold (fget2 acc0 y x). fold (fget2 (T i j (slice t (i, j))) y x).
      rewrite (HTv y x Hy Hx). reflexivity.
Qed.

Lemma map_term_pixels (f : fval -> fval) (h w : Z) (plane : array2) :
  is_shape2 h w plane ->
  is_shape2 h w (map (map f) (astype_float plane)) /\
  forall y x, 0 <= y < h -> 0 <= x < w ->
    fget2 (map (map f) (astype_float plane)) y x = f (of_Z (get2 plane y x)).
Proof.
  intros Hp. unfold astype_float. split.
  - now apply is_shape2_map_map, is_shape2_map_map.
  - intros y x Hy Hx. unfold fget2, get2.
    rewrite (nth2_map_map f h w _ y x NaN NaN); try assumption.
    + now rewrite (nth2_map_map of_Z h w _ y x 0 NaN).
    + now apply is_shape2_map_map.
Qed.

Lemma zeros2_shape (h w : Z) :
  0 <= h -> 0 <= w ->
  zeros2 h w = Ok (repeat (repeat (Fin 0) (Z.to_nat w)) (Z.to_nat h)).
Proof.
  intros Hh Hw. unfold zeros2.
  destruct (Z.ltb_spec h 0); [lia|]. destruct (Z.ltb_spec w 0); [lia|].
  reflexivity.
Qed.

(** The four statistics that add, for every level pair, a function of the
    tensor entry: on a non-empty 2-D image with [levels >= 0] and
    [kernel_size >= 1] the loops return, at every pixel, the sum of the
    terms in the order of the loops. *)
Lemma weighted_statistic (f : Z -> Z -> fval -> fval) (img : array2)
    (vmin vmax levels ks h w : Z) (dx dy : Q) :
  is_shape2 h w img -> 1 <= h < 32767 -> 1 <= w < 32767 ->
  0 <= levels -> 1 <= ks ->
  exists t out,
    fast_glcm (np.Arr2 img) vmin vmax levels ks dx dy = Ok t /\
    (hw <- unpack2 (np.shape (np.Arr2 img)) ;;
     let '(h, w) := hw in
     glcm <- fast_glcm (np.Arr2 img) vmin vmax levels ks dx dy ;;
     acc <- zeros2 h w ;;
     for_range levels (fun i acc =>
       for_range levels (fun j acc =>
         g <- np.getitem glcm i j ;;
         Ok (iadd acc (map (map (f i j)) (astype_float g)))) acc) acc) = Ok out /\
    is_shape2 h w out /\
    forall y x, 0 <= y < h -> 0 <= x < w ->
      fget2 out y x =
      fsum (map (fun p => f (fst p) (snd p) (of_Z (get4 t (fst p) (snd p) y x)))
              (level_pairs levels)).
Proof.
  intros Himg Hhb Hwb Hlv Hks.
  pose proof (proj1 Hhb) as Hh. pose proof (proj1 Hwb) as Hw.
  destruct (ncols_shape h w img Himg Hh) as [Hc Hr].
  destruct (digitize_levels_total img vmin vmax levels Hlv) as [q Hdig].
  destruct (fast_glcm_tensor img (map (map q) img) vmin vmax levels ks h w dx dy)
    as [sy [sx [t [_ [_ [Hcall [Ht _]]]]]]]; try assumption.
  { now apply is_shape2_map_map. }
  destruct (accumulate_pixels
              (fun i j g => map (map (f i j)) (astype_float g))
              (fun i j y x v => f i j (of_Z v)) t levels h w Ht)
    with (acc0 := repeat (repeat (Fin 0) (Z.to_nat w)) (Z.to_nat h))
    as [out [Hloop [Hshape Hval]]].
  { intros i j plane _ _ Hp. now apply map_term_pixels. }
  { apply is_shape2_repeat; lia. }
  exists t, out. split; [exact Hcall|]. split; [|split; [exact Hshape|]].
  - cbn [np.shape unpack2 bind]. rewrite Hc, Hr, Hcall. cbn [bind].
    rewrite zeros2_shape by lia. cbn [bind]. exact Hloop.
  - intros y x Hy Hx. rewrite (Hval y x Hy Hx), fget2_zeros by assumption.
    reflexivity.
Qed.

(** *** Sums of finite values *)

Lemma fold_fadd_finite {A : Type} (term : A -> fval) (val : A -> Q) (l : list A) :
  (forall a, In a l -> exists q, term a = Fin q /\ (q == val a)%Q) ->
  forall a0 : Q,
  exists q, fold_left fadd (map term l) (Fin a0) = Fin q /\
            (q == a0 + Qsum (map val l))%Q.
Proof.
  induction l as [|a l IH]; intros Hterm a0.
  - exists a0. split; [reflexivity|]. simpl. ring.
  - destruct (Hterm a (or_introl eq_refl)) as [qa [Hqa Hva]].
    destruct (IH (fun b Hb => Hterm b (or_intror Hb)) (Qred (a0 + qa)))
      as [q [Hq Hv]].
    exists q. cbn [map fold_left]. rewrite Hqa. cbn [fadd]. split; [exact Hq|].
    rewrite Hv, Qred_correct, Hva. simpl. ring.
Qed.

Lemma fsum_finite {A : Type} (term : A -> fval) (val : A -> Q) (l : list A) :
  (forall a, In a l -> exists q, term a = Fin q /\ (q == val a)%Q) ->
  exists q, fsum (map term l) = Fin q /\ (q == Qsum (map val l))%Q.
Proof.
  intros Hterm. destruct (fold_fadd_finite term val l Hterm 0) as [q [Hq Hv]].
  exists q. split; [exact Hq|]. rewrite Hv. ring.
Qed.

Lemma Qsum_inject_Z {A : Type} (f : A -> Z) (l : list A) :
  (Qsum (map (fun a => inject_Z (f a)) l) == inject_Z (cv2.Zsum (map f l)))%Q.
Proof.
  induction l as [|a l IH]; [reflexivity|].
  cbn [map Qsum fold_right cv2.Zsum]. fold (Qsum (map (fun a => inject_Z (f a)) l)).
  fold (cv2.Zsum (map f l)). rewrite IH, inject_Z_plus. reflexivity.
Qed.

Lemma Qsum_ext {A : Type} (f g : A -> Q) (l : list A) :
  (forall a, In a l -> (f a == g a)%Q) ->
  (Qsum (map f l) == Qsum (map g l))%Q.
Proof.
  induction l as [|a l IH]; intros H; [reflexivity|].
  cbn [map Qsum fold_right]. fold (Qsum (map f l)). fold (Qsum (map g l)).
  rewrite (H a (or_introl eq_refl)), IH; [reflexivity|].
  intros b Hb. apply H. now right.
Qed.

Lemma Qsum_bounds {A : Type} (f lo hi : A -> Q) (l : list A) :
  (forall a, In a l -> (lo a <= f a <= hi a)%Q) ->
  (Qsum (map lo l) <= Qsum (map f l) <= Qsum (map hi l))%Q.
Proof.
  induction l as [|a l IH]; intros H; [simpl; lra|].
  cbn [map Qsum fold_right].
  fold (Qsum (map f l)). fold (Qsum (map lo l)). fold (Qsum (map hi l)).
  pose proof (H a (or_introl eq_refl)).
  assert (Qsum (map lo l) <= Qsum (map f l) <= Qsum (map hi l))%Q
    by (apply IH; intros b Hb; apply H; now right).
  lra.
Qed.

Lemma Qsum_scale {A : Type} (f : A -> Q) (c : Q) (l : list A) :
  (Qsum (map (fun a => (f a * c)%Q) l) == Qsum (map f l) * c)%Q.
Proof.
  induction l as [|a l IH]; [simpl; ring|].
  cbn [map Qsum fold_right]. fold (Qsum (map (fun a => (f a * c)%Q) l)).
  fold (Qsum (map f l)). rewrite IH. ring.
Qed.

Lemma Zsum_list_prod (f : Z * Z -> Z) (la lb : list Z) :
  cv2.Zsum (map f (list_prod la lb)) =
  cv2.Zsum (map (fun a => cv2.Zsum (map (fun b => f (a, b)) lb)) la).
Proof.
  induction la as [|a la IH]; [reflexivity|].
  cbn [list_prod map]. rewrite map_app, Zsum_app, map_map, IH. reflexivity.
Qed.

Lemma weighted_total_one (t : array4) (levels y x : Z) :
  weighted_total (fun _ _ => 1) t levels y x = pixel_total t levels y x.
Proof.
  unfold weighted_total, pixel_total, level_pairs.
  rewrite Zsum_list_prod. apply Zsum_map_ext. intros i _.
  apply Zsum_map_ext. intros j _. cbn [fst snd]. lia.
Qed.

Lemma Zsum_map_le {A : Type} (f g : A -> Z) (l : list A) :
  (forall a, In a l -> f a <= g a) ->
  cv2.Zsum (map f l) <= cv2.Zsum (map g l).
Proof.
  unfold cv2.Zsum. induction l as [|a l IH]; intros H; [simpl; lia|].
  cbn [map fold_right].
  assert (f a <= g a) by (apply H; now left).
  assert (fold_right Z.add 0 (map f l) <= fold_right Z.add 0 (map g l))
    by (apply IH; intros; apply H; now right).
  lia.
Qed.

Lemma Zsum_map_nonneg {A : Type} (f : A -> Z) (l : list A) :
  (forall a, In a l -> 0 <= f a) -> 0 <= cv2.Zsum (map f l).
Proof.
  intros H. pose proof (Zsum_map_le (fun _ => 0) f l H) as Hle.
  rewrite Zsum_map_const in Hle. lia.
Qed.

(** A reduced fraction with an integer value is that integer. *)
Lemma Qred_integer (q : Q) (z : Z) : (q == inject_Z z)%Q -> Qred q = inject_Z z.
Proof.
  intros Hq. rewrite (Qred_complete _ _ Hq).
  unfold Qred, inject_Z.
  pose proof (Z.ggcd_gcd z 1) as Hg.
  pose proof (Z.ggcd_correct_divisors z 1) as Hd.
  destruct (Z.ggcd z 1) as [g [aa bb]]. cbn [fst snd] in *.
  rewrite Z.gcd_1_r in Hg. subst g. destruct Hd as [Hz Hb].
  replace aa with z by lia. replace bb with 1 by lia. reflexivity.
Qed.

(** A sum of finite terms with an integer value is that integer. *)
Lemma fsum_exact_integer {A : Type} (term : A -> fval) (val : A -> Q)
    (l : list A) (v : Z) :
  (forall a, In a l -> exists q, term a = Fin q /\ (q == val a)%Q) ->
  (Qsum (map val l) == inject_Z v)%Q ->
  fsum (map term l) = of_Z v.
Proof.
  intros Hterm Hsum. unfold fsum, of_Z.
  destruct (rev l) as [|a r] eqn:Hrev.
  - assert (l = []) by (rewrite <- (rev_involutive l), Hrev; reflexivity).
    subst l. cbn [map Qsum fold_right fold_left] in *.
    unfold Qeq in Hsum. simpl in Hsum.
    assert (v = 0) by lia. subst v. reflexivity.
  - assert (Hl : l = rev r ++ [a])
      by (rewrite <- (rev_involutive l), Hrev; reflexivity).
    subst l. rewrite map_app, fold_left_app. cbn [map fold_left].
    destruct (fold_fadd_finite term val (rev r)) with (a0 := 0%Q)
      as [q0 [Hq0 Hv0]].
    { intros b Hb. apply Hterm. apply in_or_app. now left. }
    destruct (Hterm a) as [qa [Hqa Hva]]; [apply in_or_app; right; now left|].
    rewrite Hq0, Hqa. cbn [fadd]. f_equal. apply Qred_integer.
    rewrite <- Hsum, Hv0, Hva, map_app.
    assert (Happ : forall l1 l2 : list Q,
              (Qsum (l1 ++ l2) == Qsum l1 + Qsum l2)%Q).
    { induction l1 as [|c l1 IH]; intros l2; [simpl; ring|].
      cbn [app Qsum fold_right]. fold (Qsum (l1 ++ l2)). fold (Qsum l1).
      rewrite IH. ring. }
    rewrite Happ. simpl. ring.
Qed.

(** ** Counts in the tensor *)

(** The level pairs of one position: exactly one when both levels are
    valid, none otherwise. *)
Lemma indicator_pairs (gl1 gl2 : array2) (levels y x : Z) :
  cv2.Zsum (map (fun i =>
    cv2.Zsum (map (fun j => indicator gl1 gl2 i j y x) (range levels)))
    (range levels)) = valid_pair gl1 gl2 levels y x.
Proof.
  unfold valid_pair.
  destruct (Z.leb_spec 0 (get2 gl1 y x)) as [Ha0|Ha0];
    destruct (Z.ltb_spec (get2 gl1 y x) levels) as [Ha1|Ha1];
    destruct (Z.leb_spec 0 (get2 gl2 y x)) as [Hb0|Hb0];
    destruct (Z.ltb_spec (get2 gl2 y x) levels) as [Hb1|Hb1];
    cbn [andb];
    try (apply indicator_total; lia);
    (rewrite (Zsum_map_ext _ (fun _ => 0)); [rewrite Zsum_map_const; lia|];
     intros i Hi; apply In_range in Hi;
     rewrite (Zsum_map_ext _ (fun _ => 0)); [rewrite Zsum_map_const; lia|];
     intros j Hj; apply In_range in Hj; unfold indicator;
     destruct (Z.eqb_spec (get2 gl1 y x) i);
     destruct (Z.eqb_spec (get2 gl2 y x) j); cbn [andb]; lia).
Qed.

Lemma valid_pair_bounds (gl1 gl2 : array2) (levels y x : Z) :
  0 <= valid_pair gl1 gl2 levels y x <= 1.
Proof. unfold valid_pair. destruct (_ && _); lia. Qed.

(** The window counts of all level pairs add up to the number of positions
    of the window with a valid level pair. *)
Lemma window_count_total (gl1 gl2 : array2) (h w ks levels y x : Z) :
  cv2.Zsum (map (fun i => cv2.Zsum (map (fun j =>
    window_count gl1 gl2 h w ks i j y x) (range levels))) (range levels)) =
  window_valid gl1 gl2 h w ks levels y x.
Proof.
  unfold window_count, window_valid.
  rewrite (level_window_swap
             (fun i j ky kx => indicator gl1 gl2 i j
                (cv2.borderInterpolate_reflect101 (y + ky - ks / 2) h)
                (cv2.borderInterpolate_reflect101 (x + kx - ks / 2) w))).
  apply Zsum_map_ext. intros ky _. apply Zsum_map_ext. intros kx _.
  apply indicator_pairs.
Qed.

Lemma window_valid_bounds (gl1 gl2 : array2) (h w ks levels y x : Z) :
  0 <= ks -> 0 <= window_valid gl1 gl2 h w ks levels y x <= ks * ks.
Proof.
  intros Hks. unfold window_valid.
  pose proof (len_range ks) as Hlen.
  match goal with
  | |- _ <= cv2.Zsum (map ?f (range ks)) <= _ =>
      pose proof (Zsum_map_bounds f 0 ks (range ks)) as Hb
  end.
  rewrite Hlen in Hb. replace (Z.max 0 ks) with ks in Hb by lia.
  apply Hb. intros ky _.
  match goal with
  | |- _ <= cv2.Zsum (map ?f (range ks)) <= _ =>
      pose proof (Zsum_map_bounds f 0 1 (range ks)) as Hi
  end.
  rewrite Hlen in Hi. replace (Z.max 0 ks) with ks in Hi by lia.
  assert (Hgoal : 0 * ks <= cv2.Zsum
            (map (fun kx => valid_pair gl1 gl2 levels
                    (cv2.borderInterpolate_reflect101 (y + ky - ks / 2) h)
                    (cv2.borderInterpolate_reflect101 (x + kx - ks / 2) w))
               (range ks)) <= 1 * ks).
  { apply Hi. intros kx _. apply valid_pair_bounds. }
  lia.
Qed.

(** What every tensor returned by [fast_glcm] satisfies, whatever the
    image holds. *)
Lemma tensor_facts (img : array2) (vmin vmax levels ks h w : Z) (dx dy : Q) :
  is_shape2 h w img -> 1 <= h < 32767 -> 1 <= w < 32767 ->
  0 <= levels -> 1 <= ks ->
  exists gl1 gl2 t,
    digitize_levels img vmin vmax levels = Ok gl1 /\
    cv2.warpAffine gl1 (1%Q, 0%Q, (- dx)%Q, 0%Q, 1%Q, (- dy)%Q) (w, h)
      = Ok gl2 /\
    fast_glcm (np.Arr2 img) vmin vmax levels ks dx dy = Ok t /\
    is_shape4 levels levels h w t /\
    (forall i j y x,
       0 <= i < levels -> 0 <= j < levels -> 0 <= y < h -> 0 <= x < w ->
       get4 t i j y x = cv2.saturate_u8 (window_count gl1 gl2 h w ks i j y x) /\
       0 <= get4 t i j y x <= 255 /\
       get4 t i j y x <= window_count gl1 gl2 h w ks i j y x /\
       get4 t i j y x <= ks * ks) /\
    (forall y x, 0 <= y < h -> 0 <= x < w ->
       0 <= pixel_total t levels y x <= window_valid gl1 gl2 h w ks levels y x /\
       pixel_total t levels y x <= ks * ks).
Proof.
  intros Himg Hhb Hwb Hlv Hks.
  pose proof (proj1 Hhb) as Hh. pose proof (proj1 Hwb) as Hw.
  destruct (digitize_levels_total img vmin vmax levels Hlv) as [q Hdig].
  destruct (fast_glcm_tensor img (map (map q) img) vmin vmax levels ks h w dx dy)
    as [sy [sx [t [_ [Hwarp [Hcall [Ht Hget]]]]]]]; try assumption.
  { now apply is_shape2_map_map. }
  set (gl1 := map (map q) img) in *.
  set (gl2 := map (fun y => map (fun x => get2 gl1 (sy y x) (sx y x)) (range w))
                (range h)) in *.
  assert (Hentry : forall i j y x,
            0 <= i < levels -> 0 <= j < levels -> 0 <= y < h -> 0 <= x < w ->
            get4 t i j y x = cv2.saturate_u8 (window_count gl1 gl2 h w ks i j y x) /\
            0 <= get4 t i j y x <= 255 /\
            get4 t i j y x <= window_count gl1 gl2 h w ks i j y x /\
            get4 t i j y x <= ks * ks).
  { intros i j y x Hi Hj Hy Hx. rewrite (Hget i j y x) by assumption.
    pose proof (window_count_bounds gl1 gl2 h w ks i j y x ltac:(lia)).
    unfold cv2.saturate_u8. lia. }
  exists gl1, gl2, t. split; [exact Hdig|]. split; [exact Hwarp|].
  split; [exact Hcall|]. split; [exact Ht|]. split; [exact Hentry|].
  intros y x Hy Hx.
  pose proof (window_valid_bounds gl1 gl2 h w ks levels y x ltac:(lia)) as Hwv.
  rewrite <- window_count_total in *.
  assert (Hle : pixel_total t levels y x <=
                cv2.Zsum (map (fun i => cv2.Zsum (map (fun j =>
                  window_count gl1 gl2 h w ks i j y x) (range levels)))
                  (range levels))).
  { unfold pixel_total. apply Zsum_map_le. intros i Hi. apply In_range in Hi.
    apply Zsum_map_le. intros j Hj. apply In_range in Hj.
    now apply Hentry. }
  assert (H0 : 0 <= pixel_total t levels y x).
  { unfold pixel_total. apply Zsum_map_nonneg. intros i Hi. apply In_range in Hi.
    apply Zsum_map_nonneg. intros j Hj. apply In_range in Hj.
    now apply Hentry. }
  lia.
Qed.

(** X1.  Whatever a 2-D image with between 1 and 32766 rows and columns
    holds (pixels outside [vmin, vmax] included) and whatever the window
    size, the tensor has the shape (levels, levels, h, w), every entry is
    an integer in 0..255 and at most [kernel_size^2], and the tensor summed
    over all level pairs never exceeds [kernel_size^2] at any pixel. *)
Theorem tensor_counts_bounded (img : array2) (vmin vmax levels ks h w : Z)
    (dx dy : Q) :
  is_shape2 h w img -> 1 <= h < 32767 -> 1 <= w < 32767 ->
  0 <= levels -> 1 <= ks ->
  exists t,
    fast_glcm (np.Arr2 img) vmin vmax levels ks dx dy = Ok t /\
    is_shape4 levels levels h w t /\
    (forall i j y x,
       0 <= i < levels -> 0 <= j < levels -> 0 <= y < h -> 0 <= x < w ->
       0 <= get4 t i j y x <= 255 /\ get4 t i j y x <= ks * ks) /\
    (forall y x, 0 <= y < h -> 0 <= x < w ->
       0 <= pixel_total t levels y x <= ks * ks).
Proof.
  intros Himg Hhb Hwb Hlv Hks.
  pose proof (proj1 Hhb) as Hh. pose proof (proj1 Hwb) as Hw.
  destruct (tensor_facts img vmin vmax levels ks h w dx dy)
    as [gl1 [gl2 [t [_ [_ [Hcall [Ht [Hentry Htotal]]]]]]]]; try assumption.
  exists t. split; [exact Hcall|]. split; [exact Ht|]. split.
  - intros i j y x Hi Hj Hy Hx.
    destruct (Hentry i j y x Hi Hj Hy Hx) as [_ [H1 [_ H2]]]. now split.
  - intros y x Hy Hx. destruct (Htotal y x Hy Hx). lia.
Qed.

Lemma tensor_counts_bounded_witness :
  exists t,
    fast_glcm (np.Arr2 [[3; 250]; [120; 7]]) 100 200 4 17 1 0 = Ok t /\
    is_shape4 4 4 2 2 t /\
    (forall i j y x,
       0 <= i < 4 -> 0 <= j < 4 -> 0 <= y < 2 -> 0 <= x < 2 ->
       0 <= get4 t i j y x <= 255 /\ get4 t i j y x <= 17 * 17) /\
    (forall y x, 0 <= y < 2 -> 0 <= x < 2 ->
       0 <= pixel_total t 4 y x <= 17 * 17).
Proof.
  apply (tensor_counts_bounded [[3; 250]; [120; 7]] 100 200 4 17 2 2 1 0).
  - split; [reflexivity | repeat constructor].
  - lia.
  - lia.
  - lia.
  - lia.
Defined.

(** X2.  For [kernel_size <= 15] and a 2-D image with between 1 and 32766
    rows and columns, the tensor summed over all level pairs at a pixel is
    the number of positions of its window (reflected at the border) where
    both the level and the shifted level are valid levels: pixels outside
    [vmin, vmax] drop out of the counts silently. *)
Theorem pixel_total_counts_valid_pairs (img : array2)
    (vmin vmax levels ks h w : Z) (dx dy : Q) :
  is_shape2 h w img -> 1 <= h < 32767 -> 1 <= w < 32767 ->
  0 <= levels -> 1 <= ks <= 15 ->
  exists gl1 gl2 t,
    digitize_levels img vmin vmax levels = Ok gl1 /\
    cv2.warpAffine gl1 (1%Q, 0%Q, (- dx)%Q, 0%Q, 1%Q, (- dy)%Q) (w, h)
      = Ok gl2 /\
    fast_glcm (np.Arr2 img) vmin vmax levels ks dx dy = Ok t /\
    forall y x, 0 <= y < h -> 0 <= x < w ->
      pixel_total t levels y x = window_valid gl1 gl2 h w ks levels y x.
Proof.
  intros Himg Hhb Hwb Hlv Hks.
  pose proof (proj1 Hhb) as Hh. pose proof (proj1 Hwb) as Hw.
  destruct (tensor_facts img vmin vmax levels ks h w dx dy)
    as [gl1 [gl2 [t [Hdig [Hwarp [Hcall [_ [Hentry _]]]]]]]];
    try assumption; try lia.
  exists gl1, gl2, t. split; [exact Hdig|]. split; [exact Hwarp|].
  split; [exact Hcall|].
  intros y x Hy Hx. rewrite <- window_count_total. unfold pixel_total.
  apply Zsum_map_ext. intros i Hi. apply In_range in Hi.
  apply Zsum_map_ext. intros j Hj. apply In_range in Hj.
  destruct (Hentry i j y x Hi Hj Hy Hx) as [Heq _]. rewrite Heq.
  apply saturate_u8_small.
  pose proof (window_count_bounds gl1 gl2 h w ks i j y x ltac:(lia)). nia.
Qed.

Lemma pixel_total_counts_valid_pairs_witness :
  exists gl1 gl2 t,
    digitize_levels [[3; 250]; [120; 7]] 100 200 4 = Ok gl1 /\
    cv2.warpAffine gl1 (1%Q, 0%Q, (- 1)%Q, 0%Q, 1%Q, (- 0)%Q) (2, 2)
      = Ok gl2 /\
    fast_glcm (np.Arr2 [[3; 250]; [120; 7]]) 100 200 4 3 1 0 = Ok t /\
    forall y x, 0 <= y < 2 -> 0 <= x < 2 ->
      pixel_total t 4 y x = window_valid gl1 gl2 2 2 3 4 y x.
Proof.
  apply (pixel_total_counts_valid_pairs [[3; 250]; [120; 7]] 100 200 4 3 2 2 1 0).
  - split; [reflexivity | repeat constructor].
  - lia.
  - lia.
  - lia.
  - lia.
Defined.

(** ** Values of the weighted statistics *)

Lemma squared_difference_nonneg (i j : Z) : 0 <= squared_difference i j.
Proof. unfold squared_difference. rewrite Z.pow_2_r. apply Z.square_nonneg. Qed.

Lemma squared_difference_le (i j n : Z) :
  0 <= i < n -> 0 <= j < n -> squared_difference i j <= (n - 1) ^ 2.
Proof.
  intros Hi Hj. unfold squared_difference. rewrite !Z.pow_2_r.
  rewrite <- (Z.abs_square (i - j)).
  apply Z.mul_le_mono_nonneg; lia.
Qed.

Lemma absolute_le_squared (i j : Z) :
  absolute_difference i j <= squared_difference i j.
Proof.
  unfold absolute_difference, squared_difference. rewrite Z.pow_2_r.
  rewrite <- (Z.abs_square (i - j)).
  destruct (Z.eq_dec (Z.abs (i - j)) 0) as [->|Hne]; [lia|].
  assert (1 <= Z.abs (i - j)) by lia. nia.
Qed.

Lemma level_pairs_in (levels : Z) (p : Z * Z) :
  In p (level_pairs levels) ->
  0 <= fst p < levels /\ 0 <= snd p < levels.
Proof.
  destruct p as [i j]. intros Hp. apply in_prod_iff in Hp as [Hi Hj].
  apply In_range in Hi, Hj. now split.
Qed.

Lemma Zsum_map_scale {A : Type} (f : A -> Z) (c : Z) (l : list A) :
  cv2.Zsum (map (fun a => f a * c) l) = cv2.Zsum (map f l) * c.
Proof.
  unfold cv2.Zsum. induction l as [|a l IH]; [reflexivity|].
  cbn [map fold_right]. rewrite IH. lia.
Qed.

Lemma weighted_total_le (wt1 wt2 : Z -> Z -> Z) (t : array4) (levels y x : Z) :
  (forall i j, 0 <= i < levels -> 0 <= j < levels -> 0 <= get4 t i j y x) ->
  (forall i j, 0 <= i < levels -> 0 <= j < levels -> wt1 i j <= wt2 i j) ->
  weighted_total wt1 t levels y x <= weighted_total wt2 t levels y x.
Proof.
  intros Hpos Hwt. unfold weighted_total. apply Zsum_map_le.
  intros p Hp. destruct (level_pairs_in levels p Hp) as [Hi Hj].
  apply Z.mul_le_mono_nonneg_l; [now apply Hpos | now apply Hwt].
Qed.

Lemma weighted_total_const (c : Z) (t : array4) (levels y x : Z) :
  weighted_total (fun _ _ => c) t levels y x = pixel_total t levels y x * c.
Proof.
  rewrite <- weighted_total_one. unfold weighted_total.
  rewrite <- Zsum_map_scale. apply Zsum_map_ext. intros p _. lia.
Qed.

(** A sum of tensor entries times integer weights is that integer. *)
Lemma integer_weighted_sum (wt : Z -> Z -> Z) (t : array4) (levels y x : Z) :
  fsum (map (fun p => fmul (of_Z (get4 t (fst p) (snd p) y x))
                        (of_Z (wt (fst p) (snd p))))
          (level_pairs levels)) =
  of_Z (weighted_total wt t levels y x).
Proof.
  apply (fsum_exact_integer _
           (fun p => inject_Z (get4 t (fst p) (snd p) y x * wt (fst p) (snd p)))).
  - intros p _. eexists. split; [reflexivity|].
    rewrite Qred_correct, inject_Z_mult. reflexivity.
  - apply (Qsum_inject_Z
             (fun p => get4 t (fst p) (snd p) y x * wt (fst p) (snd p))).
Qed.

Lemma contrast_value (img : array2) (vmin vmax levels ks h w : Z) (dx dy : Q) :
  is_shape2 h w img -> 1 <= h < 32767 -> 1 <= w < 32767 ->
  0 <= levels -> 1 <= ks ->
  exists t c,
    fast_glcm (np.Arr2 img) vmin vmax levels ks dx dy = Ok t /\
    contrast (np.Arr2 img) vmin vmax levels ks dx dy = Ok c /\
    is_shape2 h w c /\
    forall y x, 0 <= y < h -> 0 <= x < w ->
      fget2 c y x = of_Z (weighted_total squared_difference t levels y x).
Proof.
  intros Himg Hhb Hwb Hlv Hks.
  pose proof (proj1 Hhb) as Hh. pose proof (proj1 Hwb) as Hw.
  destruct (weighted_statistic (fun i j v => fmul v (of_Z ((i - j) ^ 2)))
              img vmin vmax levels ks h w dx dy)
    as [t [c [Hcall [Hstat [Hshape Hval]]]]]; try assumption.
  exists t, c. split; [exact Hcall|]. split; [exact Hstat|].
  split; [exact Hshape|].
  intros y x Hy Hx. rewrite (Hval y x Hy Hx).
  apply (integer_weighted_sum squared_difference).
Qed.

Lemma dissimilarity_value (img : array2) (vmin vmax levels ks h w : Z)
    (dx dy : Q) :
  is_shape2 h w img -> 1 <= h < 32767 -> 1 <= w < 32767 ->
  0 <= levels -> 1 <= ks ->
  exists t d,
    fast_glcm (np.Arr2 img) vmin vmax levels ks dx dy = Ok t /\
    dissimilarity (np.Arr2 img) vmin vmax levels ks dx dy = Ok d /\
    is_shape2 h w d /\
    forall y x, 0 <= y < h -> 0 <= x < w ->
      fget2 d y x = of_Z (weighted_total absolute_difference t levels y x).
Proof.
  intros Himg Hhb Hwb Hlv Hks.
  pose proof (proj1 Hhb) as Hh. pose proof (proj1 Hwb) as Hw.
  destruct (weighted_statistic (fun i j v => fmul v (of_Z (Z.abs (i - j))))
              img vmin vmax levels ks h w dx dy)
    as [t [d [Hcall [Hstat [Hshape Hval]]]]]; try assumption.
  exists t, d. split; [exact Hcall|]. split; [exact Hstat|].
  split; [exact Hshape|].
  intros y x Hy Hx. rewrite (Hval y x Hy Hx).
  apply (integer_weighted_sum absolute_difference).
Qed.

(** The tensor of a call has non-negative entries and sums to at most
    [kernel_size^2]. *)
Lemma tensor_of_call (img : array2) (vmin vmax levels ks h w : Z) (dx dy : Q)
    (t : array4) :
  is_shape2 h w img -> 1 <= h < 32767 -> 1 <= w < 32767 ->
  0 <= levels -> 1 <= ks ->
  fast_glcm (np.Arr2 img) vmin vmax levels ks dx dy = Ok t ->
  forall y x, 0 <= y < h -> 0 <= x < w ->
    (forall i j, 0 <= i < levels -> 0 <= j < levels ->
       0 <= get4 t i j y x <= 255) /\
    0 <= pixel_total t levels y x <= ks * ks.
Proof.
  intros Himg Hhb Hwb Hlv Hks Hcall y x Hy Hx.
  pose proof (proj1 Hhb) as Hh. pose proof (proj1 Hwb) as Hw.
  destruct (tensor_facts img vmin vmax levels ks h w dx dy)
    as [gl1 [gl2 [t' [_ [_ [Hcall' [_ [Hentry Htotal]]]]]]]]; try assumption.
  rewrite Hcall in Hcall'. inversion Hcall'; subst t'. split.
  - intros i j Hi Hj. now destruct (Hentry i j y x Hi Hj Hy Hx) as [_ [H _]].
  - destruct (Htotal y x Hy Hx). lia.
Qed.

(** X3.  On a 2-D image with between 1 and 32766 rows and columns, and
    while [(levels-1)^2 * kernel_size^2] stays below [2^24] (the integers
    that [float32] holds exactly), [contrast] returns an image of the shape
    of its input that holds, at every pixel, the integer sum over all level
    pairs of [tensor[i,j] * (i-j)^2]; that sum is never negative and at most
    [(levels-1)^2 * kernel_size^2]. *)
Theorem contrast_is_weighted_count (img : array2)
    (vmin vmax levels ks h w : Z) (dx dy : Q) :
  is_shape2 h w img -> 1 <= h < 32767 -> 1 <= w < 32767 ->
  0 <= levels -> 1 <= ks -> (levels - 1) ^ 2 * (ks * ks) < 2 ^ 24 ->
  exists t c,
    fast_glcm (np.Arr2 img) vmin vmax levels ks dx dy = Ok t /\
    contrast (np.Arr2 img) vmin vmax levels ks dx dy = Ok c /\
    is_shape2 h w c /\
    forall y x, 0 <= y < h -> 0 <= x < w ->
      fget2 c y x = of_Z (weighted_total squared_difference t levels y x) /\
      0 <= weighted_total squared_difference t levels y x
        <= (levels - 1) ^ 2 * (ks * ks).
Proof.
  intros Himg Hhb Hwb Hlv Hks _.
  destruct (contrast_value img vmin vmax levels ks h w dx dy)
    as [t [c [Hcall [Hstat [Hshape Hval]]]]]; try assumption.
  exists t, c. split; [exact Hcall|]. split; [exact Hstat|].
  split; [exact Hshape|].
  intros y x Hy Hx. split; [exact (Hval y x Hy Hx)|].
  destruct (tensor_of_call img vmin vmax levels ks h w dx dy t
              Himg Hhb Hwb Hlv Hks Hcall y x Hy Hx) as [Hentry Htotal].
  assert (Hpos : forall i j, 0 <= i < levels -> 0 <= j < levels ->
                   0 <= get4 t i j y x)
    by (intros i j Hi Hj; destruct (Hentry i j Hi Hj); lia).
  split.
  - rewrite <- (Z.mul_0_r (pixel_total t levels y x)).
    rewrite <- (weighted_total_const 0). apply weighted_total_le; [exact Hpos|].
    intros i j _ _. apply squared_difference_nonneg.
  - transitivity (weighted_total (fun _ _ => (levels - 1) ^ 2) t levels y x).
    + apply weighted_total_le; [exact Hpos|]. intros i j Hi Hj.
      now apply squared_difference_le.
    + rewrite weighted_total_const.
      assert (0 <= (levels - 1) ^ 2)
        by (rewrite Z.pow_2_r; apply Z.square_nonneg).
      rewrite Z.mul_comm. apply Z.mul_le_mono_nonneg_l; lia.
Qed.

Lemma contrast_is_weighted_count_witness :
  exists t c,
    fast_glcm (np.Arr2 [[0; 90]; [200; 255]]) 0 255 8 3 1 0 = Ok t /\
    contrast (np.Arr2 [[0; 90]; [200; 255]]) 0 255 8 3 1 0 = Ok c /\
    is_shape2 2 2 c /\
    forall y x, 0 <= y < 2 -> 0 <= x < 2 ->
      fget2 c y x = of_Z (weighted_total squared_difference t 8 y x) /\
      0 <= weighted_total squared_difference t 8 y x <= (8 - 1) ^ 2 * (3 * 3).
Proof.
  apply (contrast_is_weighted_count [[0; 90]; [200; 255]] 0 255 8 3 2 2 1 0).
  - split; [reflexivity | repeat constructor].
  - lia.
  - lia.
  - lia.
  - lia.
  - reflexivity.
Defined.

(** X4.  Under the same conditions, [dissimilarity] returns, at every
    pixel, the integer sum over all level pairs of [tensor[i,j] * |i-j|];
    it is never negative and never exceeds [contrast] at the same pixel. *)
Theorem dissimilarity_below_contrast (img : array2)
    (vmin vmax levels ks h w : Z) (dx dy : Q) :
  is_shape2 h w img -> 1 <= h < 32767 -> 1 <= w < 32767 ->
  0 <= levels -> 1 <= ks -> (levels - 1) ^ 2 * (ks * ks) < 2 ^ 24 ->
  exists t d c,
    fast_glcm (np.Arr2 img) vmin vmax levels ks dx dy = Ok t /\
    dissimilarity (np.Arr2 img) vmin vmax levels ks dx dy = Ok d /\
    contrast (np.Arr2 img) vmin vmax levels ks dx dy = Ok c /\
    is_shape2 h w d /\
    is_shape2 h w c /\
    forall y x, 0 <= y < h -> 0 <= x < w ->
      fget2 d y x = of_Z (weighted_total absolute_difference t levels y x) /\
      fget2 c y x = of_Z (weighted_total squared_difference t levels y x) /\
      0 <= weighted_total absolute_difference t levels y x
        <= weighted_total squared_difference t levels y x.
Proof.
  intros Himg Hhb Hwb Hlv Hks _.
  destruct (dissimilarity_value img vmin vmax levels ks h w dx dy)
    as [t [d [Hcall [Hd [Hdshape Hdv]]]]]; try assumption.
  destruct (contrast_value img vmin vmax levels ks h w dx dy)
    as [t' [c [Hcall' [Hc [Hcshape Hcv]]]]]; try assumption.
  rewrite Hcall in Hcall'. inversion Hcall'; subst t'. clear Hcall'.
  exists t, d, c. split; [exact Hcall|]. split; [exact Hd|]. split; [exact Hc|].
  split; [exact Hdshape|]. split; [exact Hcshape|].
  intros y x Hy Hx.
  split; [exact (Hdv y x Hy Hx)|]. split; [exact (Hcv y x Hy Hx)|].
  destruct (tensor_of_call img vmin vmax levels ks h w dx dy t
              Himg Hhb Hwb Hlv Hks Hcall y x Hy Hx) as [Hentry _].
  assert (Hpos : forall i j, 0 <= i < levels -> 0 <= j < levels ->
                   0 <= get4 t i j y x)
    by (intros i j Hi Hj; destruct (Hentry i j Hi Hj); lia).
  split.
  - rewrite <- (Z.mul_0_r (pixel_total t levels y x)).
    rewrite <- (weighted_total_const 0). apply weighted_total_le; [exact Hpos|].
    intros i j _ _. unfold absolute_difference. lia.
  - apply weighted_total_le; [exact Hpos|]. intros i j _ _.
    apply absolute_le_squared.
Qed.

Lemma dissimilarity_below_contrast_witness :
  exists t d c,
    fast_glcm (np.Arr2 [[0; 90]; [200; 255]]) 0 255 8 3 1 0 = Ok t /\
    dissimilarity (np.Arr2 [[0; 90]; [200; 255]]) 0 255 8 3 1 0 = Ok d /\
    contrast (np.Arr2 [[0; 90]; [200; 255]]) 0 255 8 3 1 0 = Ok c /\
    is_shape2 2 2 d /\
    is_shape2 2 2 c /\
    forall y x, 0 <= y < 2 -> 0 <= x < 2 ->
      fget2 d y x = of_Z (weighted_total absolute_difference t 8 y x) /\
      fget2 c y x = of_Z (weighted_total squared_difference t 8 y x) /\
      0 <= weighted_total absolute_difference t 8 y x
        <= weighted_total squared_difference t 8 y x.
Proof.
  apply (dissimilarity_below_contrast [[0; 90]; [200; 255]] 0 255 8 3 2 2 1 0).
  - split; [reflexivity | repeat constructor].
  - lia.
  - lia.
  - lia.
  - lia.
  - reflexivity.
Defined.

Lemma Qsum_zero {A : Type} (l : list A) : (Qsum (map (fun _ => 0%Q) l) == 0)%Q.
Proof.
  induction l as [|a l IH]; [reflexivity|].
  cbn [map Qsum fold_right]. fold (Qsum (map (fun _ : A => 0%Q) l)).
  rewrite IH. ring.
Qed.

Lemma homogeneity_term (a d : Z) :
  0 <= a -> 0 <= d ->
  exists q,
    fdiv (of_Z a) (fadd (Fin 1) (of_Z d)) = Fin q /\
    (q == inject_Z a / (1 + inject_Z d))%Q /\
    (0 <= q <= inject_Z a)%Q.
Proof.
  intros Ha Hd.
  assert (Hdq : (0 <= inject_Z d)%Q)
    by (change 0%Q with (inject_Z 0); rewrite <- Zle_Qle; exact Hd).
  assert (Haq : (0 <= inject_Z a)%Q)
    by (change 0%Q with (inject_Z 0); rewrite <- Zle_Qle; exact Ha).
  unfold of_Z. cbn [fadd fdiv].
  destruct (Qeq_bool (Qred (1 + inject_Z d)) 0) eqn:E.
  - apply Qeq_bool_iff in E. rewrite Qred_correct in E. lra.
  - eexists. split; [reflexivity|].
    assert (Hv : (Qred (inject_Z a / Qred (1 + inject_Z d)) ==
                  inject_Z a / (1 + inject_Z d))%Q)
      by (rewrite Qred_correct, Qred_correct; reflexivity).
    split; [exact Hv|]. rewrite Hv. split.
    + apply Qle_shift_div_l; lra.
    + apply Qle_shift_div_r; [lra|].
      assert (0 <= inject_Z a * inject_Z d)%Q by now apply Qmult_le_0_compat.
      setoid_replace (inject_Z a * (1 + inject_Z d))%Q
        with (inject_Z a + inject_Z a * inject_Z d)%Q by ring.
      lra.
Qed.

(** X5.  On a 2-D image with between 1 and 32766 rows and columns and for
    [kernel_size <= 4096] (window counts that [float32] holds exactly),
    [homogeneity] returns an image of the shape of its input whose value at
    every pixel is finite and lies between 0 and the tensor summed over all
    level pairs at that pixel, itself at most [kernel_size^2]: dividing by
    [1 + (i-j)^2] only ever removes weight. *)
Theorem homogeneity_bounded_by_total (img : array2)
    (vmin vmax levels ks h w : Z) (dx dy : Q) :
  is_shape2 h w img -> 1 <= h < 32767 -> 1 <= w < 32767 ->
  0 <= levels -> 1 <= ks <= 4096 ->
  exists t hm,
    fast_glcm (np.Arr2 img) vmin vmax levels ks dx dy = Ok t /\
    homogeneity (np.Arr2 img) vmin vmax levels ks dx dy = Ok hm /\
    is_shape2 h w hm /\
    forall y x, 0 <= y < h -> 0 <= x < w ->
      exists q, fget2 hm y x = Fin q /\
        (0 <= q <= inject_Z (pixel_total t levels y x))%Q /\
        pixel_total t levels y x <= ks * ks.
Proof.
  intros Himg Hhb Hwb Hlv [Hks _].
  destruct (weighted_statistic
              (fun i j v => fdiv v (fadd (Fin 1) (of_Z ((i - j) ^ 2))))
              img vmin vmax levels ks h w dx dy)
    as [t [hm [Hcall [Hstat [Hshape Hval]]]]]; try assumption.
  exists t, hm. split; [exact Hcall|]. split; [exact Hstat|].
  split; [exact Hshape|].
  intros y x Hy Hx. rewrite (Hval y x Hy Hx).
  destruct (tensor_of_call img vmin vmax levels ks h w dx dy t
              Himg Hhb Hwb Hlv Hks Hcall y x Hy Hx) as [Hentry Htotal].
  assert (Hterm : forall p, In p (level_pairs levels) ->
            exists q,
              fdiv (of_Z (get4 t (fst p) (snd p) y x))
                (fadd (Fin 1) (of_Z (squared_difference (fst p) (snd p)))) = Fin q /\
              (q == inject_Z (get4 t (fst p) (snd p) y x) /
                    (1 + inject_Z (squared_difference (fst p) (snd p))))%Q /\
              (0 <= q <= inject_Z (get4 t (fst p) (snd p) y x))%Q).
  { intros p Hp. destruct (level_pairs_in levels p Hp) as [Hi Hj].
    apply homogeneity_term.
    - destruct (Hentry (fst p) (snd p) Hi Hj). lia.
    - apply squared_difference_nonneg. }
  destruct (fsum_finite
              (fun p => fdiv (of_Z (get4 t (fst p) (snd p) y x))
                          (fadd (Fin 1) (of_Z ((fst p - snd p) ^ 2))))
              (fun p => (inject_Z (get4 t (fst p) (snd p) y x) /
                         (1 + inject_Z (squared_difference (fst p) (snd p))))%Q)
              (level_pairs levels)) as [q [Hq Hv]].
  { intros p Hp. destruct (Hterm p Hp) as [qp [Hqp [Hvp _]]]. now exists qp. }
  exists q. split; [exact Hq|]. split; [|lia].
  rewrite Hv.
  pose proof (Qsum_bounds
                (fun p => (inject_Z (get4 t (fst p) (snd p) y x) /
                           (1 + inject_Z (squared_difference (fst p) (snd p))))%Q)
                (fun _ => 0%Q)
                (fun p => inject_Z (get4 t (fst p) (snd p) y x))
                (level_pairs levels)) as Hb.
  rewrite Qsum_zero in Hb.
  rewrite (Qsum_inject_Z (fun p => get4 t (fst p) (snd p) y x)) in Hb.
  replace (cv2.Zsum (map (fun p => get4 t (fst p) (snd p) y x) (level_pairs levels)))
    with (pixel_total t levels y x) in Hb.
  - apply Hb. intros p Hp. destruct (Hterm p Hp) as [qp [_ [Hvp Hbp]]].
    rewrite <- Hvp. exact Hbp.
  - rewrite <- weighted_total_one. unfold weighted_total.
    apply Zsum_map_ext. intros p _. lia.
Qed.

Lemma homogeneity_bounded_by_total_witness :
  exists t hm,
    fast_glcm (np.Arr2 [[0; 90]; [200; 255]]) 0 255 8 3 1 0 = Ok t /\
    homogeneity (np.Arr2 [[0; 90]; [200; 255]]) 0 255 8 3 1 0 = Ok hm /\
    is_shape2 2 2 hm /\
    forall y x, 0 <= y < 2 -> 0 <= x < 2 ->
      exists q, fget2 hm y x = Fin q /\
        (0 <= q <= inject_Z (pixel_total t 8 y x))%Q /\
        pixel_total t 8 y x <= 3 * 3.
Proof.
  apply (homogeneity_bounded_by_total [[0; 90]; [200; 255]] 0 255 8 3 2 2 1 0).
  - split; [reflexivity | repeat constructor].
  - lia.
  - lia.
  - lia.
  - lia.
Defined.

Lemma mean_term (a i n : Z) :
  1 <= n ->
  exists q,
    fdiv (fmul (of_Z a) (of_Z i)) (of_Z n) = Fin q /\
    (q == inject_Z (a * i) * / inject_Z n)%Q.
Proof.
  intros Hn. unfold of_Z. cbn [fmul fdiv].
  destruct (Qeq_bool (inject_Z n) 0) eqn:E.
  - apply Qeq_bool_iff in E. unfold Qeq in E. simpl in E. lia.
  - eexists. split; [reflexivity|].
    rewrite Qred_correct, Qred_correct, inject_Z_mult. reflexivity.
Qed.

Lemma mean_value (img : array2) (vmin vmax levels ks h w : Z) (dx dy : Q) :
  is_shape2 h w img -> 1 <= h < 32767 -> 1 <= w < 32767 ->
  1 <= levels -> 1 <= ks ->
  exists t m,
    fast_glcm (np.Arr2 img) vmin vmax levels ks dx dy = Ok t /\
    mean (np.Arr2 img) vmin vmax levels ks dx dy = Ok m /\
    is_shape2 h w m /\
    forall y x, 0 <= y < h -> 0 <= x < w ->
      exists q, fget2 m y x = Fin q /\
        (q * inject_Z (levels ^ 2) ==
         inject_Z (weighted_total row_level t levels y x))%Q.
Proof.
  intros Himg Hhb Hwb Hlv Hks.
  pose proof (proj1 Hhb) as Hh. pose proof (proj1 Hwb) as Hw.
  destruct (weighted_statistic
              (fun i j v => fdiv (fmul v (of_Z i)) (of_Z (levels ^ 2)))
              img vmin vmax levels ks h w dx dy)
    as [t [m [Hcall [Hstat [Hshape Hval]]]]]; try assumption; try lia.
  exists t, m. split; [exact Hcall|]. split; [exact Hstat|].
  split; [exact Hshape|].
  intros y x Hy Hx. rewrite (Hval y x Hy Hx).
  assert (Hn : 1 <= levels ^ 2) by (rewrite Z.pow_2_r; nia).
  destruct (fsum_finite
              (fun p => fdiv (fmul (of_Z (get4 t (fst p) (snd p) y x))
                                (of_Z (fst p))) (of_Z (levels ^ 2)))
              (fun p => (inject_Z (get4 t (fst p) (snd p) y x *
                                   row_level (fst p) (snd p)) *
                         / inject_Z (levels ^ 2))%Q)
              (level_pairs levels)) as [q [Hq Hv]].
  { intros p _. now apply mean_term. }
  exists q. split; [exact Hq|].
  rewrite Hv.
  rewrite (Qsum_scale
             (fun p => inject_Z (get4 t (fst p) (snd p) y x *
                                 row_level (fst p) (snd p)))).
  rewrite (Qsum_inject_Z
             (fun p => get4 t (fst p) (snd p) y x * row_level (fst p) (snd p))).
  fold (weighted_total row_level t levels y x).
  field. change 0%Q with (inject_Z 0). rewrite inject_Z_injective. lia.
Qed.

(** X6.  When [levels] is a power of two (8, the default, is one) and
    [(levels-1) * kernel_size^2] stays below [2^24] (so that dividing by
    [levels^2] and adding are exact in [float32]), [mean] returns on a 2-D
    image with between 1 and 32766 rows and columns an image of the same
    shape whose value [q] at every pixel is finite, with [q * levels^2]
    equal to the integer sum over all level pairs of [tensor[i,j] * i];
    that sum lies between 0 and [(levels-1) * kernel_size^2]. *)
Theorem mean_is_weighted_count (img : array2)
    (vmin vmax levels ks h w k : Z) (dx dy : Q) :
  is_shape2 h w img -> 1 <= h < 32767 -> 1 <= w < 32767 ->
  0 <= k -> levels = 2 ^ k -> 1 <= ks ->
  (levels - 1) * (ks * ks) < 2 ^ 24 ->
  exists t m,
    fast_glcm (np.Arr2 img) vmin vmax levels ks dx dy = Ok t /\
    mean (np.Arr2 img) vmin vmax levels ks dx dy = Ok m /\
    is_shape2 h w m /\
    forall y x, 0 <= y < h -> 0 <= x < w ->
      exists q, fget2 m y x = Fin q /\
        (q * inject_Z (levels ^ 2) ==
         inject_Z (weighted_total row_level t levels y x))%Q /\
        0 <= weighted_total row_level t levels y x <= (levels - 1) * (ks * ks).
Proof.
  intros Himg Hhb Hwb Hk Hpow Hks _.
  assert (Hlv : 1 <= levels).
  { pose proof (Z.pow_pos_nonneg 2 k ltac:(lia) Hk). lia. }
  destruct (mean_value img vmin vmax levels ks h w dx dy)
    as [t [m [Hcall [Hstat [Hshape Hval]]]]]; try assumption.
  exists t, m. split; [exact Hcall|]. split; [exact Hstat|].
  split; [exact Hshape|].
  intros y x Hy Hx. destruct (Hval y x Hy Hx) as [q [Hq Hv]].
  exists q. split; [exact Hq|]. split; [exact Hv|].
  destruct (tensor_of_call img vmin vmax levels ks h w dx dy t
              Himg Hhb Hwb ltac:(lia) Hks Hcall y x Hy Hx) as [Hentry Htotal].
  assert (Hpos : forall i j, 0 <= i < levels -> 0 <= j < levels ->
                   0 <= get4 t i j y x)
    by (intros i j Hi Hj; destruct (Hentry i j Hi Hj); lia).
  split.
  - rewrite <- (Z.mul_0_r (pixel_total t levels y x)).
    rewrite <- (weighted_total_const 0). apply weighted_total_le; [exact Hpos|].
    intros i j Hi _. unfold row_level. lia.
  - transitivity (weighted_total (fun _ _ => levels - 1) t levels y x).
    + apply weighted_total_le; [exact Hpos|]. intros i j Hi _.
      unfold row_level. lia.
    + rewrite weighted_total_const. rewrite Z.mul_comm.
      apply Z.mul_le_mono_nonneg_l; lia.
Qed.

Lemma mean_is_weighted_count_witness :
  exists t m,
    fast_glcm (np.Arr2 [[0; 90]; [200; 255]]) 0 255 8 3 1 0 = Ok t /\
    mean (np.Arr2 [[0; 90]; [200; 255]]) 0 255 8 3 1 0 = Ok m /\
    is_shape2 2 2 m /\
    forall y x, 0 <= y < 2 -> 0 <= x < 2 ->
      exists q, fget2 m y x = Fin q /\
        (q * inject_Z (8 ^ 2) == inject_Z (weighted_total row_level t 8 y x))%Q /\
        0 <= weighted_total row_level t 8 y x <= (8 - 1) * (3 * 3).
Proof.
  apply (mean_is_weighted_count [[0; 90]; [200; 255]] 0 255 8 3 2 2 3 1 0).
  - split; [reflexivity | repeat constructor].
  - lia.
  - lia.
  - lia.
  - reflexivity.
  - lia.
  - reflexivity.
Defined.

(** ** The shifted level map for an integer offset *)

Lemma cvRound_integer (q : Q) (z : Z) : (q == inject_Z z)%Q -> cv2.cvRound q = z.
Proof.
  intros Hq. unfold cv2.cvRound.
  assert (Hf : Qfloor q = z) by (rewrite Hq; apply Qfloor_Z).
  rewrite Hf.
  destruct (Qcompare_spec (q - inject_Z z) (1 # 2)) as [E|E|E];
    [lra | reflexivity | lra].
Qed.

Lemma saturate_int_small (v : Z) :
  - 2147483648 <= v <= 2147483647 -> cv2.saturate_int v = v.
Proof. unfold cv2.saturate_int. lia. Qed.

Lemma wrap_int_small (v : Z) :
  - 2147483648 <= v <= 2147483647 -> cv2.wrap_int v = v.
Proof.
  intros Hv. unfold cv2.wrap_int.
  rewrite Z.mod_small by lia. lia.
Qed.

Lemma clip_saturate_short (v n : Z) :
  1 <= n <= 32768 -> cv2.clip (cv2.saturate_short v) 0 n = cv2.clip v 0 n.
Proof.
  intros Hn. unfold cv2.clip, cv2.saturate_short.
  destruct (Z.leb_spec 0 (Z.max (-32768) (Z.min 32767 v)));
    destruct (Z.ltb_spec (Z.max (-32768) (Z.min 32767 v)) n);
    destruct (Z.leb_spec 0 v); destruct (Z.ltb_spec v n); lia.
Qed.

Lemma fixed_point_round (k : Z) :
  Z.shiftr (k * 1024 + 512) cv2.AB_BITS = k.
Proof.
  unfold cv2.AB_BITS. rewrite Z.shiftr_div_pow2 by lia.
  change (2 ^ 10) with 1024. symmetry.
  apply (Z.div_unique (k * 1024 + 512) 1024 k 512); lia.
Qed.

(** For an integer offset [(a, b)] the shifted map is [gl1] sampled at
    [(x + a, y + b)], clamped to the image. *)
Lemma warpAffine_integer_offset (gl1 : array2) (h w a b : Z) :
  is_shape2 h w gl1 -> 1 <= h < 32767 -> 1 <= w < 32767 ->
  Z.abs a <= 1000000 -> Z.abs b <= 1000000 ->
  cv2.warpAffine gl1
    (1%Q, 0%Q, (- inject_Z a)%Q, 0%Q, 1%Q, (- inject_Z b)%Q) (w, h)
  = Ok (shifted gl1 h w a b).
Proof.
  intros Hgl1 Hh Hw Ha Hb.
  destruct (ncols_shape h w gl1 Hgl1 ltac:(lia)) as [Hc Hr].
  unfold cv2.warpAffine, cv2.SHRT_MAX, shifted. rewrite Hc, Hr.
  destruct (Z.leb_spec w 0); [lia|]. destruct (Z.leb_spec h 0); [lia|].
  destruct (Z.leb_spec 32767 w); [lia|]. destruct (Z.leb_spec 32767 h); [lia|].
  cbn [orb]. f_equal.
  apply map_ext_in. intros y Hy. apply In_range in Hy.
  apply map_ext_in. intros x Hx. apply In_range in Hx.
  change (Qeq_bool (1 * 1 - 0 * 0) 0) with false. cbv iota.
  assert (Hax : cv2.cvRound (1 * (1 / (1 * 1 - 0 * 0)) * inject_Z x *
                             inject_Z cv2.AB_SCALE) = x * 1024).
  { apply cvRound_integer. rewrite inject_Z_mult.
    change (inject_Z cv2.AB_SCALE) with (inject_Z 1024). field. }
  assert (Hbx : cv2.cvRound (0 * - (1 / (1 * 1 - 0 * 0)) * inject_Z x *
                             inject_Z cv2.AB_SCALE) = 0).
  { apply cvRound_integer. change (inject_Z 0) with 0%Q. field. }
  assert (HX0 : cv2.cvRound
                  ((0 * - (1 / (1 * 1 - 0 * 0)) * inject_Z y +
                    (- (1 * (1 / (1 * 1 - 0 * 0))) * - inject_Z a -
                     0 * - (1 / (1 * 1 - 0 * 0)) * - inject_Z b)) *
                   inject_Z cv2.AB_SCALE) = a * 1024).
  { apply cvRound_integer. rewrite inject_Z_mult.
    change (inject_Z cv2.AB_SCALE) with (inject_Z 1024). field. }
  assert (HY0 : cv2.cvRound
                  ((1 * (1 / (1 * 1 - 0 * 0)) * inject_Z y +
                    (- (0 * - (1 / (1 * 1 - 0 * 0))) * - inject_Z a -
                     1 * (1 / (1 * 1 - 0 * 0)) * - inject_Z b)) *
                   inject_Z cv2.AB_SCALE) = (y + b) * 1024).
  { apply cvRound_integer. rewrite inject_Z_mult, inject_Z_plus.
    change (inject_Z cv2.AB_SCALE) with (inject_Z 1024). field. }
  rewrite Hax, Hbx, HX0, HY0.
  change (cv2.AB_SCALE / 2) with 512.
  rewrite !saturate_int_small by lia.
  rewrite !wrap_int_small by (rewrite ?wrap_int_small by lia; lia).
  replace (a * 1024 + 512 + x * 1024) with ((x + a) * 1024 + 512) by lia.
  replace ((y + b) * 1024 + 512 + 0) with ((y + b) * 1024 + 512) by lia.
  rewrite !fixed_point_round.
  now rewrite !clip_saturate_short by lia.
Qed.

Lemma clip_inside (v n : Z) : 0 <= v < n -> cv2.clip v 0 n = v.
Proof.
  intros Hv. unfold cv2.clip.
  destruct (Z.leb_spec 0 v); destruct (Z.ltb_spec v n); lia.
Qed.

Lemma get2_shifted (gl1 : array2) (h w a b y x : Z) :
  0 <= y < h -> 0 <= x < w ->
  get2 (shifted gl1 h w a b) y x =
  get2 gl1 (cv2.clip (y + b) 0 h) (cv2.clip (x + a) 0 w).
Proof.
  intros Hy Hx. unfold shifted.
  now rewrite (get2_map_range
                 (fun y x => get2 gl1 (cv2.clip (y + b) 0 h) (cv2.clip (x + a) 0 w))).
Qed.

Lemma integer_offset_tensor (img : array2) (vmin vmax levels ks h w a b : Z) :
  is_shape2 h w img -> 1 <= h < 32767 -> 1 <= w < 32767 ->
  0 <= levels -> 1 <= ks -> Z.abs a <= 1000000 -> Z.abs b <= 1000000 ->
  exists gl1 t,
    digitize_levels img vmin vmax levels = Ok gl1 /\
    is_shape2 h w gl1 /\
    fast_glcm (np.Arr2 img) vmin vmax levels ks (inject_Z a) (inject_Z b) = Ok t /\
    forall i j y x,
      0 <= i < levels -> 0 <= j < levels -> 0 <= y < h -> 0 <= x < w ->
      get4 t i j y x =
      cv2.saturate_u8
        (window_count gl1 (shifted gl1 h w a b) h w ks i j y x).
Proof.
  intros Himg Hh Hw Hlv Hks Ha Hb.
  destruct (digitize_levels_total img vmin vmax levels Hlv) as [q Hdig].
  assert (Hgl1 : is_shape2 h w (map (map q) img)) by now apply is_shape2_map_map.
  destruct (fast_glcm_tensor img (map (map q) img) vmin vmax levels ks h w
              (inject_Z a) (inject_Z b))
    as [sy [sx [t [_ [Hwarp [Hcall [_ Hget]]]]]]]; try assumption; try lia.
  rewrite (warpAffine_integer_offset _ h w a b Hgl1 Hh Hw Ha Hb) in Hwarp.
  inversion Hwarp as [Hshift]. rewrite <- Hshift in Hget.
  exists (map (map q) img), t. split; [exact Hdig|]. split; [exact Hgl1|].
  split; [exact Hcall|]. exact Hget.
Qed.

(** X7.  For an integer offset [(a, b)] of at most 1000000 pixels in each
    direction (for instance distance 1 at angle 0, [(1, 0)]), on a 2-D
    image with between 1 and 32766 rows and columns, the entry
    [tensor[i,j]] at a pixel is the saturated number of positions [p] of its
    window with [gl1(p) = i] and [gl1(p + (a, b)) = j], the second position
    clamped to the image: the pair partner of a pixel is the pixel [a]
    columns to the right and [b] rows below. *)
Theorem integer_offset_cooccurrence (img : array2)
    (vmin vmax levels ks h w a b : Z) :
  is_shape2 h w img -> 1 <= h < 32767 -> 1 <= w < 32767 ->
  0 <= levels -> 1 <= ks -> Z.abs a <= 1000000 -> Z.abs b <= 1000000 ->
  exists gl1 t,
    digitize_levels img vmin vmax levels = Ok gl1 /\
    fast_glcm (np.Arr2 img) vmin vmax levels ks (inject_Z a) (inject_Z b) = Ok t /\
    (forall y x, 0 <= y < h -> 0 <= x < w ->
       get2 (shifted gl1 h w a b) y x =
       get2 gl1 (cv2.clip (y + b) 0 h) (cv2.clip (x + a) 0 w)) /\
    forall i j y x,
      0 <= i < levels -> 0 <= j < levels -> 0 <= y < h -> 0 <= x < w ->
      get4 t i j y x =
      cv2.saturate_u8
        (window_count gl1 (shifted gl1 h w a b) h w ks i j y x).
Proof.
  intros Himg Hh Hw Hlv Hks Ha Hb.
  destruct (integer_offset_tensor img vmin vmax levels ks h w a b)
    as [gl1 [t [Hdig [_ [Hcall Hget]]]]]; try assumption.
  exists gl1, t. split; [exact Hdig|]. split; [exact Hcall|].
  split; [|exact Hget]. intros y x Hy Hx. now apply get2_shifted.
Qed.

Lemma integer_offset_cooccurrence_witness :
  exists gl1 t,
    digitize_levels [[0; 90]; [200; 255]] 0 255 8 = Ok gl1 /\
    fast_glcm (np.Arr2 [[0; 90]; [200; 255]]) 0 255 8 3
      (inject_Z 1) (inject_Z 0) = Ok t /\
    (forall y x, 0 <= y < 2 -> 0 <= x < 2 ->
       get2 (shifted gl1 2 2 1 0) y x =
       get2 gl1 (cv2.clip (y + 0) 0 2) (cv2.clip (x + 1) 0 2)) /\
    forall i j y x,
      0 <= i < 8 -> 0 <= j < 8 -> 0 <= y < 2 -> 0 <= x < 2 ->
      get4 t i j y x =
      cv2.saturate_u8 (window_count gl1 (shifted gl1 2 2 1 0) 2 2 3 i j y x).
Proof.
  apply (integer_offset_cooccurrence [[0; 90]; [200; 255]] 0 255 8 3 2 2 1 0).
  - split; [reflexivity | repeat constructor].
  - lia.
  - lia.
  - lia.
  - lia.
  - simpl. lia.
  - simpl. lia.
Defined.

Lemma weighted_total_zero (wt : Z -> Z -> Z) (t : array4) (levels y x : Z) :
  (forall i j, 0 <= i < levels -> 0 <= j < levels ->
     get4 t i j y x = 0 \/ wt i j = 0) ->
  weighted_total wt t levels y x = 0.
Proof.
  intros H. unfold weighted_total.
  rewrite (Zsum_map_ext _ (fun _ => 0)); [rewrite Zsum_map_const; lia|].
  intros p Hp. destruct (level_pairs_in levels p Hp) as [Hi Hj].
  destruct (H (fst p) (snd p) Hi Hj) as [-> | ->]; lia.
Qed.

(** X8.  With the zero offset (distance 0) every pixel is paired with
    itself: on every 2-D image with between 1 and 32766 rows and columns,
    whatever its pixels, the tensor is zero off the diagonal [i = j], and
    [contrast] and [dissimilarity] return images of the shape of the input
    that are 0 at every pixel. *)
Theorem zero_offset_diagonal (img : array2) (vmin vmax levels ks h w : Z) :
  is_shape2 h w img -> 1 <= h < 32767 -> 1 <= w < 32767 ->
  0 <= levels -> 1 <= ks ->
  exists t c d,
    fast_glcm (np.Arr2 img) vmin vmax levels ks 0 0 = Ok t /\
    contrast (np.Arr2 img) vmin vmax levels ks 0 0 = Ok c /\
    dissimilarity (np.Arr2 img) vmin vmax levels ks 0 0 = Ok d /\
    is_shape2 h w c /\
    is_shape2 h w d /\
    forall y x, 0 <= y < h -> 0 <= x < w ->
      (forall i j, 0 <= i < levels -> 0 <= j < levels -> i <> j ->
                   get4 t i j y x = 0) /\
      fget2 c y x = Fin 0 /\ fget2 d y x = Fin 0.
Proof.
  intros Himg Hh Hw Hlv Hks.
  destruct (integer_offset_tensor img vmin vmax levels ks h w 0 0)
    as [gl1 [t [Hdig [Hgl1 [Hcall Hget]]]]]; try assumption; try (simpl; lia).
  change (inject_Z 0) with 0%Q in Hcall.
  destruct (contrast_value img vmin vmax levels ks h w 0 0)
    as [t1 [c [Hcall1 [Hc [Hcshape Hcv]]]]]; try assumption; try lia.
  destruct (dissimilarity_value img vmin vmax levels ks h w 0 0)
    as [t2 [d [Hcall2 [Hd [Hdshape Hdv]]]]]; try assumption; try lia.
  rewrite Hcall in Hcall1, Hcall2.
  inversion Hcall1; subst t1. inversion Hcall2; subst t2.
  assert (Hoff : forall i j y x,
            0 <= i < levels -> 0 <= j < levels -> 0 <= y < h -> 0 <= x < w ->
            i <> j -> get4 t i j y x = 0).
  { intros i j y x Hi Hj Hy Hx Hne. rewrite Hget by assumption.
    unfold window_count.
    rewrite (Zsum_map_ext _ (fun _ => 0)); [rewrite Zsum_map_const; reflexivity|].
    intros ky _.
    rewrite (Zsum_map_ext _ (fun _ => 0)); [rewrite Zsum_map_const; lia|].
    intros kx _.
    pose proof (borderInterpolate_range (y + ky - ks / 2) h ltac:(lia)) as Hby.
    pose proof (borderInterpolate_range (x + kx - ks / 2) w ltac:(lia)) as Hbx.
    unfold indicator. rewrite get2_shifted by assumption.
    rewrite !Z.add_0_r, !clip_inside by assumption.
    destruct (Z.eqb_spec (get2 gl1 (cv2.borderInterpolate_reflect101
                                      (y + ky - ks / 2) h)
                            (cv2.borderInterpolate_reflect101
                               (x + kx - ks / 2) w)) i) as [Ei|Ei];
      [|reflexivity].
    destruct (Z.eqb_spec (get2 gl1 (cv2.borderInterpolate_reflect101
                                      (y + ky - ks / 2) h)
                            (cv2.borderInterpolate_reflect101
                               (x + kx - ks / 2) w)) j) as [Ej|Ej];
      [congruence | reflexivity]. }
  exists t, c, d. split; [exact Hcall|]. split; [exact Hc|]. split; [exact Hd|].
  split; [exact Hcshape|]. split; [exact Hdshape|].
  intros y x Hy Hx. split; [|split].
  - intros i j Hi Hj Hne. now apply Hoff.
  - rewrite (Hcv y x Hy Hx), weighted_total_zero; [reflexivity|].
    intros i j Hi Hj. destruct (Z.eq_dec i j) as [->|Hne].
    + right. unfold squared_difference. now rewrite Z.sub_diag.
    + left. now apply Hoff.
  - rewrite (Hdv y x Hy Hx), weighted_total_zero; [reflexivity|].
    intros i j Hi Hj. destruct (Z.eq_dec i j) as [->|Hne].
    + right. unfold absolute_difference. now rewrite Z.sub_diag.
    + left. now apply Hoff.
Qed.

Lemma zero_offset_diagonal_witness :
  exists t c d,
    fast_glcm (np.Arr2 [[0; 90]; [200; 255]]) 0 255 8 3 0 0 = Ok t /\
    contrast (np.Arr2 [[0; 90]; [200; 255]]) 0 255 8 3 0 0 = Ok c /\
    dissimilarity (np.Arr2 [[0; 90]; [200; 255]]) 0 255 8 3 0 0 = Ok d /\
    is_shape2 2 2 c /\
    is_shape2 2 2 d /\
    forall y x, 0 <= y < 2 -> 0 <= x < 2 ->
      (forall i j, 0 <= i < 8 -> 0 <= j < 8 -> i <> j -> get4 t i j y x = 0) /\
      fget2 c y x = Fin 0 /\ fget2 d y x = Fin 0.
Proof.
  apply (zero_offset_diagonal [[0; 90]; [200; 255]] 0 255 8 3 2 2).
  - split; [reflexivity | repeat constructor].
  - lia.
  - lia.
  - lia.
  - lia.
Defined.

(** ** Constant images *)

(** The tensor of a constant image: one plane holds the saturated window
    size, every other plane is zero. *)
Lemma flat_tensor (c0 vmin vmax levels ks h w : Z) (dx dy : Q) :
  1 <= h < 32767 -> 1 <= w < 32767 -> vmin < vmax -> 1 <= levels -> 1 <= ks ->
  vmin <= c0 <= vmax ->
  exists l gl1 t,
    0 <= l < levels /\
    digitize_levels (repeat (repeat c0 (Z.to_nat w)) (Z.to_nat h))
      vmin vmax levels = Ok gl1 /\
    (forall y x, 0 <= y < h -> 0 <= x < w -> get2 gl1 y x = l) /\
    fast_glcm (np.Arr2 (repeat (repeat c0 (Z.to_nat w)) (Z.to_nat h)))
      vmin vmax levels ks dx dy = Ok t /\
    forall i j y x,
      0 <= i < levels -> 0 <= j < levels -> 0 <= y < h -> 0 <= x < w ->
      get4 t i j y x = if (i =? l) && (j =? l) then Z.min 255 (ks * ks) else 0.
Proof.
  intros Hhb Hwb Hv Hlv Hks Hc.
  pose proof (proj1 Hhb) as Hh. pose proof (proj1 Hwb) as Hw.
  set (img := repeat (repeat c0 (Z.to_nat w)) (Z.to_nat h)).
  assert (Himg : is_shape2 h w img) by (apply is_shape2_repeat; lia).
  destruct (digitize_levels_increasing img vmin vmax levels) as [bins [He Hdig]];
    try lia.
  set (gl1 := map (map (level_of bins)) img) in *.
  assert (Hgl1 : is_shape2 h w gl1) by now apply is_shape2_map_map.
  destruct (fast_glcm_tensor img gl1 vmin vmax levels ks h w dx dy)
    as [sy [sx [t [Hsamples [_ [Hcall [_ Hget]]]]]]]; try assumption; try lia.
  set (gl2 := map (fun y => map (fun x => get2 gl1 (sy y x) (sx y x)) (range w))
                (range h)) in *.
  set (l := level_of bins c0).
  assert (Hl : 0 <= l < levels).
  { pose proof (level_of_lower vmin vmax levels bins He c0 ltac:(lia)).
    pose proof (level_of_upper vmin vmax levels bins He c0 ltac:(lia) ltac:(lia)).
    unfold l. lia. }
  assert (Hc1 : forall y x, 0 <= y < h -> 0 <= x < w -> get2 gl1 y x = l).
  { intros y x Hy Hx. unfold gl1.
    rewrite (get2_map_map _ h w) by assumption.
    unfold img. now rewrite get2_repeat. }
  assert (Hc2 : forall y x, 0 <= y < h -> 0 <= x < w -> get2 gl2 y x = l).
  { intros y x Hy Hx. unfold gl2.
    rewrite (get2_map_range (fun y x => get2 gl1 (sy y x) (sx y x))) by assumption.
    destruct (Hsamples y x). now apply Hc1. }
  exists l, gl1, t. split; [exact Hl|]. split; [exact Hdig|].
  split; [exact Hc1|]. split; [exact Hcall|].
  intros i j y x Hi Hj Hy Hx. rewrite Hget by assumption.
  assert (Hcount : window_count gl1 gl2 h w ks i j y x =
                   if (i =? l) && (j =? l) then ks * ks else 0).
  { unfold window_count.
    rewrite (Zsum_map_ext _
               (fun _ => if (i =? l) && (j =? l) then ks else 0)).
    { rewrite Zsum_map_const, len_range. destruct ((i =? l) && (j =? l)); lia. }
    intros ky _.
    rewrite (Zsum_map_ext _
               (fun _ => if (i =? l) && (j =? l) then 1 else 0)).
    { rewrite Zsum_map_const, len_range. destruct ((i =? l) && (j =? l)); lia. }
    intros kx _.
    pose proof (borderInterpolate_range (y + ky - ks / 2) h Hh).
    pose proof (borderInterpolate_range (x + kx - ks / 2) w Hw).
    unfold indicator. rewrite Hc1, Hc2 by assumption.
    rewrite (Z.eqb_sym l i), (Z.eqb_sym l j). reflexivity. }
  rewrite Hcount. unfold cv2.saturate_u8.
  destruct ((i =? l) && (j =? l)); nia.
Qed.

Lemma spike_weighted_total (wt : Z -> Z -> Z) (t : array4) (levels l m y x : Z) :
  0 <= l < levels ->
  (forall i j, 0 <= i < levels -> 0 <= j < levels ->
     get4 t i j y x = if (i =? l) && (j =? l) then m else 0) ->
  weighted_total wt t levels y x = m * wt l l.
Proof.
  intros Hl Hget. unfold weighted_total, level_pairs.
  rewrite (Zsum_list_prod
             (fun p => get4 t (fst p) (snd p) y x * wt (fst p) (snd p))).
  rewrite (Zsum_single _ levels l Hl).
  - rewrite (Zsum_single _ levels l Hl).
    + cbn [fst snd]. rewrite Hget by assumption. now rewrite !Z.eqb_refl.
    + intros j Hj Hne. cbn [fst snd]. rewrite Hget by assumption.
      destruct (Z.eqb_spec j l); [contradiction|].
      rewrite andb_false_r. lia.
  - intros i Hi Hne.
    rewrite (Zsum_map_ext _ (fun _ => 0)); [rewrite Zsum_map_const; lia|].
    intros j Hj. apply In_range in Hj. cbn [fst snd].
    rewrite Hget by assumption.
    destruct (Z.eqb_spec i l); [contradiction|]. cbn [andb]. lia.
Qed.

(** X9.  On a constant image (between 1 and 32766 rows and columns,
    intensity inside [vmin, vmax], [vmin < vmax], [levels >= 1],
    [kernel_size >= 1], any offset) every pixel gets the same level [l], all
    the mass of the tensor sits in the diagonal cell [(l, l)], which holds
    [min(255, kernel_size^2)], [contrast] and [dissimilarity] are 0 at every
    pixel and [homogeneity] is [min(255, kernel_size^2)] at every pixel. *)
Theorem flat_image_statistics (c0 vmin vmax levels ks h w : Z) (dx dy : Q) :
  1 <= h < 32767 -> 1 <= w < 32767 -> vmin < vmax -> 1 <= levels -> 1 <= ks ->
  vmin <= c0 <= vmax ->
  exists l gl1 t c d hm,
    0 <= l < levels /\
    digitize_levels (repeat (repeat c0 (Z.to_nat w)) (Z.to_nat h))
      vmin vmax levels = Ok gl1 /\
    fast_glcm (np.Arr2 (repeat (repeat c0 (Z.to_nat w)) (Z.to_nat h)))
      vmin vmax levels ks dx dy = Ok t /\
    contrast (np.Arr2 (repeat (repeat c0 (Z.to_nat w)) (Z.to_nat h)))
      vmin vmax levels ks dx dy = Ok c /\
    dissimilarity (np.Arr2 (repeat (repeat c0 (Z.to_nat w)) (Z.to_nat h)))
      vmin vmax levels ks dx dy = Ok d /\
    homogeneity (np.Arr2 (repeat (repeat c0 (Z.to_nat w)) (Z.to_nat h)))
      vmin vmax levels ks dx dy = Ok hm /\
    is_shape2 h w c /\ is_shape2 h w d /\ is_shape2 h w hm /\
    forall y x, 0 <= y < h -> 0 <= x < w ->
      get2 gl1 y x = l /\
      (forall i j, 0 <= i < levels -> 0 <= j < levels ->
         get4 t i j y x =
         if (i =? l) && (j =? l) then Z.min 255 (ks * ks) else 0) /\
      fget2 c y x = Fin 0 /\
      fget2 d y x = Fin 0 /\
      fget2 hm y x = of_Z (Z.min 255 (ks * ks)).
Proof.
  intros Hhb Hwb Hv Hlv Hks Hc.
  pose proof (proj1 Hhb) as Hh. pose proof (proj1 Hwb) as Hw.
  destruct (flat_tensor c0 vmin vmax levels ks h w dx dy Hhb Hwb Hv Hlv Hks Hc)
    as [l [gl1 [t [Hl [Hdig [Hlevel [Hcall Hget]]]]]]].
  set (img := repeat (repeat c0 (Z.to_nat w)) (Z.to_nat h)) in *.
  assert (Himg : is_shape2 h w img) by (apply is_shape2_repeat; lia).
  destruct (contrast_value img vmin vmax levels ks h w dx dy)
    as [t1 [c [Hcall1 [Hc' [Hcshape Hcv]]]]]; try assumption; try lia.
  destruct (dissimilarity_value img vmin vmax levels ks h w dx dy)
    as [t2 [d [Hcall2 [Hd [Hdshape Hdv]]]]]; try assumption; try lia.
  destruct (weighted_statistic
              (fun i j v => fdiv v (fadd (Fin 1) (of_Z ((i - j) ^ 2))))
              img vmin vmax levels ks h w dx dy)
    as [t4 [hm [Hcall4 [Hhm [Hhshape Hhv]]]]]; try assumption; try lia.
  rewrite Hcall in Hcall1, Hcall2, Hcall4.
  inversion Hcall1; subst t1. inversion Hcall2; subst t2.
  inversion Hcall4; subst t4.
  exists l, gl1, t, c, d, hm. split; [exact Hl|]. split; [exact Hdig|].
  split; [exact Hcall|]. split; [exact Hc'|].
  split; [exact Hd|]. split; [exact Hhm|]. split; [exact Hcshape|].
  split; [exact Hdshape|]. split; [exact Hhshape|].
  intros y x Hy Hx.
  assert (Hspike : forall i j, 0 <= i < levels -> 0 <= j < levels ->
            get4 t i j y x = if (i =? l) && (j =? l) then Z.min 255 (ks * ks) else 0)
    by (intros i j Hi Hj; now apply Hget).
  split; [now apply Hlevel|]. split; [exact Hspike|].
  split; [|split].
  - rewrite (Hcv y x Hy Hx), (spike_weighted_total _ t levels l _ y x Hl Hspike).
    unfold squared_difference. rewrite Z.sub_diag. simpl. now rewrite Z.mul_0_r.
  - rewrite (Hdv y x Hy Hx), (spike_weighted_total _ t levels l _ y x Hl Hspike).
    unfold absolute_difference. rewrite Z.sub_diag. simpl. now rewrite Z.mul_0_r.
  - rewrite (Hhv y x Hy Hx).
    apply (fsum_exact_integer _
             (fun p => inject_Z (get4 t (fst p) (snd p) y x * 1))).
    + intros p Hp. destruct (level_pairs_in levels p Hp) as [Hi Hj].
      destruct (homogeneity_term (get4 t (fst p) (snd p) y x)
                  (squared_difference (fst p) (snd p)))
        as [q [Hq [Hvq _]]].
      * rewrite Hspike by assumption. destruct (_ && _); lia.
      * apply squared_difference_nonneg.
      * exists q. split; [exact Hq|]. rewrite Hvq, Z.mul_1_r.
        rewrite Hspike by assumption.
        destruct (Z.eqb_spec (fst p) l) as [Ei|Ei];
          destruct (Z.eqb_spec (snd p) l) as [Ej|Ej]; cbn [andb].
        -- unfold squared_difference. rewrite Ei, Ej, Z.sub_diag.
           change (inject_Z (0 ^ 2)) with 0%Q. field.
        -- change (inject_Z 0) with 0%Q.
           pose proof (squared_difference_nonneg (fst p) (snd p)) as Hd0.
           rewrite Zle_Qle in Hd0. change (inject_Z 0) with 0%Q in Hd0.
           field. lra.
        -- change (inject_Z 0) with 0%Q.
           pose proof (squared_difference_nonneg (fst p) (snd p)) as Hd0.
           rewrite Zle_Qle in Hd0. change (inject_Z 0) with 0%Q in Hd0.
           field. lra.
        -- change (inject_Z 0) with 0%Q.
           pose proof (squared_difference_nonneg (fst p) (snd p)) as Hd0.
           rewrite Zle_Qle in Hd0. change (inject_Z 0) with 0%Q in Hd0.
           field. lra.
    + rewrite (Qsum_inject_Z (fun p => get4 t (fst p) (snd p) y x * 1)).
      fold (weighted_total (fun _ _ => 1) t levels y x).
      rewrite (spike_weighted_total _ t levels l _ y x Hl Hspike).
      now rewrite Z.mul_1_r.
Qed.

Lemma flat_image_statistics_witness :
  exists l gl1 t c d hm,
    0 <= l < 8 /\
    digitize_levels (repeat (repeat 100 (Z.to_nat 3)) (Z.to_nat 2))
      0 255 8 = Ok gl1 /\
    fast_glcm (np.Arr2 (repeat (repeat 100 (Z.to_nat 3)) (Z.to_nat 2)))
      0 255 8 17 1 0 = Ok t /\
    contrast (np.Arr2 (repeat (repeat 100 (Z.to_nat 3)) (Z.to_nat 2)))
      0 255 8 17 1 0 = Ok c /\
    dissimilarity (np.Arr2 (repeat (repeat 100 (Z.to_nat 3)) (Z.to_nat 2)))
      0 255 8 17 1 0 = Ok d /\
    homogeneity (np.Arr2 (repeat (repeat 100 (Z.to_nat 3)) (Z.to_nat 2)))
      0 255 8 17 1 0 = Ok hm /\
    is_shape2 2 3 c /\ is_shape2 2 3 d /\ is_shape2 2 3 hm /\
    forall y x, 0 <= y < 2 -> 0 <= x < 3 ->
      get2 gl1 y x = l /\
      (forall i j, 0 <= i < 8 -> 0 <= j < 8 ->
         get4 t i j y x =
         if (i =? l) && (j =? l) then Z.min 255 (17 * 17) else 0) /\
      fget2 c y x = Fin 0 /\
      fget2 d y x = Fin 0 /\
      fget2 hm y x = of_Z (Z.min 255 (17 * 17)).
Proof.
  apply (flat_image_statistics 100 0 255 8 17 2 3 1 0); lia.
Defined.

(** ** Energy and standard deviation *)

Lemma squared_total_bounds (t : array4) (levels y x : Z) :
  (forall i j, 0 <= i < levels -> 0 <= j < levels ->
     0 <= get4 t i j y x <= 255) ->
  0 <= squared_total t levels y x <= 255 * pixel_total t levels y x.
Proof.
  intros Hentry. unfold squared_total. split.
  - apply Zsum_map_nonneg. intros p Hp.
    destruct (level_pairs_in levels p Hp) as [Hi Hj].
    destruct (Hentry _ _ Hi Hj). apply Z.mul_nonneg_nonneg; lia.
  - rewrite Z.mul_comm, <- (weighted_total_const 255). unfold weighted_total.
    apply Zsum_map_le. intros p Hp.
    destruct (level_pairs_in levels p Hp) as [Hi Hj].
    destruct (Hentry _ _ Hi Hj). apply Z.mul_le_mono_nonneg_l; lia.
Qed.

(** X10.  [energy] never produces NaN: on every 2-D image with between 1
    and 32766 rows and columns, with [levels >= 0] and
    [1 <= kernel_size <= 256] (so that the sum below stays under [2^24],
    the integers that [float32] holds exactly), it returns an image of the
    shape of its input that holds, at every pixel, the square root of the
    integer sum of the squared tensor entries, and that sum lies between 0
    and [255 * kernel_size^2]. *)
Theorem energy_is_root_of_squares (sqrt : Q -> Q) (img : array2)
    (vmin vmax levels ks h w : Z) (dx dy : Q) :
  is_shape2 h w img -> 1 <= h < 32767 -> 1 <= w < 32767 ->
  0 <= levels -> 1 <= ks <= 256 ->
  exists t e,
    fast_glcm (np.Arr2 img) vmin vmax levels ks dx dy = Ok t /\
    energy sqrt (np.Arr2 img) vmin vmax levels ks dx dy = Ok e /\
    is_shape2 h w e /\
    forall y x, 0 <= y < h -> 0 <= x < w ->
      fget2 e y x = Fin (sqrt (inject_Z (squared_total t levels y x))) /\
      0 <= squared_total t levels y x <= 255 * (ks * ks) /\
      255 * (ks * ks) < 2 ^ 24.
Proof.
  intros Himg Hhb Hwb Hlv [Hks Hksmax].
  pose proof (proj1 Hhb) as Hh. pose proof (proj1 Hwb) as Hw.
  destruct (ncols_shape h w img Himg Hh) as [Hc Hr].
  destruct (weighted_statistic (fun _ _ v => fmul v v)
              img vmin vmax levels ks h w dx dy)
    as [t [asm [Hcall [Hstat [Hshape Hval]]]]]; try assumption.
  exists t, (map (map (fsqrt sqrt)) asm). split; [exact Hcall|].
  split; [|split].
  - unfold energy. cbn [np.shape unpack2 bind] in Hstat |- *.
    rewrite Hc, Hr, Hcall in Hstat |- *. cbn [bind] in Hstat |- *.
    rewrite zeros2_shape in Hstat |- * by lia. cbn [bind] in Hstat |- *.
    rewrite Hstat. reflexivity.
  - now apply is_shape2_map_map.
  - intros y x Hy Hx.
    destruct (tensor_of_call img vmin vmax levels ks h w dx dy t
                Himg Hhb Hwb Hlv Hks Hcall y x Hy Hx) as [Hentry Htotal].
    pose proof (squared_total_bounds t levels y x Hentry) as Hsq.
    split; [|split; [lia | nia]].
    unfold fget2.
    rewrite (nth2_map_map (fsqrt sqrt) h w asm y x NaN NaN) by assumption.
    fold (fget2 asm y x). rewrite (Hval y x Hy Hx).
    assert (Hsum : fsum (map (fun p => fmul (of_Z (get4 t (fst p) (snd p) y x))
                                         (of_Z (get4 t (fst p) (snd p) y x)))
                           (level_pairs levels)) =
                   of_Z (squared_total t levels y x)).
    { apply (fsum_exact_integer _
               (fun p => inject_Z (get4 t (fst p) (snd p) y x *
                                   get4 t (fst p) (snd p) y x))).
      - intros p _. eexists. split; [reflexivity|].
        rewrite Qred_correct, inject_Z_mult. reflexivity.
      - apply (Qsum_inject_Z
                 (fun p => get4 t (fst p) (snd p) y x *
                           get4 t (fst p) (snd p) y x)). }
    rewrite Hsum. unfold of_Z, fsqrt.
    assert (Hle : Qle_bool 0 (inject_Z (squared_total t levels y x)) = true).
    { apply Qle_bool_iff. change 0%Q with (inject_Z 0). rewrite <- Zle_Qle. lia. }
    now rewrite Hle.
Qed.

Lemma energy_is_root_of_squares_witness :
  exists t e,
    fast_glcm (np.Arr2 [[0; 90]; [200; 255]]) 0 255 8 3 1 0 = Ok t /\
    energy (fun q => q) (np.Arr2 [[0; 90]; [200; 255]]) 0 255 8 3 1 0 = Ok e /\
    is_shape2 2 2 e /\
    forall y x, 0 <= y < 2 -> 0 <= x < 2 ->
      fget2 e y x = Fin (inject_Z (squared_total t 8 y x)) /\
      0 <= squared_total t 8 y x <= 255 * (3 * 3) /\
      255 * (3 * 3) < 2 ^ 24.
Proof.
  apply (energy_is_root_of_squares (fun q => q) [[0; 90]; [200; 255]]
           0 255 8 3 2 2 1 0); try lia.
  split; [reflexivity | repeat constructor].
Defined.

Lemma Qsum_nonneg {A : Type} (f : A -> Q) (l : list A) :
  (forall a, In a l -> (0 <= f a)%Q) -> (0 <= Qsum (map f l))%Q.
Proof.
  induction l as [|a l IH]; intros Hf; [simpl; lra|].
  cbn [map Qsum fold_right]. fold (Qsum (map f l)).
  pose proof (Hf a (or_introl eq_refl)).
  pose proof (IH (fun b Hb => Hf b (or_intror Hb))). lra.
Qed.

Lemma deviation_term (a i : Z) (m : Q) :
  exists q,
    (let d := fadd (fmul (of_Z a) (of_Z i)) (fneg (Fin m)) in fmul d d) = Fin q /\
    (q == (inject_Z (a * i) - m) * (inject_Z (a * i) - m))%Q.
Proof.
  eexists. split; [reflexivity|].
  rewrite !Qred_correct, inject_Z_mult. ring.
Qed.

(** X11.  [std] never produces NaN and raises nothing: on every 2-D image
    with between 1 and 32766 rows and columns, with [levels >= 1] and
    [kernel_size >= 1], it returns an image of the shape of its input whose
    value at every pixel is the square root of a finite, non-negative
    number (the accumulated squares). *)
Theorem std_never_nan (sqrt : Q -> Q) (img : array2)
    (vmin vmax levels ks h w : Z) (dx dy : Q) :
  is_shape2 h w img -> 1 <= h < 32767 -> 1 <= w < 32767 ->
  1 <= levels -> 1 <= ks ->
  exists s,
    std sqrt (np.Arr2 img) vmin vmax levels ks dx dy = Ok s /\
    is_shape2 h w s /\
    forall y x, 0 <= y < h -> 0 <= x < w ->
      exists q2, fget2 s y x = Fin (sqrt q2) /\ (0 <= q2)%Q.
Proof.
  intros Himg Hhb Hwb Hlv Hks.
  pose proof (proj1 Hhb) as Hh. pose proof (proj1 Hwb) as Hw.
  destruct (ncols_shape h w img Himg Hh) as [Hc Hr].
  destruct (mean_value img vmin vmax levels ks h w dx dy)
    as [t [m [Hcall [Hmean [Hmshape Hmval]]]]]; try assumption.
  destruct (digitize_levels_total img vmin vmax levels ltac:(lia)) as [q Hdig].
  destruct (fast_glcm_tensor img (map (map q) img) vmin vmax levels ks h w dx dy)
    as [sy [sx [t' [_ [_ [Hcall' [Ht _]]]]]]]; try assumption; try lia.
  { now apply is_shape2_map_map. }
  rewrite Hcall in Hcall'. inversion Hcall'; subst t'. clear Hcall'.
  destruct (accumulate_pixels
              (fun i j g =>
                 zipWith (zipWith (fun v m =>
                                     let d := fadd (fmul v (of_Z i)) (fneg m) in
                                     fmul d d))
                   (astype_float g) m)
              (fun i j y x v =>
                 let d := fadd (fmul (of_Z v) (of_Z i)) (fneg (fget2 m y x)) in
                 fmul d d) t levels h w Ht)
    with (acc0 := repeat (repeat (Fin 0) (Z.to_nat w)) (Z.to_nat h))
    as [std2 [Hloop [Hshape Hval]]].
  { intros i j plane _ _ Hp.
    assert (Hfp : is_shape2 h w (astype_float plane))
      by (unfold astype_float; now apply is_shape2_map_map).
    split; [now apply is_shape2_zipWith|].
    intros y x Hy Hx. unfold fget2 at 1.
    rewrite (nth2_zipWith _ h w (astype_float plane) m y x NaN NaN NaN)
      by assumption.
    fold (fget2 m y x). unfold astype_float.
    now rewrite (nth2_map_map of_Z h w plane y x 0 NaN). }
  { apply is_shape2_repeat; lia. }
  exists (map (map (fsqrt sqrt)) std2). split; [|split].
  - unfold std. unfold mean in Hmean.
    cbn [np.shape unpack2 bind] in Hmean |- *.
    rewrite Hc, Hr, Hcall in Hmean |- *. cbn [bind] in Hmean |- *.
    rewrite zeros2_shape in Hmean |- * by lia. cbn [bind] in Hmean |- *.
    rewrite Hmean. cbn [bind]. cbv zeta in Hloop |- *.
    rewrite Hloop. reflexivity.
  - now apply is_shape2_map_map.
  - intros y x Hy Hx. destruct (Hmval y x Hy Hx) as [qm [Hqm _]].
    destruct (fsum_finite
                (fun p => let d := fadd (fmul (of_Z (get4 t (fst p) (snd p) y x))
                                           (of_Z (fst p))) (fneg (fget2 m y x)) in
                          fmul d d)
                (fun p => ((inject_Z (get4 t (fst p) (snd p) y x * fst p) - qm) *
                           (inject_Z (get4 t (fst p) (snd p) y x * fst p) - qm))%Q)
                (level_pairs levels)) as [q2 [Hq2 Hv2]].
    { intros p _. rewrite Hqm. apply deviation_term. }
    assert (Hpos : (0 <= q2)%Q).
    { rewrite Hv2. apply Qsum_nonneg.
      intros p _.
      set (u := (inject_Z (get4 t (fst p) (snd p) y x * fst p) - qm)%Q).
      destruct (Qlt_le_dec u 0) as [Hneg|Hnn].
      - setoid_replace (u * u)%Q with ((- u) * (- u))%Q by ring.
        apply Qmult_le_0_compat; lra.
      - now apply Qmult_le_0_compat. }
    exists q2. split; [|exact Hpos].
    unfold fget2.
    rewrite (nth2_map_map (fsqrt sqrt) h w std2 y x NaN NaN) by assumption.
    fold (fget2 std2 y x). rewrite (Hval y x Hy Hx), fget2_zeros by assumption.
    unfold fsum in Hq2. cbv zeta in Hq2 |- *.
    rewrite Hq2. unfold fsqrt.
    apply Qle_bool_iff in Hpos. now rewrite Hpos.
Qed.

Lemma std_never_nan_witness :
  exists s,
    std (fun q => q) (np.Arr2 [[0; 90]; [200; 255]]) 0 255 8 3 1 0 = Ok s /\
    is_shape2 2 2 s /\
    forall y x, 0 <= y < 2 -> 0 <= x < 2 ->
      exists q2, fget2 s y x = Fin q2 /\ (0 <= q2)%Q.
Proof.
  apply (std_never_nan (fun q => q) [[0; 90]; [200; 255]]
           0 255 8 3 2 2 1 0); try lia.
  split; [reflexivity | repeat constructor].
Defined.

(** ** Where the entropy is defined *)

Lemma Zsum_zero_terms {A : Type} (f : A -> Z) (l : list A) :
  (forall a, In a l -> 0 <= f a) -> cv2.Zsum (map f l) = 0 ->
  forall a, In a l -> f a = 0.
Proof.
  unfold cv2.Zsum. induction l as [|b l IH]; intros Hpos Hsum a Ha;
    [contradiction|].
  cbn [map fold_right] in Hsum.
  pose proof (Hpos b (or_introl eq_refl)) as Hb.
  pose proof (Zsum_map_nonneg f l (fun c Hc => Hpos c (or_intror Hc))) as Hl.
  unfold cv2.Zsum in Hl.
  destruct Ha as [Ha|Ha]; [subst; lia|].
  apply IH; [intros c Hc; apply Hpos; now right | lia | exact Ha].
Qed.

Lemma fsum_all_finite {A : Type} (term : A -> fval) (l : list A) :
  (forall a, In a l -> exists q, term a = Fin q) ->
  exists q, fsum (map term l) = Fin q.
Proof.
  intros Hterm.
  destruct (fsum_finite term
              (fun a => match term a with Fin q => q | _ => 0%Q end) l)
    as [q [Hq _]].
  - intros a Ha. destruct (Hterm a Ha) as [q Hq]. exists q.
    split; [exact Hq|]. rewrite Hq. reflexivity.
  - now exists q.
Qed.

(** The sum of the tensor at one pixel, computed in floating point, is the
    integer sum. *)
Lemma float_pixel_total (t : array4) (levels y x : Z) :
  fsum (map (fun p => of_Z (get4 t (fst p) (snd p) y x)) (level_pairs levels)) =
  of_Z (pixel_total t levels y x).
Proof.
  apply (fsum_exact_integer _
           (fun p => inject_Z (get4 t (fst p) (snd p) y x * 1))).
  - intros p _. eexists. split; [reflexivity|]. now rewrite Z.mul_1_r.
  - rewrite (Qsum_inject_Z (fun p => get4 t (fst p) (snd p) y x * 1)).
    fold (weighted_total (fun _ _ => 1) t levels y x).
    now rewrite weighted_total_one.
Qed.

Lemma level_pairs_nonempty (levels : Z) : 1 <= levels -> level_pairs levels <> [].
Proof.
  intros Hlv Hnil.
  assert (Hin : In (0, 0) (level_pairs levels)).
  { unfold level_pairs. apply in_prod; apply In_range; lia. }
  rewrite Hnil in Hin. contradiction.
Qed.

(** One term of the entropy at a pixel with a positive total. *)
Lemma entropy_term_finite (ln : Q -> Q) (a s k : Z) :
  0 <= a -> 1 <= s -> 1 <= k ->
  exists q,
    (let pn := fadd (fdiv (of_Z a) (of_Z s)) (fdiv (Fin 1) (of_Z k)) in
     fmul (fneg pn) (flog ln pn)) = Fin q.
Proof.
  intros Ha Hs Hk. unfold of_Z, fdiv.
  assert (Hs0 : Qeq_bool (inject_Z s) 0 = false).
  { destruct (Qeq_bool (inject_Z s) 0) eqn:E; [|reflexivity].
    apply Qeq_bool_iff in E. unfold Qeq in E. simpl in E. lia. }
  assert (Hk0 : Qeq_bool (inject_Z k) 0 = false).
  { destruct (Qeq_bool (inject_Z k) 0) eqn:E; [|reflexivity].
    apply Qeq_bool_iff in E. unfold Qeq in E. simpl in E. lia. }
  rewrite Hs0, Hk0. cbn [fadd]. cbv zeta.
  set (pn := Qred (Qred (inject_Z a / inject_Z s) + Qred (1 / inject_Z k))).
  assert (Hpn : (0 < pn)%Q).
  { unfold pn. rewrite !Qred_correct.
    assert (Hsq : (0 < inject_Z s)%Q)
      by (change 0%Q with (inject_Z 0); rewrite <- Zlt_Qlt; lia).
    assert (Hkq : (0 < inject_Z k)%Q)
      by (change 0%Q with (inject_Z 0); rewrite <- Zlt_Qlt; lia).
    assert (Haq : (0 <= inject_Z a)%Q)
      by (change 0%Q with (inject_Z 0); rewrite <- Zle_Qle; lia).
    assert (H1 : (0 <= inject_Z a / inject_Z s)%Q).
    { unfold Qdiv. apply Qmult_le_0_compat; [exact Haq|].
      apply Qinv_le_0_compat. lra. }
    assert (H2 : (0 < 1 / inject_Z k)%Q).
    { unfold Qdiv. rewrite Qmult_1_l. now apply Qinv_lt_0_compat. }
    lra. }
  unfold flog, fneg.
  destruct (Qcompare_spec pn 0) as [E|E|E]; [lra | lra |].
  eexists. reflexivity.
Qed.

(** X12.  For [levels >= 1], [kernel_size >= 1] and a 2-D image with
    between 1 and 32766 rows and columns, [entropy] returns an image of the
    shape of its input; its value at a pixel is NaN exactly when the tensor
    is zero at that pixel (no pair of the window has both levels in range);
    wherever the tensor counts at least one pair, it is a finite number. *)
Theorem entropy_finite_or_nan (ln : Q -> Q) (img : array2)
    (vmin vmax levels ks h w : Z) (dx dy : Q) :
  is_shape2 h w img -> 1 <= h < 32767 -> 1 <= w < 32767 ->
  1 <= levels -> 1 <= ks ->
  exists t e,
    fast_glcm (np.Arr2 img) vmin vmax levels ks dx dy = Ok t /\
    entropy ln (np.Arr2 img) vmin vmax levels ks dx dy = Ok e /\
    is_shape2 h w e /\
    forall y x, 0 <= y < h -> 0 <= x < w ->
      (pixel_total t levels y x = 0 -> fget2 e y x = NaN) /\
      (pixel_total t levels y x <> 0 -> exists q, fget2 e y x = Fin q).
Proof.
  intros Himg Hhb Hwb Hlv Hks.
  pose proof (proj1 Hhb) as Hh. pose proof (proj1 Hwb) as Hw.
  destruct (entropy_pixels ln img vmin vmax levels ks h w dx dy)
    as [t [e [Hcall [Hent [Heshape Hval]]]]]; try assumption; try lia.
  exists t, e. split; [exact Hcall|]. split; [exact Hent|].
  split; [exact Heshape|].
  intros y x Hy Hx. rewrite (Hval y x Hy Hx).
  destruct (tensor_of_call img vmin vmax levels ks h w dx dy t
              Himg Hhb Hwb ltac:(lia) Hks Hcall y x Hy Hx) as [Hentry Htotal].
  unfold entropy_formula. cbv zeta. rewrite float_pixel_total.
  assert (Hk : 1 <= ks ^ 2) by (rewrite Z.pow_2_r; nia).
  split.
  - intros Hzero. rewrite Hzero.
    assert (Hall : forall p, In p (level_pairs levels) ->
                     get4 t (fst p) (snd p) y x = 0).
    { intros p Hp.
      assert (Hp1 : get4 t (fst p) (snd p) y x * 1 = 0); [|lia].
      apply (Zsum_zero_terms
               (fun p => get4 t (fst p) (snd p) y x * 1) (level_pairs levels));
        [| |exact Hp].
      - intros r Hr. destruct (level_pairs_in levels r Hr) as [Hi Hj].
        destruct (Hentry _ _ Hi Hj). lia.
      - fold (weighted_total (fun _ _ => 1) t levels y x).
        now rewrite weighted_total_one. }
    rewrite (map_ext_in _ (fun _ => NaN)).
    + apply fsum_NaN. now apply level_pairs_nonempty.
    + intros p Hp. rewrite (Hall p Hp). reflexivity.
  - intros Hpos. apply fsum_all_finite. intros p Hp.
    destruct (level_pairs_in levels p Hp) as [Hi Hj].
    destruct (Hentry _ _ Hi Hj).
    apply (entropy_term_finite ln (get4 t (fst p) (snd p) y x)
             (pixel_total t levels y x) (ks ^ 2)); lia.
Qed.

Lemma entropy_finite_or_nan_witness :
  exists t e,
    fast_glcm (np.Arr2 [[0; 90]; [200; 255]]) 50 255 8 3 1 0 = Ok t /\
    entropy (fun q => q) (np.Arr2 [[0; 90]; [200; 255]]) 50 255 8 3 1 0 = Ok e /\
    is_shape2 2 2 e /\
    forall y x, 0 <= y < 2 -> 0 <= x < 2 ->
      (pixel_total t 8 y x = 0 -> fget2 e y x = NaN) /\
      (pixel_total t 8 y x <> 0 -> exists q, fget2 e y x = Fin q).
Proof.
  apply (entropy_finite_or_nan (fun q => q) [[0; 90]; [200; 255]]
           50 255 8 3 2 2 1 0); try lia.
  split; [reflexivity | repeat constructor].
Defined.

(** ** No levels at all *)

(** X13.  [levels = 0] is accepted: on every 2-D image with between 1 and
    32766 rows and columns and with [kernel_size >= 1] the tensor is empty, [mean], [contrast],
    [dissimilarity], [homogeneity] and [entropy] return the all-zero image,
    [energy] and [std] return the square root of zero everywhere, and [max]
    is the only function that raises (ValueError, from the reduction of an
    empty array). *)
Theorem zero_levels_statistics (ln sqrt : Q -> Q) (img : array2)
    (vmin vmax ks h w : Z) (dx dy : Q) :
  is_shape2 h w img -> 1 <= h < 32767 -> 1 <= w < 32767 -> 1 <= ks ->
  fast_glcm (np.Arr2 img) vmin vmax 0 ks dx dy = Ok [] /\
  mean (np.Arr2 img) vmin vmax 0 ks dx dy = Ok (zero_image h w) /\
  contrast (np.Arr2 img) vmin vmax 0 ks dx dy = Ok (zero_image h w) /\
  dissimilarity (np.Arr2 img) vmin vmax 0 ks dx dy = Ok (zero_image h w) /\
  homogeneity (np.Arr2 img) vmin vmax 0 ks dx dy = Ok (zero_image h w) /\
  entropy ln (np.Arr2 img) vmin vmax 0 ks dx dy = Ok (zero_image h w) /\
  energy sqrt (np.Arr2 img) vmin vmax 0 ks dx dy =
    Ok (repeat (repeat (Fin (sqrt 0%Q)) (Z.to_nat w)) (Z.to_nat h)) /\
  std sqrt (np.Arr2 img) vmin vmax 0 ks dx dy =
    Ok (repeat (repeat (Fin (sqrt 0%Q)) (Z.to_nat w)) (Z.to_nat h)) /\
  max (np.Arr2 img) vmin vmax 0 ks dx dy = Raise ValueError.
Proof.
  intros Himg Hhb Hwb Hks.
  pose proof (proj1 Hhb) as Hh. pose proof (proj1 Hwb) as Hw.
  destruct (ncols_shape h w img Himg Hh) as [Hc Hr].
  destruct (digitize_levels_total img vmin vmax 0 ltac:(lia)) as [q Hdig].
  destruct (fast_glcm_tensor img (map (map q) img) vmin vmax 0 ks h w dx dy)
    as [sy [sx [t [_ [_ [Hcall [Ht _]]]]]]]; try assumption; try lia.
  { now apply is_shape2_map_map. }
  assert (Hnil : t = []).
  { destruct Ht as [Hlen _]. destruct t; [reflexivity|].
    unfold len in Hlen. cbn [length] in Hlen. lia. }
  subst t.
  assert (Hroot : map (map (fsqrt sqrt)) (zero_image h w) =
                  repeat (repeat (Fin (sqrt 0%Q)) (Z.to_nat w)) (Z.to_nat h)).
  { unfold zero_image. now rewrite !map_repeat. }
  split; [exact Hcall|].
  repeat split.
  - unfold mean. cbn [np.shape unpack2 bind]. rewrite Hc, Hr, Hcall.
    cbn [bind]. rewrite zeros2_shape by lia. reflexivity.
  - unfold contrast. cbn [np.shape unpack2 bind]. rewrite Hc, Hr, Hcall.
    cbn [bind]. rewrite zeros2_shape by lia. reflexivity.
  - unfold dissimilarity. cbn [np.shape unpack2 bind]. rewrite Hc, Hr, Hcall.
    cbn [bind]. rewrite zeros2_shape by lia. reflexivity.
  - unfold homogeneity. cbn [np.shape unpack2 bind]. rewrite Hc, Hr, Hcall.
    cbn [bind]. rewrite zeros2_shape by lia. reflexivity.
  - unfold entropy. rewrite Hcall. cbn [bind as_array2]. cbv zeta.
    rewrite Hc, Hr.
    destruct (Z.eqb_spec (ks ^ 2) 0) as [E|_];
      [rewrite Z.pow_2_r in E; nia|].
    reflexivity.
  - unfold energy. cbn [np.shape unpack2 bind]. rewrite Hc, Hr, Hcall.
    cbn [bind]. rewrite zeros2_shape by lia. cbn [bind].
    change (for_range 0 ?f ?a) with (Ok a). cbn [bind].
    f_equal. exact Hroot.
  - unfold std. cbn [np.shape unpack2 bind]. rewrite Hc, Hr, Hcall.
    cbn [bind]. rewrite zeros2_shape by lia. cbn [bind].
    change (for_range 0 ?f ?a) with (Ok a). cbn [bind].
    change (for_range 0 ?f ?a) with (Ok a). cbn [bind].
    f_equal. exact Hroot.
  - unfold max. rewrite Hcall. reflexivity.
Qed.

Lemma zero_levels_statistics_witness :
  fast_glcm (np.Arr2 [[0; 90]; [200; 255]]) 0 255 0 3 1 0 = Ok [] /\
  mean (np.Arr2 [[0; 90]; [200; 255]]) 0 255 0 3 1 0 = Ok (zero_image 2 2) /\
  contrast (np.Arr2 [[0; 90]; [200; 255]]) 0 255 0 3 1 0 = Ok (zero_image 2 2) /\
  dissimilarity (np.Arr2 [[0; 90]; [200; 255]]) 0 255 0 3 1 0 =
    Ok (zero_image 2 2) /\
  homogeneity (np.Arr2 [[0; 90]; [200; 255]]) 0 255 0 3 1 0 =
    Ok (zero_image 2 2) /\
  entropy (fun q => q) (np.Arr2 [[0; 90]; [200; 255]]) 0 255 0 3 1 0 =
    Ok (zero_image 2 2) /\
  energy (fun q => q) (np.Arr2 [[0; 90]; [200; 255]]) 0 255 0 3 1 0 =
    Ok (repeat (repeat (Fin 0%Q) (Z.to_nat 2)) (Z.to_nat 2)) /\
  std (fun q => q) (np.Arr2 [[0; 90]; [200; 255]]) 0 255 0 3 1 0 =
    Ok (repeat (repeat (Fin 0%Q) (Z.to_nat 2)) (Z.to_nat 2)) /\
  max (np.Arr2 [[0; 90]; [200; 255]]) 0 255 0 3 1 0 = Raise ValueError.
Proof.
  apply (zero_levels_statistics (fun q => q) (fun q => q) [[0; 90]; [200; 255]]
           0 255 3 2 2 1 0); try lia.
  split; [reflexivity | repeat constructor].
Defined.

(** ** Bins of integer width *)

Lemma filter_map_length {A B : Type} (P : B -> bool) (g : A -> B) (l : list A) :
  length (filter P (map g l)) = length (filter (fun a => P (g a)) l).
Proof.
  induction l as [|a l IH]; [reflexivity|]. cbn [map filter].
  destruct (P (g a)); cbn [length]; now rewrite IH.
Qed.

Lemma count_below (n K : Z) :
  0 <= n -> 0 <= K ->
  len (filter (fun k => k <=? K) (range n)) = Z.min n (K + 1).
Proof.
  intros Hn HK. revert n Hn.
  apply (natlike_ind (fun n => len (filter (fun k => k <=? K) (range n)) =
                               Z.min n (K + 1))).
  - cbn. lia.
  - intros n Hn IH. rewrite <- Z.add_1_r, (range_succ n Hn), filter_app.
    unfold len in *. rewrite length_app, Nat2Z.inj_add, IH.
    cbn [filter]. destruct (Z.leb_spec n K); cbn [length]; lia.
Qed.

(** X14.  When the intensity range [vmax + 1 - vmin] is [levels] bins of an
    integer width [s], the level of every pixel inside [vmin, vmax] is
    [(v - vmin) / s] rounded down. *)
Theorem quantization_integer_width (img : array2) (vmin vmax levels s h w : Z) :
  is_shape2 h w img -> 1 <= levels -> 1 <= s ->
  vmax + 1 - vmin = levels * s ->
  exists gl1,
    digitize_levels img vmin vmax levels = Ok gl1 /\
    forall y x, 0 <= y < h -> 0 <= x < w ->
      vmin <= get2 img y x <= vmax ->
      get2 gl1 y x = (get2 img y x - vmin) / s.
Proof.
  intros Himg Hlv Hs Hrange.
  destruct (bins_increasing_edges vmin vmax levels) as [bins [Hb [_ Hmono]]];
    [lia | nia |].
  destruct (linspace_edges (inject_Z vmin) (inject_Z (vmax + 1)) levels Hlv)
    as [g [Hlin Hg]].
  rewrite Hlin in Hb. inversion Hb as [Hbins]. clear Hb.
  exists (map (map (level_of bins)) img). split.
  - unfold digitize_levels. rewrite Hlin. cbn [bind]. rewrite Hbins.
    unfold np.digitize. rewrite Hmono. simpl.
    f_equal. rewrite map_map. apply map_ext. intros row.
    rewrite map_map. apply map_ext. intros v. reflexivity.
  - intros y x Hy Hx Hv. rewrite (get2_map_map _ h w) by assumption.
    set (v := get2 img y x) in *.
    assert (Hstep : forall k, (g k == inject_Z (vmin + k * s))%Q).
    { intros k. rewrite Hg.
      replace (vmax + 1) with (vmin + levels * s) by lia.
      rewrite !inject_Z_plus, !inject_Z_mult. field.
      change 0%Q with (inject_Z 0). rewrite inject_Z_injective. lia. }
    assert (HK : 0 <= (v - vmin) / s < levels).
    { split; [apply Z.div_pos; lia|].
      apply Z.div_lt_upper_bound; lia. }
    unfold level_of, np.searchsorted_right. rewrite <- Hbins, filter_app.
    unfold len. rewrite length_app, filter_map_length.
    assert (Hlast : filter (fun b => Qle_bool b (inject_Z v))
                      [inject_Z (vmax + 1)] = []).
    { cbn [filter].
      destruct (Qle_bool (inject_Z (vmax + 1)) (inject_Z v)) eqn:E;
        [|reflexivity].
      apply Qle_bool_iff in E. rewrite <- Zle_Qle in E. lia. }
    rewrite Hlast. cbn [length].
    rewrite (filter_ext_in (fun k => Qle_bool (g k) (inject_Z v))
               (fun k => k <=? (v - vmin) / s)).
    + pose proof (count_below levels ((v - vmin) / s) ltac:(lia) ltac:(lia))
        as Hcount.
      unfold len in Hcount. lia.
    + intros k Hk. apply In_range in Hk.
      destruct (Z.leb_spec k ((v - vmin) / s)) as [Hle|Hgt].
      * apply Qle_bool_iff. rewrite Hstep, <- Zle_Qle.
        pose proof (Z.mul_div_le (v - vmin) s ltac:(lia)). nia.
      * destruct (Qle_bool (g k) (inject_Z v)) eqn:E; [|reflexivity].
        apply Qle_bool_iff in E. rewrite Hstep, <- Zle_Qle in E.
        assert (k <= (v - vmin) / s); [|lia].
        apply Z.div_le_lower_bound; lia.
Qed.

Lemma quantization_integer_width_witness :
  exists gl1,
    digitize_levels [[0; 90]; [200; 255]] 0 255 8 = Ok gl1 /\
    forall y x, 0 <= y < 2 -> 0 <= x < 2 ->
      0 <= get2 [[0; 90]; [200; 255]] y x <= 255 ->
      get2 gl1 y x = (get2 [[0; 90]; [200; 255]] y x - 0) / 32.
Proof.
  apply (quantization_integer_width [[0; 90]; [200; 255]] 0 255 8 32 2 2);
    try lia.
  split; [reflexivity | repeat constructor].
Defined.

(** ** Errors of the tensor computation *)

Lemma unpack_then_call {A : Type} (img : np.ndarray)
    (vmin vmax levels ks : Z) (dx dy : Q) (e : exn)
    (k : Z -> Z -> array4 -> result A) :
  fast_glcm img vmin vmax levels ks dx dy = Raise e ->
  (hw <- unpack2 (np.shape img) ;;
   let '(h, w) := hw in
   glcm <- fast_glcm img vmin vmax levels ks dx dy ;;
   k h w glcm) = Raise e.
Proof.
  intros Hcall.
  destruct (unpack2 (np.shape img)) as [[h w]|e'] eqn:E; cbn [bind].
  - rewrite Hcall. reflexivity.
  - unfold fast_glcm in Hcall. cbv zeta in Hcall. rewrite E in Hcall.
    cbn [bind] in Hcall. inversion Hcall. reflexivity.
Qed.

(** X15.  No statistic hides or changes a failure of [fast_glcm]: whenever
    the tensor computation raises an exception for an image and parameters
    (an image that is not 2-D, an empty image, a negative [levels], a
    [kernel_size] below 1), each of the eight statistics raises that same
    exception. *)
Theorem statistics_propagate_errors (ln sqrt : Q -> Q) (img : np.ndarray)
    (vmin vmax levels ks : Z) (dx dy : Q) (e : exn) :
  fast_glcm img vmin vmax levels ks dx dy = Raise e ->
  mean img vmin vmax levels ks dx dy = Raise e /\
  std sqrt img vmin vmax levels ks dx dy = Raise e /\
  contrast img vmin vmax levels ks dx dy = Raise e /\
  dissimilarity img vmin vmax levels ks dx dy = Raise e /\
  homogeneity img vmin vmax levels ks dx dy = Raise e /\
  energy sqrt img vmin vmax levels ks dx dy = Raise e /\
  max img vmin vmax levels ks dx dy = Raise e /\
  entropy ln img vmin vmax levels ks dx dy = Raise e.
Proof.
  intros Hcall.
  repeat split;
    try (apply (unpack_then_call img vmin vmax levels ks dx dy e); exact Hcall).
  - unfold max. rewrite Hcall. reflexivity.
  - unfold entropy. rewrite Hcall. reflexivity.
Qed.

Lemma statistics_propagate_errors_witness :
  mean (np.Arr2 [[0; 90]; [200; 255]]) 0 255 8 0 1 0 = Raise CvError /\
  std (fun q => q) (np.Arr2 [[0; 90]; [200; 255]]) 0 255 8 0 1 0 = Raise CvError /\
  contrast (np.Arr2 [[0; 90]; [200; 255]]) 0 255 8 0 1 0 = Raise CvError /\
  dissimilarity (np.Arr2 [[0; 90]; [200; 255]]) 0 255 8 0 1 0 = Raise CvError /\
  homogeneity (np.Arr2 [[0; 90]; [200; 255]]) 0 255 8 0 1 0 = Raise CvError /\
  energy (fun q => q) (np.Arr2 [[0; 90]; [200; 255]]) 0 255 8 0 1 0 =
    Raise CvError /\
  max (np.Arr2 [[0; 90]; [200; 255]]) 0 255 8 0 1 0 = Raise CvError /\
  entropy (fun q => q) (np.Arr2 [[0; 90]; [200; 255]]) 0 255 8 0 1 0 =
    Raise CvError.
Proof.
  apply (statistics_propagate_errors (fun q => q) (fun q => q)
           (np.Arr2 [[0; 90]; [200; 255]]) 0 255 8 0 1 0 CvError).
  vm_compute. reflexivity.
Defined.
